(** * QPGA: a quantum photonic gate array simulated with dense matrices

    Shallow embedding of [src/qpga/model.py] and proofs about it.

    Conventions of the embedding.
    - A [float64] in a tensor is a real number of the Standard Library
      ([R]) and a [complex128] is a pair of reals: arithmetic on tensors is
      exact, so rounding, overflow and NaN are outside the model.
      [tf.cos] and [tf.sin] are [cos] and [sin].
    - A tensor is a value: an operation on tensors is evaluated when the
      statement runs.  The two execution modes of TensorFlow differ only
      where a tensor was derived from a [tf.Variable] that is assigned
      afterwards; they are both modelled for the built Single-Qubit layer
      ([SingleQubitOperationLayer_forward]), and they agree as long as no
      variable is assigned ([SingleQubitOperationLayer_forward_built]).
    - A symbolic Keras tensor is modelled by a placeholder of its shape.
    - A rank-1 tensor is a list, a rank-2 tensor a list of rows, a
      [batch, 2, d] real tensor a list of two-row blocks.
    - Python integers are [Z], of any size; [2 ** n] is a float for
      [n < 0] and raises where Python does.  A Keras layer is a record
      whose attributes created by [build] are absent ([None]) until the
      layer is built.
    - An operation that raises returns the error alone: the state that a
      failed call leaves behind is not modelled. *)

From Stdlib Require Import List ZArith Reals Lra Lia Bool.
From Stdlib Require String.
Import ListNotations.
Import String.StringSyntax.
Delimit Scope string_scope with string.

Set Implicit Arguments.

(** ** Errors *)

Module Py.

(** The exceptions that matter here: the [assert] statements of the
    source, the shape and dtype errors raised by library calls, and the
    overflow of a conversion to float. *)
Inductive error : Type :=
| AssertionError
| ShapeError
| TypeError
| OverflowError.

Inductive result (A : Type) : Type :=
| Ok (a : A)
| Err (e : error).

Arguments Ok {A} a.
Arguments Err {A} e.

Definition bind {A B : Type} (m : result A) (k : A -> result B) : result B :=
  match m with
  | Ok a => k a
  | Err e => Err e
  end.

Definition assert (b : bool) : result unit :=
  if b then Ok tt else Err AssertionError.

Definition require (b : bool) : result unit :=
  if b then Ok tt else Err ShapeError.

(** The value of [2 ** n]: an integer for [n >= 0], the float [2.0 ** n]
    for [n < 0]. *)
Inductive num : Type :=
| Int (z : Z)
| FloatPow2 (e : Z).

(** An integer converts to a float when it rounds to less than
    [2.0 ** 1024]: when its magnitude is below this bound. *)
Definition float_limit : Z := 2 ^ 1024 - 2 ^ 970.

(** [2 ** n].  For [n >= 0] the result is an integer (of any size: memory
    is not bounded here).  For [n < 0] Python computes
    [float(2) ** float(n)]: the conversion of [n] raises [OverflowError]
    when [n] is too large for a float, and the power itself does not
    raise (below the smallest subnormal it is [0.0], see [eq_int]). *)
Definition pow2 (n : Z) : result num :=
  if (0 <=? n)%Z then Ok (Int (2 ^ n))
  else if (- float_limit <? n)%Z then Ok (FloatPow2 n)
  else Err OverflowError.

(** What [2 ** n] returns when it returns. *)
Definition pow2_value (n : Z) : num :=
  if (0 <=? n)%Z then Int (2 ^ n) else FloatPow2 n.

(** [d == p] for an integer [d]: a float [2.0 ** e] with [e < 0] is an
    integer only when it has underflowed to [0.0], below the smallest
    subnormal [2.0 ** -1074]. *)
Definition eq_int (d : Z) (p : num) : bool :=
  match p with
  | Int z => (d =? z)%Z
  | FloatPow2 e => (d =? 0)%Z && (e <? -1074)%Z
  end.

(** [range(n)] *)
Definition range (n : Z) : list Z := map Z.of_nat (seq 0 (Z.to_nat n)).

(** [[a] * n], and the loops that append [a] for each element of
    [range(n)]. *)
Definition replicate {A : Type} (n : Z) (a : A) : list A := repeat a (Z.to_nat n).

End Py.

Import Py.

Notation "x <- m ;; k" := (Py.bind m (fun x => k))
  (at level 61, m at next level, right associativity).
Notation "m ;;; k" := (Py.bind m (fun _ => k))
  (at level 61, right associativity).

(** ** Complex numbers *)

Definition C : Type := (R * R)%type.

Definition tf_complex (re im : R) : C := (re, im).
Definition C0 : C := (0, 0)%R.
Definition C1 : C := (1, 0)%R.
Definition Cadd (a b : C) : C := (fst a + fst b, snd a + snd b)%R.
Definition Cmul (a b : C) : C :=
  (fst a * fst b - snd a * snd b, fst a * snd b + snd a * fst b)%R.
Definition Cconj (a : C) : C := (fst a, - snd a)%R.
Definition Cnorm2 (a : C) : R := (fst a * fst a + snd a * snd a)%R.
(** [tf.abs] on a complex number *)
Definition Cabs (a : C) : R := sqrt (Cnorm2 a).

(** ** Vectors and matrices *)

Abbreviation cvector := (list C) (only parsing).
Abbreviation cmatrix := (list (list C)) (only parsing).

(** Sum of two rows; a missing entry counts as zero. *)
Fixpoint vadd (u v : cvector) : cvector :=
  match u, v with
  | [], _ => v
  | _, [] => u
  | a :: u', b :: v' => Cadd a b :: vadd u' v'
  end.

Definition vscale (c : C) (v : cvector) : cvector := map (Cmul c) v.

(** The row vector [x] times the matrix [M]: the combination of the rows
    of [M] with the entries of [x] as coefficients. *)
Fixpoint vecmat (x : cvector) (M : cmatrix) : cvector :=
  match x, M with
  | c :: x', r :: M' => vadd (vscale c r) (vecmat x' M')
  | _, _ => []
  end.

(** Matrix product of a [batch x d] matrix with a [d x d'] matrix. *)
Definition matmul (X M : cmatrix) : cmatrix := map (fun x => vecmat x M) X.

(** [X] is a tensor of shape [rows, cols]. *)
Definition has_width (cols : nat) (X : cmatrix) : bool :=
  forallb (fun r => Nat.eqb (length r) cols) X.

Definition has_shape (rows cols : nat) (X : cmatrix) : bool :=
  Nat.eqb (length X) rows && has_width cols X.

(** [keras.backend.dot] on rank-2 tensors: the matrix product, defined when
    the last dimension of [X] is the first dimension of [M]. *)
Definition dot (X M : cmatrix) : result cmatrix :=
  require (has_width (length M) X) ;;;
  Ok (matmul X M).

(** Kronecker product: row [i*p + k] is the row [i] of [A] with every entry
    replaced by its multiple of row [k] of [B] (as [numpy.kron]). *)
Definition kron_row (a b : cvector) : cvector := flat_map (fun c => vscale c b) a.
Definition kron (A B : cmatrix) : cmatrix :=
  flat_map (fun a => map (kron_row a) B) A.

(** [tf.linalg.tensor_diag] on a rank-1 tensor: row [k] is zero but for
    entry [k] of the vector at column [k]. *)
Fixpoint tensor_diag (v : cvector) : cmatrix :=
  match v with
  | [] => []
  | c :: v' => (c :: repeat C0 (length v')) :: map (cons C0) (tensor_diag v')
  end.

(** A real tensor of shape [batch, 2, d]: per batch entry the row of real
    parts and the row of imaginary parts. *)
Abbreviation rtensor := (list (list (list R))) (only parsing).

(** What a caller can pass to, and get from, the model. *)
Inductive tensor : Type :=
| RealTensor (x : rtensor)
| ComplexTensor (x : cmatrix).

(** ** The helpers imported from the rest of the package *)

(** Modelled from the spec: [qpga.utils.k_to_tf_complex] is missing from
    the sources; the spec gives [real_to_complex(x: real[..., 2, d]) ->
    complex[..., d]], pairing real and imaginary parts. *)
Definition k_to_tf_complex (x : rtensor) : cmatrix :=
  map (fun b => map (fun p => tf_complex (fst p) (snd p))
                    (combine (nth 0 b []) (nth 1 b []))) x.

(** Modelled from the spec: [qpga.utils.tf_to_k_complex] is missing from
    the sources; the spec gives [complex_to_real(x: complex[..., d]) ->
    real[..., 2, d]], the inverse of the former. *)
Definition tf_to_k_complex (x : cmatrix) : rtensor :=
  map (fun r => [map fst r; map snd r]) x.

(** Modelled from the spec: [qpga.constants.IDENTITY] is missing from the
    sources; the spec gives the 2x2 identity. *)
Definition IDENTITY : cmatrix := [[C1; C0]; [C0; C1]].

(** Modelled from the spec: [qpga.linalg.tensors] is missing from the
    sources; the spec gives the Kronecker product of an ordered list of
    square matrices, left to right, of dimension the product of the
    dimensions (1 for no matrix). *)
Definition tensors (ops : list cmatrix) : cmatrix :=
  match ops with
  | [] => [[C1]]
  | A :: rest => fold_left kron rest A
  end.

(** ** TensorFlow operations used by the source *)

(** [tf.linalg.LinearOperatorKronecker]: the operator list must not be
    empty; [to_dense] multiplies the operators out, left to right. *)
Record LinearOperatorKronecker : Type := { operators : list cmatrix }.

Definition LinearOperatorKronecker_init (ops : list cmatrix)
  : result LinearOperatorKronecker :=
  match ops with
  | [] => Err ShapeError
  | _ :: _ => Ok {| operators := ops |}
  end.

Definition to_dense (op : LinearOperatorKronecker) : cmatrix :=
  match operators op with
  | [] => []
  | A :: rest => fold_left kron rest A
  end.

(** [tf.transpose([u, v])]: the two rank-1 tensors are stacked (which needs
    equal lengths) and transposed, giving the rows [[u_k, v_k]]. *)
Definition transpose_pair (u v : cvector) : result cmatrix :=
  require (Nat.eqb (length u) (length v)) ;;;
  Ok (map (fun p => [fst p; snd p]) (combine u v)).

Definition zeros_like (v : list R) : list R := repeat 0%R (length v).

(** * [phase_shifts_to_tensor_product_space]

    [tf.unstack] and [LinearOperatorFullMatrix] only repackage the list of
    the per-qubit matrices. *)
Definition phase_shifts_to_tensor_product_space (phi_0 phi_1 : list R)
  : result LinearOperatorKronecker :=
  let phi_0_complex := map (fun p => tf_complex (cos p) (sin p)) phi_0 in
  let phi_1_complex := map (fun p => tf_complex (cos p) (sin p)) phi_1 in
  stacked <- transpose_pair phi_0_complex phi_1_complex ;;
  let single_qubit_ops := map tensor_diag stacked in
  LinearOperatorKronecker_init single_qubit_ops.

(** ** Keras layers *)

(** The last dimension of the input is [d]: every row has [d] entries
    (an empty batch fits every last dimension). *)
Definition last_dim_eq (X : cmatrix) (d : Py.num) : bool :=
  forallb (fun r => Py.eq_int (Z.of_nat (length r)) d) X.

(** [add_weight] with [shape = (n,)]: a vector of [n] values drawn by the
    initializer; a negative dimension is refused.  The initializer is the
    sequence of values it produces. *)
Definition add_weight (n : Z) (initializer : nat -> R) : result (list R) :=
  require (0 <=? n)%Z ;;;
  Ok (map initializer (seq 0 (Z.to_nat n))).

(** The four draws of the initializer of one Single-Qubit layer. *)
Record SQInit : Type := {
  init_alphas : nat -> R;
  init_betas : nat -> R;
  init_thetas : nat -> R;
  init_phis : nat -> R
}.

(** The attributes that [SingleQubitOperationLayer.build] creates. *)
Record SQAttrs : Type := {
  alphas : list R;
  betas : list R;
  thetas : list R;
  phis : list R;
  input_shifts : cmatrix;
  theta_shifts : cmatrix;
  phi_shifts : cmatrix;
  bs_matrix : cmatrix
}.

Record SingleQubitOperationLayer : Type := {
  sq_num_qubits : Z;
  sq_output_dim : Py.num;
  sq_built : option SQAttrs
}.

(** The attributes that [CPhaseLayer.build] creates. *)
Record CPAttrs : Type := {
  transfer_matrix_np : cmatrix;
  transfer_matrix : cmatrix
}.

Record CPhaseLayer : Type := {
  cp_num_qubits : Z;
  cp_parity : Z;
  cp_use_standard_cphase : bool;
  cp_output_dim : Py.num;
  cp_built : option CPAttrs
}.

Record QPGA : Type := {
  num_qubits : Z;
  input_dim : Py.num;
  depth : Z;
  complex_inputs : bool;
  complex_outputs : bool;
  use_standard_cphase : bool;
  input_layer : SingleQubitOperationLayer;
  single_qubit_layers : list SingleQubitOperationLayer;
  cphase_layers : list CPhaseLayer
}.

(** The stages of a [keras.Sequential] made by [as_sequential].  A layer of
    the circuit is held by reference: the stage names the attribute of the
    [QPGA] object where the layer lives. *)
Inductive dtype : Type := float64 | complex128.

Inductive stage : Type :=
| Input (shape : list Py.num) (dt : dtype)
| Lambda (f : tensor -> result tensor)
| InputLayerRef
| CPhaseLayerRef (i : nat)
| SingleQubitLayerRef (i : nat).

Record Sequential : Type := {
  seq_layers : list stage;
  seq_num_qubits : Z;
  seq_complex_inputs : bool;
  seq_complex_outputs : bool
}.

(** A layer works on complex rank-2 tensors, the real-to-complex helper on
    real tensors; the other kind of tensor is a dtype error. *)
Definition expect_complex (t : tensor) : result cmatrix :=
  match t with
  | ComplexTensor x => Ok x
  | RealTensor _ => Err TypeError
  end.

Definition expect_real (t : tensor) : result rtensor :=
  match t with
  | RealTensor x => Ok x
  | ComplexTensor _ => Err TypeError
  end.

(** [lambda x: k_to_tf_complex(x)] and [lambda x: tf_to_k_complex(x)] *)
Definition lambda_k_to_tf_complex (t : tensor) : result tensor :=
  x <- expect_real t ;; Ok (ComplexTensor (k_to_tf_complex x)).

Definition lambda_tf_to_k_complex (t : tensor) : result tensor :=
  x <- expect_complex t ;; Ok (RealTensor (tf_to_k_complex x)).

(** * [antifidelity]

    The two [print] calls write the shapes to the standard output and do
    not change the result; the output stream is not part of the model.
    [tf.multiply] is modelled on tensors of one shape (broadcasting of
    unequal shapes is not modelled: a shape error). *)

Definition tf_conj (A : cmatrix) : cmatrix := map (map Cconj) A.

Definition same_shape (A B : cmatrix) : bool :=
  Nat.eqb (length A) (length B) &&
  forallb (fun p => Nat.eqb (length (fst p)) (length (snd p))) (combine A B).

Definition tf_multiply (A B : cmatrix) : result cmatrix :=
  require (same_shape A B) ;;;
  Ok (map (fun p => map (fun q => Cmul (fst q) (snd q))
                        (combine (fst p) (snd p)))
          (combine A B)).

(** [tf.reduce_sum(_, 1)]: the sum of each row. *)
Definition reduce_sum_1 (A : cmatrix) : cvector := map (fold_right Cadd C0) A.

Definition antifidelity (state_true state_pred : rtensor) : result (list R) :=
  let state_true := k_to_tf_complex state_true in
  let state_pred := k_to_tf_complex state_pred in
  prod <- tf_multiply (tf_conj state_true) state_pred ;;
  let inner_prods := reduce_sum_1 prod in
  let amplitudes := map Cabs inner_prods in
  Ok (map (fun a => (1 - a ^ 2)%R) amplitudes).

Ltac csimpl :=
  unfold Cadd, Cmul, Cconj, Cnorm2, C0, C1, tf_complex in *; simpl in *.

Ltac lca := csimpl; f_equal; ring.

Section Model.

(** The gate constants of [qpga.constants] that are missing from the
    sources and whose entries the spec does not give. *)
Variables BS_MATRIX CPHASE CPHASE_MOD : cmatrix.

(** * [SingleQubitOperationLayer] *)

Definition SingleQubitOperationLayer_init (num_qubits : Z)
  : result SingleQubitOperationLayer :=
  output_dim <- Py.pow2 num_qubits ;;
  Ok {| sq_num_qubits := num_qubits;
        sq_output_dim := output_dim;
        sq_built := None |}.

Definition SingleQubitOperationLayer_build
    (initializer : SQInit) (self : SingleQubitOperationLayer)
    (input : cmatrix) : result SQAttrs :=
  assert (last_dim_eq input (sq_output_dim self)) ;;;
  alphas <- add_weight (sq_num_qubits self) (init_alphas initializer) ;;
  betas <- add_weight (sq_num_qubits self) (init_betas initializer) ;;
  thetas <- add_weight (sq_num_qubits self) (init_thetas initializer) ;;
  phis <- add_weight (sq_num_qubits self) (init_phis initializer) ;;
  op_in <- phase_shifts_to_tensor_product_space alphas betas ;;
  op_theta <- phase_shifts_to_tensor_product_space thetas (zeros_like thetas) ;;
  op_phi <- phase_shifts_to_tensor_product_space phis (zeros_like phis) ;;
  Ok {| alphas := alphas;
        betas := betas;
        thetas := thetas;
        phis := phis;
        input_shifts := to_dense op_in;
        theta_shifts := to_dense op_theta;
        phi_shifts := to_dense op_phi;
        bs_matrix := tensors (Py.replicate (sq_num_qubits self) BS_MATRIX) |}.

Definition SingleQubitOperationLayer_call (self : SQAttrs) (x : cmatrix)
  : result cmatrix :=
  let out := x in
  out <- dot out (input_shifts self) ;;
  out <- dot out (bs_matrix self) ;;
  out <- dot out (theta_shifts self) ;;
  out <- dot out (bs_matrix self) ;;
  out <- dot out (phi_shifts self) ;;
  Ok out.

(** Keras' [Layer.__call__]: the first call builds the layer from the
    shape of its input, every call then runs [call]. *)
Definition SingleQubitOperationLayer_apply
    (initializer : SQInit) (self : SingleQubitOperationLayer)
    (x : cmatrix) : result (SingleQubitOperationLayer * cmatrix) :=
  attrs <- match sq_built self with
           | Some attrs => Ok attrs
           | None => SingleQubitOperationLayer_build initializer self x
           end ;;
  out <- SingleQubitOperationLayer_call attrs x ;;
  Ok ({| sq_num_qubits := sq_num_qubits self;
         sq_output_dim := sq_output_dim self;
         sq_built := Some attrs |}, out).

(** ** Variables and the execution modes of TensorFlow

    The four weights of a built layer are [tf.Variable]s: cells whose
    content can be assigned after [build], by Keras' [set_weights] or by a
    step of an optimizer.  In [SQAttrs] the fields [alphas], [betas],
    [thetas] and [phis] are what the cells hold now.  The attributes
    [input_shifts], [theta_shifts] and [phi_shifts] are assigned once, by
    lines 68-70 of [build].  What they give at a forward pass depends on
    how TensorFlow executes operations:
    - under eager execution an operation returns its value, and the
      attribute is the matrix computed when [build] ran;
    - under graph execution (TF 1.x) an operation returns a node of the
      graph, and the attribute is the computation of lines 68-70, run at
      each forward pass on what the variables hold then. *)
Inductive execution : Type :=
| EagerExecution
| GraphExecution.

(** Keras' [Layer.set_weights] on a built layer: the four values are
    assigned to the variables in the order in which [add_weight] created
    them; a list of another length or a value of another shape is
    refused.  No attribute of the layer is assigned. *)
Definition SingleQubitOperationLayer_set_weights
    (weights : list (list R)) (self : SQAttrs) : result SQAttrs :=
  match weights with
  | [a; b; t; p] =>
      require (Nat.eqb (length a) (length (alphas self)) &&
               Nat.eqb (length b) (length (betas self)) &&
               Nat.eqb (length t) (length (thetas self)) &&
               Nat.eqb (length p) (length (phis self))) ;;;
      Ok {| alphas := a;
            betas := b;
            thetas := t;
            phis := p;
            input_shifts := input_shifts self;
            theta_shifts := theta_shifts self;
            phi_shifts := phi_shifts self;
            bs_matrix := bs_matrix self |}
  | _ => Err ShapeError
  end.

(** The attributes of a built layer as a forward pass reads them: as
    they are under eager execution, and with the computation of lines
    68-70 run on the variables under graph execution. *)
Definition SingleQubitOperationLayer_read
    (mode : execution) (self : SQAttrs) : result SQAttrs :=
  match mode with
  | EagerExecution => Ok self
  | GraphExecution =>
      op_in <- phase_shifts_to_tensor_product_space (alphas self) (betas self) ;;
      op_theta <- phase_shifts_to_tensor_product_space
                    (thetas self) (zeros_like (thetas self)) ;;
      op_phi <- phase_shifts_to_tensor_product_space
                  (phis self) (zeros_like (phis self)) ;;
      Ok {| alphas := alphas self;
            betas := betas self;
            thetas := thetas self;
            phis := phis self;
            input_shifts := to_dense op_in;
            theta_shifts := to_dense op_theta;
            phi_shifts := to_dense op_phi;
            bs_matrix := bs_matrix self |}
  end.

(** A forward pass of a built layer under an execution mode. *)
Definition SingleQubitOperationLayer_forward
    (mode : execution) (self : SQAttrs) (x : cmatrix) : result cmatrix :=
  attrs <- SingleQubitOperationLayer_read mode self ;;
  SingleQubitOperationLayer_call attrs x.

(** * [CPhaseLayer] *)

Definition CPhaseLayer_init (num_qubits parity : Z) (use_standard_cphase : bool)
  : result CPhaseLayer :=
  output_dim <- Py.pow2 num_qubits ;;
  Ok {| cp_num_qubits := num_qubits;
        cp_parity := parity;
        cp_use_standard_cphase := use_standard_cphase;
        cp_output_dim := output_dim;
        cp_built := None |}.

Definition get_cphase_gate (self : CPhaseLayer) : cmatrix :=
  if cp_use_standard_cphase self then CPHASE else CPHASE_MOD.

(** The list [ops] at the end of the branches of [CPhaseLayer.build]. *)
Definition CPhaseLayer_ops (self : CPhaseLayer) : list cmatrix :=
  let ops := [] in
  if (cp_parity self =? 0)%Z then
    let num_cphase := (cp_num_qubits self / 2)%Z in
    let ops := ops ++ Py.replicate num_cphase (get_cphase_gate self) in
    if (2 * num_cphase <? cp_num_qubits self)%Z
    then ops ++ [IDENTITY]
    else ops
  else
    let ops := ops ++ [IDENTITY] in
    let num_cphase := ((cp_num_qubits self - 1) / 2)%Z in
    let ops := ops ++ Py.replicate num_cphase (get_cphase_gate self) in
    if (2 * num_cphase + 1 <? cp_num_qubits self)%Z
    then ops ++ [IDENTITY]
    else ops.

Definition CPhaseLayer_build (self : CPhaseLayer) (input : cmatrix)
  : result CPAttrs :=
  assert (last_dim_eq input (cp_output_dim self)) ;;;
  let ops := CPhaseLayer_ops self in
  let transfer_matrix_np := tensors ops in
  Ok {| transfer_matrix_np := transfer_matrix_np;
        transfer_matrix := transfer_matrix_np |}.

Definition CPhaseLayer_call (self : CPAttrs) (x : cmatrix) : result cmatrix :=
  dot x (transfer_matrix self).

Definition CPhaseLayer_apply (self : CPhaseLayer) (x : cmatrix)
  : result (CPhaseLayer * cmatrix) :=
  attrs <- match cp_built self with
           | Some attrs => Ok attrs
           | None => CPhaseLayer_build self x
           end ;;
  out <- CPhaseLayer_call attrs x ;;
  Ok ({| cp_num_qubits := cp_num_qubits self;
         cp_parity := cp_parity self;
         cp_use_standard_cphase := cp_use_standard_cphase self;
         cp_output_dim := cp_output_dim self;
         cp_built := Some attrs |}, out).

(** * [QPGA] *)

(** One round of the loop of [QPGA.__init__]; the loop stops at the first
    exception. *)
Definition QPGA_init_step (num_qubits : Z) (use_standard_cphase : bool)
    (acc : result (list CPhaseLayer * list SingleQubitOperationLayer)) (i : Z)
  : result (list CPhaseLayer * list SingleQubitOperationLayer) :=
  acc <- acc ;;
  cphase_layer <- CPhaseLayer_init num_qubits (i mod 2) use_standard_cphase ;;
  single_qubit_layer <- SingleQubitOperationLayer_init num_qubits ;;
  Ok (fst acc ++ [cphase_layer], snd acc ++ [single_qubit_layer]).

Definition QPGA_init (num_qubits depth : Z)
    (complex_inputs complex_outputs use_standard_cphase : bool) : result QPGA :=
  input_dim <- Py.pow2 num_qubits ;;
  input_layer <- SingleQubitOperationLayer_init num_qubits ;;
  layers <- fold_left (QPGA_init_step num_qubits use_standard_cphase)
                      (Py.range depth) (Ok ([], [])) ;;
  Ok {| num_qubits := num_qubits;
        input_dim := input_dim;
        depth := depth;
        complex_inputs := complex_inputs;
        complex_outputs := complex_outputs;
        use_standard_cphase := use_standard_cphase;
        input_layer := input_layer;
        single_qubit_layers := snd layers;
        cphase_layers := fst layers |}.

(** The circuit with its layers replaced (they are mutated in place when
    a call builds them). *)
Definition with_layers (self : QPGA) (l0 : SingleQubitOperationLayer)
    (cps : list CPhaseLayer) (sqs : list SingleQubitOperationLayer) : QPGA :=
  {| num_qubits := num_qubits self;
     input_dim := input_dim self;
     depth := depth self;
     complex_inputs := complex_inputs self;
     complex_outputs := complex_outputs self;
     use_standard_cphase := use_standard_cphase self;
     input_layer := l0;
     single_qubit_layers := sqs;
     cphase_layers := cps |}.

(** The loop over [zip(self.cphase_layers, self.single_qubit_layers)].
    [initializers k] is what the initializer draws for single-qubit
    layer number [k], the input layer being number 0. *)
Fixpoint QPGA_call_loop (initializers : nat -> SQInit) (k : nat)
    (cps : list CPhaseLayer) (sqs : list SingleQubitOperationLayer)
    (x : cmatrix)
  : result (list CPhaseLayer * list SingleQubitOperationLayer * cmatrix) :=
  match cps, sqs with
  | cphase_layer :: cps', single_qubit_layer :: sqs' =>
      r1 <- CPhaseLayer_apply cphase_layer x ;;
      r2 <- SingleQubitOperationLayer_apply (initializers (S k))
              single_qubit_layer (snd r1) ;;
      r3 <- QPGA_call_loop initializers (S k) cps' sqs' (snd r2) ;;
      Ok (fst r1 :: fst (fst r3), fst r2 :: snd (fst r3), snd r3)
  | _, _ => Ok (cps, sqs, x)
  end.

Definition QPGA_call (initializers : nat -> SQInit) (self : QPGA)
    (inputs : tensor) : result (QPGA * tensor) :=
  let x := inputs in
  x <- (if negb (complex_inputs self) then lambda_k_to_tf_complex x else Ok x) ;;
  x <- expect_complex x ;;
  r0 <- SingleQubitOperationLayer_apply (initializers O) (input_layer self) x ;;
  r <- QPGA_call_loop initializers O (cphase_layers self)
         (single_qubit_layers self) (snd r0) ;;
  let x := ComplexTensor (snd r) in
  x <- (if negb (complex_outputs self) then lambda_tf_to_k_complex x else Ok x) ;;
  Ok (with_layers self (fst r0) (fst (fst r)) (snd (fst r)), x).

(** [l[i] = a] *)
Fixpoint set_nth {A : Type} (i : nat) (a : A) (l : list A) : list A :=
  match l, i with
  | [], _ => []
  | _ :: l', O => a :: l'
  | b :: l', S i' => b :: set_nth i' a l'
  end.

(** One stage of the pipeline, applied to the tensor that flows through
    it.  A stage that refers to a layer runs the layer object of the
    circuit [q], which the call may build (a layer is built at its first
    call here, as in [QPGA.call]).  [Input] only declares shape and dtype.
    A reference to a layer that does not exist does not arise from
    [as_sequential]. *)
Definition Sequential_stage (initializers : nat -> SQInit) (st : stage)
    (q : QPGA) (t : tensor) : result (QPGA * tensor) :=
  match st with
  | Input _ _ => Ok (q, t)
  | Lambda f => t' <- f t ;; Ok (q, t')
  | InputLayerRef =>
      x <- expect_complex t ;;
      r <- SingleQubitOperationLayer_apply (initializers O) (input_layer q) x ;;
      Ok (with_layers q (fst r) (cphase_layers q) (single_qubit_layers q),
          ComplexTensor (snd r))
  | CPhaseLayerRef i =>
      x <- expect_complex t ;;
      match nth_error (cphase_layers q) i with
      | None => Err TypeError
      | Some layer =>
          r <- CPhaseLayer_apply layer x ;;
          Ok (with_layers q (input_layer q)
                (set_nth i (fst r) (cphase_layers q)) (single_qubit_layers q),
              ComplexTensor (snd r))
      end
  | SingleQubitLayerRef i =>
      x <- expect_complex t ;;
      match nth_error (single_qubit_layers q) i with
      | None => Err TypeError
      | Some layer =>
          r <- SingleQubitOperationLayer_apply (initializers (S i)) layer x ;;
          Ok (with_layers q (input_layer q) (cphase_layers q)
                (set_nth i (fst r) (single_qubit_layers q)),
              ComplexTensor (snd r))
      end
  end.

Fixpoint Sequential_run (initializers : nat -> SQInit) (stages : list stage)
    (q : QPGA) (t : tensor) : result (QPGA * tensor) :=
  match stages with
  | [] => Ok (q, t)
  | st :: stages' =>
      r <- Sequential_stage initializers st q t ;;
      Sequential_run initializers stages' (fst r) (snd r)
  end.

(** Calling the model that [as_sequential] returned for the circuit [q]. *)
Definition Sequential_call (initializers : nat -> SQInit) (model : Sequential)
    (q : QPGA) (inputs : tensor) : result (QPGA * tensor) :=
  Sequential_run initializers (seq_layers model) q inputs.

(** * [QPGA.as_sequential] *)

(** A dimension of a Keras shape is a non-negative integer. *)
Definition dimension (d : Py.num) : result nat :=
  match d with
  | Py.Int z => require (0 <=? z)%Z ;;; Ok (Z.to_nat z)
  | Py.FloatPow2 _ => Err TypeError
  end.

(** The tensor that [Input(shape, dtype)] returns is symbolic: it has a
    shape and a dtype, and no values.  A layer called on it is built, and
    its operations check the shapes.  The symbolic tensor is modelled by a
    placeholder of its shape: a batch of one element whose entries are
    zero. *)
Definition Input_tensor (shape : list Py.num) (dt : dtype) : result tensor :=
  match dt, shape with
  | complex128, [d] =>
      d <- dimension d ;;
      Ok (ComplexTensor [repeat C0 d])
  | float64, [r; d] =>
      r <- dimension r ;;
      d <- dimension d ;;
      Ok (RealTensor [repeat (repeat 0%R d) r])
  | _, _ => Err TypeError
  end.

(** [Sequential.add], on the layers of the model and its symbolic output.
    [Input] gives the model its symbolic input.  A layer added to a model
    that has one is called on the symbolic output of the layers before it:
    the call builds the layer, if it is not built yet, and its result is
    the new symbolic output.  A layer added to a model without input is
    only stored. *)
Definition Sequential_add (initializers : nat -> SQInit) (st : stage)
    (s : QPGA * (list stage * option tensor))
  : result (QPGA * (list stage * option tensor)) :=
  let q := fst s in
  let layers := fst (snd s) in
  match st with
  | Input shape dt =>
      t <- Input_tensor shape dt ;;
      Ok (q, (layers ++ [st], Some t))
  | _ =>
      match snd (snd s) with
      | Some t =>
          r <- Sequential_stage initializers st q t ;;
          Ok (fst r, (layers ++ [st], Some (snd r)))
      | None => Ok (q, (layers ++ [st], None))
      end
  end.

(** The loop over [zip(self.cphase_layers, self.single_qubit_layers)];
    [k] is the position of the pair and [pairs] the number of pairs
    left. *)
Fixpoint as_sequential_loop (initializers : nat -> SQInit) (k pairs : nat)
    (s : QPGA * (list stage * option tensor))
  : result (QPGA * (list stage * option tensor)) :=
  match pairs with
  | O => Ok s
  | S pairs' =>
      s <- Sequential_add initializers (CPhaseLayerRef k) s ;;
      s <- Sequential_add initializers (SingleQubitLayerRef k) s ;;
      as_sequential_loop initializers (S k) pairs' s
  end.

(** [as_sequential] returns the model and leaves the layers of the
    circuit as the calls of [Sequential.add] built them. *)
Definition as_sequential (initializers : nat -> SQInit) (self : QPGA)
  : result (QPGA * Sequential) :=
  let model := (self, ([], None)) in
  model <- (if negb (complex_inputs self)
            then
              model <- Sequential_add initializers
                         (Input [Py.Int 2; input_dim self] float64) model ;;
              Sequential_add initializers (Lambda lambda_k_to_tf_complex) model
            else
              Sequential_add initializers
                (Input [input_dim self] complex128) model) ;;
  model <- Sequential_add initializers InputLayerRef model ;;
  model <- as_sequential_loop initializers O
             (Nat.min (length (cphase_layers self))
                      (length (single_qubit_layers self))) model ;;
  model <- (if negb (complex_outputs self)
            then Sequential_add initializers (Lambda lambda_tf_to_k_complex) model
            else Ok model) ;;
  Ok (fst model,
      {| seq_layers := fst (snd model);
         seq_num_qubits := num_qubits self;
         seq_complex_inputs := complex_inputs self;
         seq_complex_outputs := complex_outputs self |}).

(** ** Notions used to state the properties *)

(** [e^{i t}] as the builder writes it. *)
Definition phase (t : R) : C := tf_complex (cos t) (sin t).

(** The operator of one qubit: [diag(e^{i u}, e^{i v})]. *)
Definition qubit_phase_matrix (u v : R) : cmatrix :=
  [[phase u; C0]; [C0; phase v]].

(** The Kronecker product of a list of matrices, in the order of the
    list. *)
Definition kronecker_product (Ms : list cmatrix) : cmatrix :=
  fold_right kron [[C1]] Ms.

(** The phase-diagonal matrix of the spec for the phase vectors [u] and
    [v]: qubit [k] carries [diag(e^{i u_k}, e^{i v_k})]. *)
Definition phase_diagonal (u v : list R) : cmatrix :=
  kronecker_product (map (fun p => qubit_phase_matrix (fst p) (snd p)) (combine u v)).

Definition identity_matrix (d : nat) : cmatrix := tensor_diag (repeat C1 d).

Definition entry (M : cmatrix) (i j : nat) : C := nth j (nth i M []) C0.

(** [x . M1 . M2 ...], one product after the other. *)
Definition apply_matrices (X : cmatrix) (Ms : list cmatrix) : cmatrix :=
  fold_left matmul Ms X.

(** The product [M1 . M2 ...] of a list of [d x d] matrices. *)
Definition matrix_product (d : nat) (Ms : list cmatrix) : cmatrix :=
  fold_left matmul Ms (identity_matrix d).

(** The dimension [2^n] of the state space of [n] qubits. *)
Definition dim (n : Z) : nat := Z.to_nat (2 ^ n).

(** Hermitian product of two rows and squared norm of a row. *)
Definition inner (u v : cvector) : C :=
  fold_right Cadd C0 (map (fun p => Cmul (fst p) (Cconj (snd p))) (combine u v)).

Definition norm2 (x : cvector) : R := fold_right Rplus 0%R (map Cnorm2 x).

Definition norm (x : cvector) : R := sqrt (norm2 x).

(** The rows of [M] are orthonormal, that is, [M . M^dagger] is the
    identity: the Hermitian product of rows [i] and [j] is 1 for [i = j]
    and 0 otherwise (lemma [orthonormal_entries]). *)
Fixpoint orthonormal (M : cmatrix) : Prop :=
  match M with
  | [] => True
  | r :: M' => inner r r = C1 /\ Forall (fun s => inner r s = C0) M' /\ orthonormal M'
  end.

Definition unitary (d : nat) (M : cmatrix) : Prop :=
  has_shape d d M = true /\ orthonormal M.

(** The complex states that a tensor holds, one per batch row, whichever
    its encoding. *)
Definition states_of (t : tensor) : cmatrix :=
  match t with
  | RealTensor x => k_to_tf_complex x
  | ComplexTensor x => x
  end.

(** A well-formed input of a circuit on [n] qubits: complex rows of
    [2^n] amplitudes, or in the real encoding blocks of two rows of
    [2^n] numbers. *)
Definition well_formed_real (d : nat) (x : rtensor) : bool :=
  forallb (fun b => Nat.eqb (length b) 2 &&
                    forallb (fun r => Nat.eqb (length r) d) b) x.

Definition well_formed_input (complex_inputs : bool) (d : nat) (t : tensor) : bool :=
  match t with
  | RealTensor x => negb complex_inputs && well_formed_real d x
  | ComplexTensor x => complex_inputs && has_width d x
  end.

(** The encoding of the output that the flag asks for. *)
Definition encode_output (complex_outputs : bool) (x : cmatrix) : tensor :=
  if complex_outputs then ComplexTensor x else RealTensor (tf_to_k_complex x).

(** The weights that [build] creates from the draws of the initializer. *)
Definition drawn (n : Z) (f : nat -> R) : list R := map f (seq 0 (Z.to_nat n)).

(** The Kronecker power B of the beam-splitter constant. *)
Definition beam_splitter_power (n : Z) : cmatrix :=
  kronecker_product (repeat BS_MATRIX (Z.to_nat n)).

(** The transfer matrix of a Single-Qubit layer on [n] qubits with the
    phases [a], [b], [t], [p], following the spec: the product of
    phase-diagonal(a, b), B, phase-diagonal(t, 0), B and
    phase-diagonal(p, 0). *)
Definition single_qubit_factors (n : Z) (a b t p : list R) : list cmatrix :=
  [phase_diagonal a b;
   beam_splitter_power n;
   phase_diagonal t (zeros_like t);
   beam_splitter_power n;
   phase_diagonal p (zeros_like p)].

Definition single_qubit_matrix (n : Z) (a b t p : list R) : cmatrix :=
  matrix_product (dim n) (single_qubit_factors n a b t p).

(** The block list of the Entangling layer and its Kronecker product,
    following the spec. *)
Definition cphase_gate (use_standard_cphase : bool) : cmatrix :=
  if use_standard_cphase then CPHASE else CPHASE_MOD.

Definition entangling_blocks (n parity : Z) (use_standard_cphase : bool)
  : list cmatrix :=
  if (parity =? 0)%Z then
    repeat (cphase_gate use_standard_cphase) (Z.to_nat (n / 2))
    ++ (if Z.odd n then [IDENTITY] else [])
  else
    [IDENTITY]
    ++ repeat (cphase_gate use_standard_cphase) (Z.to_nat ((n - 1) / 2))
    ++ (if (1 + 2 * ((n - 1) / 2) <? n)%Z then [IDENTITY] else []).

Definition entangling_matrix (n parity : Z) (use_standard_cphase : bool)
  : cmatrix :=
  kronecker_product (entangling_blocks n parity use_standard_cphase).

(** The [2 * depth + 1] transfer matrices of a circuit, in order, when
    single-qubit layer [k] has the weights drawn by [initializers k]. *)
Definition layer_matrix_of_draw (n : Z) (i : SQInit) : cmatrix :=
  single_qubit_matrix n (drawn n (init_alphas i)) (drawn n (init_betas i))
                        (drawn n (init_thetas i)) (drawn n (init_phis i)).

Definition circuit_matrices (n depth : Z) (use_standard_cphase : bool)
    (initializers : nat -> SQInit) : list cmatrix :=
  layer_matrix_of_draw n (initializers O)
  :: flat_map (fun i => [entangling_matrix n (Z.of_nat i mod 2) use_standard_cphase;
                         layer_matrix_of_draw n (initializers (S i))])
              (seq 0 (Z.to_nat depth)).

(** The attributes of a Single-Qubit layer on [n] qubits whose matrices
    are derived from the phases [a], [b], [t], [p]. *)
Definition derived_attrs (n : Z) (a b t p : list R) : SQAttrs :=
  {| alphas := a;
     betas := b;
     thetas := t;
     phis := p;
     input_shifts := phase_diagonal a b;
     theta_shifts := phase_diagonal t (zeros_like t);
     phi_shifts := phase_diagonal p (zeros_like p);
     bs_matrix := beam_splitter_power n |}.

(** The attributes right after [build]: derived from the initial draws. *)
Definition initial_attrs (n : Z) (i : SQInit) : SQAttrs :=
  derived_attrs n (drawn n (init_alphas i)) (drawn n (init_betas i))
                  (drawn n (init_thetas i)) (drawn n (init_phis i)).

(** The five matrices that a forward pass of the layer multiplies by, in
    order, read from its attributes. *)
Definition stored_factors (a : SQAttrs) : list cmatrix :=
  [input_shifts a; bs_matrix a; theta_shifts a; bs_matrix a; phi_shifts a].

(** The stored matrices have the dimension of the state space. *)
Definition attrs_shaped (n : Z) (a : SQAttrs) : Prop :=
  Forall (fun M => has_shape (dim n) (dim n) M = true) (stored_factors a).

(** The stages that [as_sequential] adds for the circuit [self], in
    order. *)
Definition sequential_stages (self : QPGA) : list stage :=
  let layers := [] in
  let layers :=
    if negb (complex_inputs self)
    then layers ++ [Input [Py.Int 2; input_dim self] float64;
                    Lambda lambda_k_to_tf_complex]
    else layers ++ [Input [input_dim self] complex128] in
  let layers := layers ++ [InputLayerRef] in
  let layers :=
    layers ++ flat_map (fun i => [CPhaseLayerRef i; SingleQubitLayerRef i])
                (seq 0 (Nat.min (length (cphase_layers self))
                                (length (single_qubit_layers self)))) in
  if negb (complex_outputs self)
  then layers ++ [Lambda lambda_tf_to_k_complex]
  else layers.

(** The symbolic input of the model that [as_sequential] makes. *)
Definition sequential_input (self : QPGA) : result tensor :=
  if negb (complex_inputs self)
  then Input_tensor [Py.Int 2; input_dim self] float64
  else Input_tensor [input_dim self] complex128.

(** The layers as their constructors return them, when [2 ** n] has a
    value (see [SingleQubitOperationLayer_init_ok] and
    [CPhaseLayer_init_ok]). *)
Definition unbuilt_single (n : Z) : SingleQubitOperationLayer :=
  {| sq_num_qubits := n;
     sq_output_dim := Py.pow2_value n;
     sq_built := None |}.

Definition unbuilt_cphase (n parity : Z) (use_standard_cphase : bool) : CPhaseLayer :=
  {| cp_num_qubits := n;
     cp_parity := parity;
     cp_use_standard_cphase := use_standard_cphase;
     cp_output_dim := Py.pow2_value n;
     cp_built := None |}.

(** The layers once built, and the circuit whose layers are all built:
    single-qubit layer [k] holds the weights drawn by [initializers k]. *)
Definition built_single (n : Z) (i : SQInit) : SingleQubitOperationLayer :=
  {| sq_num_qubits := n;
     sq_output_dim := Py.pow2_value n;
     sq_built := Some (initial_attrs n i) |}.

Definition built_cphase (n parity : Z) (use_standard_cphase : bool) : CPhaseLayer :=
  {| cp_num_qubits := n;
     cp_parity := parity;
     cp_use_standard_cphase := use_standard_cphase;
     cp_output_dim := Py.pow2_value n;
     cp_built := Some {| transfer_matrix_np := entangling_matrix n parity use_standard_cphase;
                         transfer_matrix := entangling_matrix n parity use_standard_cphase |} |}.

Definition built_circuit (n depth : Z)
    (complex_inputs complex_outputs use_standard_cphase : bool)
    (initializers : nat -> SQInit) : QPGA :=
  {| num_qubits := n;
     input_dim := Py.pow2_value n;
     depth := depth;
     complex_inputs := complex_inputs;
     complex_outputs := complex_outputs;
     use_standard_cphase := use_standard_cphase;
     input_layer := built_single n (initializers O);
     single_qubit_layers :=
       map (fun i => built_single n (initializers (S i))) (seq 0 (Z.to_nat depth));
     cphase_layers :=
       map (fun i => built_cphase n (Z.of_nat i mod 2) use_standard_cphase)
           (seq 0 (Z.to_nat depth)) |}.

(** A layer as [__init__] made it or as a call left it. *)
Definition single_state (n : Z) (i : SQInit) (l : SingleQubitOperationLayer) : Prop :=
  l = unbuilt_single n \/ l = built_single n i.

Definition cphase_state (n parity : Z) (std : bool) (l : CPhaseLayer) : Prop :=
  l = unbuilt_cphase n parity std \/ l = built_cphase n parity std.

(** The states a circuit made by [QPGA(n, depth, ...)] goes through: each
    layer is as [__init__] made it or as a forward pass left it. *)
Definition circuit_state (n d : Z) (ci co std : bool)
    (initializers : nat -> SQInit) (q : QPGA) : Prop :=
  num_qubits q = n /\ input_dim q = Py.pow2_value n /\ depth q = d /\
  complex_inputs q = ci /\ complex_outputs q = co /\ use_standard_cphase q = std /\
  single_state n (initializers O) (input_layer q) /\
  Forall2 (fun i l => cphase_state n (Z.of_nat i mod 2) std l)
          (seq 0 (Z.to_nat d)) (cphase_layers q) /\
  Forall2 (fun i l => single_state n (initializers (S i)) l)
          (seq 0 (Z.to_nat d)) (single_qubit_layers q).

(** The inner product of the spec's antifidelity: the sum of
    [conj(true_k) * pred_k]. *)
Definition overlap (state_true state_pred : cvector) : C :=
  fold_right Cadd C0
    (map (fun ab => Cmul (Cconj (fst ab)) (snd ab)) (combine state_true state_pred)).

(** Basis state [i] of a [d]-dimensional space in the real encoding. *)
Definition basis_state (d i : nat) : list (list R) :=
  [map (fun k => if Nat.eqb k i then 1%R else 0%R) (seq 0 d); repeat 0%R d].

(** An instance of the gate constants: the 50:50 beam splitter
    [1/sqrt 2 * [[1, i], [i, 1]]], the controlled-phase gate
    [diag(1, 1, 1, -1)] and a second diagonal gate [diag(1, 1, -1, 1)].
    They serve to evaluate the model on concrete inputs. *)
Definition beam_splitter : cmatrix :=
  [[(/ sqrt 2, 0)%R; (0, / sqrt 2)%R];
   [(0, / sqrt 2)%R; (/ sqrt 2, 0)%R]].

Definition controlled_phase : cmatrix :=
  tensor_diag [C1; C1; C1; (-1, 0)%R].

Definition controlled_phase_mod : cmatrix :=
  tensor_diag [C1; C1; (-1, 0)%R; C1].

(** An initializer that draws the same value everywhere. *)
Definition constant_init (r : R) : SQInit :=
  {| init_alphas := fun _ => r;
     init_betas := fun _ => r;
     init_thetas := fun _ => r;
     init_phis := fun _ => r |}.

(** ** The other methods of the layers *)

(** A Keras config is a Python dict from names to values: a list of
    entries with distinct keys, in insertion order.  [d[k] = v] replaces
    the value of a key that is present and appends a new key;
    [d.update(e)] does this for each entry of [e] in turn. *)
Inductive config_value : Type :=
| ConfigInt (z : Z)
| ConfigBool (b : bool)
| ConfigOther (repr : String.string).

Definition config : Type := list (String.string * config_value).

Fixpoint dict_get (k : String.string) (d : config) : option config_value :=
  match d with
  | [] => None
  | (k', v) :: d' => if String.eqb k k' then Some v else dict_get k d'
  end.

Fixpoint dict_set (k : String.string) (v : config_value) (d : config) : config :=
  match d with
  | [] => [(k, v)]
  | (k', v') :: d' =>
      if String.eqb k k' then (k, v) :: d' else (k', v') :: dict_set k v d'
  end.

Definition dict_update (d e : config) : config :=
  fold_left (fun acc kv => dict_set (fst kv) (snd kv) acc) e d.

Definition dict_keys (d : config) : list String.string := map fst d.

(** [SingleQubitOperationLayer.get_config]; [base] is what
    [super().get_config()] returns. *)
Definition SingleQubitOperationLayer_get_config (base : config)
    (self : SingleQubitOperationLayer) : config :=
  let config := base in
  dict_update config [("num_qubits"%string, ConfigInt (sq_num_qubits self))].

(** [CPhaseLayer.get_config] *)
Definition CPhaseLayer_get_config (base : config) (self : CPhaseLayer) : config :=
  let config := base in
  dict_update config
    [("num_qubits"%string, ConfigInt (cp_num_qubits self));
     ("parity"%string, ConfigInt (cp_parity self));
     ("use_standard_cphase"%string, ConfigBool (cp_use_standard_cphase self))].

(** [compute_output_shape] of both layers; a shape is a tuple of
    integers. *)
Definition SingleQubitOperationLayer_compute_output_shape
    (self : SingleQubitOperationLayer) (input_shape : list Z) : list Z :=
  input_shape.

Definition CPhaseLayer_compute_output_shape
    (self : CPhaseLayer) (input_shape : list Z) : list Z :=
  input_shape.

(** The rank-2 tensor [X] has the shape [s]. *)
Definition shape_is (s : list Z) (X : cmatrix) : bool :=
  match s with
  | [b; w] => (Z.of_nat (length X) =? b)%Z
              && forallb (fun r => (Z.of_nat (length r) =? w)%Z) X
  | _ => false
  end.

(** What a forward pass may do to a layer: it keeps the constructor
    arguments, and it leaves a layer that was built as it was. *)
Definition same_single_layer (l l' : SingleQubitOperationLayer) : Prop :=
  sq_num_qubits l' = sq_num_qubits l /\
  sq_output_dim l' = sq_output_dim l /\
  (sq_built l <> None -> l' = l).

Definition same_cphase_layer (l l' : CPhaseLayer) : Prop :=
  cp_num_qubits l' = cp_num_qubits l /\
  cp_parity l' = cp_parity l /\
  cp_use_standard_cphase l' = cp_use_standard_cphase l /\
  cp_output_dim l' = cp_output_dim l /\
  (cp_built l <> None -> l' = l).

(** Entry by entry product and sum of two vectors. *)
Definition pointwise_mul (a b : cvector) : cvector :=
  map (fun p => Cmul (fst p) (snd p)) (combine a b).

Definition phases_add (u u' : list R) : list R :=
  map (fun p => (fst p + snd p)%R) (combine u u').

(** * Proofs *)

(** ** The constructors *)

Lemma float_limit_pos : (0 < Py.float_limit)%Z.
Proof. reflexivity. Qed.

Lemma pow2_ok n : (- Py.float_limit < n)%Z -> Py.pow2 n = Ok (Py.pow2_value n).
Proof.
  intros Hn. unfold Py.pow2, Py.pow2_value.
  destruct (0 <=? n)%Z; [reflexivity|].
  destruct (Z.ltb_spec (- Py.float_limit) n); [reflexivity|lia].
Qed.

Lemma pow2_overflow n : (n <= - Py.float_limit)%Z -> Py.pow2 n = Err OverflowError.
Proof.
  intros Hn. pose proof float_limit_pos. unfold Py.pow2.
  destruct (Z.leb_spec 0 n); [lia|].
  destruct (Z.ltb_spec (- Py.float_limit) n); [lia|reflexivity].
Qed.

Lemma pow2_cases n :
  (- Py.float_limit < n)%Z \/ (n <= - Py.float_limit)%Z.
Proof. lia. Qed.

Lemma SingleQubitOperationLayer_init_ok n :
  (- Py.float_limit < n)%Z -> SingleQubitOperationLayer_init n = Ok (unbuilt_single n).
Proof. intros Hn. unfold SingleQubitOperationLayer_init. now rewrite pow2_ok. Qed.

Lemma CPhaseLayer_init_ok n parity std :
  (- Py.float_limit < n)%Z ->
  CPhaseLayer_init n parity std = Ok (unbuilt_cphase n parity std).
Proof. intros Hn. unfold CPhaseLayer_init. now rewrite pow2_ok. Qed.

Ltac in_float_range := pose proof float_limit_pos; lia.

Lemma SingleQubitOperationLayer_init_inv n l :
  SingleQubitOperationLayer_init n = Ok l -> l = unbuilt_single n.
Proof.
  intros H. destruct (pow2_cases n) as [Hn|Hn].
  - rewrite SingleQubitOperationLayer_init_ok in H by assumption. now injection H.
  - unfold SingleQubitOperationLayer_init in H.
    rewrite pow2_overflow in H by assumption. discriminate.
Qed.

Lemma CPhaseLayer_init_inv n parity std l :
  CPhaseLayer_init n parity std = Ok l -> l = unbuilt_cphase n parity std.
Proof.
  intros H. destruct (pow2_cases n) as [Hn|Hn].
  - rewrite CPhaseLayer_init_ok in H by assumption. now injection H.
  - unfold CPhaseLayer_init in H.
    rewrite pow2_overflow in H by assumption. discriminate.
Qed.

Lemma pow2_value_nonneg n : (0 <= n)%Z -> Py.pow2_value n = Py.Int (2 ^ n).
Proof.
  intros Hn. unfold Py.pow2_value. destruct (Z.leb_spec 0 n); [reflexivity|lia].
Qed.

(** ** Complex arithmetic *)

Lemma C_eta (a : C) : a = (fst a, snd a).
Proof. destruct a; reflexivity. Qed.

Lemma Cadd_comm a b : Cadd a b = Cadd b a.
Proof. lca. Qed.

Lemma Cadd_assoc a b c : Cadd a (Cadd b c) = Cadd (Cadd a b) c.
Proof. lca. Qed.

Lemma Cadd_0_l a : Cadd C0 a = a.
Proof. rewrite (C_eta a) at 2. lca. Qed.

Lemma Cadd_0_r a : Cadd a C0 = a.
Proof. rewrite (C_eta a) at 2. lca. Qed.

Lemma Cmul_comm a b : Cmul a b = Cmul b a.
Proof. lca. Qed.

Lemma Cmul_assoc a b c : Cmul a (Cmul b c) = Cmul (Cmul a b) c.
Proof. lca. Qed.

Lemma Cmul_1_l a : Cmul C1 a = a.
Proof. rewrite (C_eta a) at 2. lca. Qed.

Lemma Cmul_1_r a : Cmul a C1 = a.
Proof. rewrite (C_eta a) at 2. lca. Qed.

Lemma Cmul_0_l a : Cmul C0 a = C0.
Proof. lca. Qed.

Lemma Cmul_0_r a : Cmul a C0 = C0.
Proof. lca. Qed.

Lemma Cmul_add_distr_l a b c : Cmul a (Cadd b c) = Cadd (Cmul a b) (Cmul a c).
Proof. lca. Qed.

Lemma Cmul_add_distr_r a b c : Cmul (Cadd a b) c = Cadd (Cmul a c) (Cmul b c).
Proof. lca. Qed.

Lemma Cconj_mul a b : Cconj (Cmul a b) = Cmul (Cconj a) (Cconj b).
Proof. lca. Qed.

Lemma Cconj_add a b : Cconj (Cadd a b) = Cadd (Cconj a) (Cconj b).
Proof. lca. Qed.

Lemma Cconj_0 : Cconj C0 = C0.
Proof. lca. Qed.

Lemma Cnorm2_nonneg a : (0 <= Cnorm2 a)%R.
Proof. unfold Cnorm2. nra. Qed.

Lemma Cnorm2_mul a b : Cnorm2 (Cmul a b) = (Cnorm2 a * Cnorm2 b)%R.
Proof. csimpl. ring. Qed.

Lemma Cabs_sqr a : (Cabs a ^ 2 = Cnorm2 a)%R.
Proof.
  unfold Cabs. simpl. rewrite Rmult_1_r.
  apply sqrt_sqrt, Cnorm2_nonneg.
Qed.

Lemma Cnorm2_phase t : Cnorm2 (phase t) = 1%R.
Proof.
  unfold phase. csimpl.
  pose proof (sin2_cos2 t) as H. unfold Rsqr in H. lra.
Qed.

Lemma Cabs_phase t : Cabs (phase t) = 1%R.
Proof. unfold Cabs. rewrite Cnorm2_phase. apply sqrt_1. Qed.

(** ** Rows: sums and multiples *)

Lemma vadd_nil_r u : vadd u [] = u.
Proof. destruct u; reflexivity. Qed.

Lemma vadd_comm u : forall v, vadd u v = vadd v u.
Proof.
  induction u as [|a u IH]; intros [|b v]; simpl; auto.
  now rewrite Cadd_comm, IH.
Qed.

Lemma vadd_assoc u : forall v w, vadd u (vadd v w) = vadd (vadd u v) w.
Proof.
  induction u as [|a u IH]; intros [|b v] [|c w]; simpl; auto.
  now rewrite Cadd_assoc, IH.
Qed.

Lemma vadd_length u : forall v, length (vadd u v) = Nat.max (length u) (length v).
Proof.
  induction u as [|a u IH]; intros [|b v]; simpl; auto.
Qed.

Lemma vscale_length c v : length (vscale c v) = length v.
Proof. apply length_map. Qed.

Lemma vscale_vadd c u : forall v,
  vscale c (vadd u v) = vadd (vscale c u) (vscale c v).
Proof.
  induction u as [|a u IH]; intros [|b v]; simpl; auto.
  now rewrite Cmul_add_distr_l, IH.
Qed.

Lemma vscale_Cadd a b v : vscale (Cadd a b) v = vadd (vscale a v) (vscale b v).
Proof.
  induction v as [|c v IH]; simpl; auto.
  now rewrite Cmul_add_distr_r, IH.
Qed.

Lemma vscale_vscale a b v : vscale a (vscale b v) = vscale (Cmul a b) v.
Proof.
  unfold vscale. rewrite map_map. apply map_ext. intros c. apply Cmul_assoc.
Qed.

Lemma vscale_1 v : vscale C1 v = v.
Proof.
  unfold vscale. rewrite <- (map_id v) at 2. apply map_ext, Cmul_1_l.
Qed.

Lemma vscale_zeros c n : vscale c (repeat C0 n) = repeat C0 n.
Proof.
  induction n as [|n IH]; simpl; auto.
  now rewrite Cmul_0_r, IH.
Qed.

Lemma vadd_zeros_l v : vadd (repeat C0 (length v)) v = v.
Proof.
  induction v as [|c v IH]; simpl; auto.
  now rewrite Cadd_0_l, IH.
Qed.

(** ** The product of a row and a matrix *)

Lemma vecmat_nil_r x : vecmat x [] = [].
Proof. destruct x; reflexivity. Qed.

Lemma vecmat_vadd u : forall v N,
  vecmat (vadd u v) N = vadd (vecmat u N) (vecmat v N).
Proof.
  induction u as [|a u IH]; intros v N.
  - reflexivity.
  - destruct v as [|b v]; [now rewrite !vadd_nil_r|].
    destruct N as [|r N]; simpl; auto.
    rewrite IH, vscale_Cadd, <- !vadd_assoc. f_equal.
    rewrite !vadd_assoc. f_equal. apply vadd_comm.
Qed.

Lemma vecmat_vscale c u : forall N,
  vecmat (vscale c u) N = vscale c (vecmat u N).
Proof.
  induction u as [|a u IH]; intros [|r N]; simpl; auto.
  now rewrite IH, vscale_vadd, vscale_vscale.
Qed.

Lemma vecmat_assoc x : forall M N,
  vecmat (vecmat x M) N = vecmat x (matmul M N).
Proof.
  induction x as [|c x IH]; intros [|r M] N; simpl; auto.
  now rewrite vecmat_vadd, vecmat_vscale, IH.
Qed.

Lemma matmul_assoc X M N : matmul (matmul X M) N = matmul X (matmul M N).
Proof.
  unfold matmul at 1 2 3. rewrite map_map. apply map_ext.
  intros x. apply vecmat_assoc.
Qed.

(** Entry [j] of the product of a row and a matrix is the sum over [i] of
    [x_i * M_ij]. *)
Lemma nth_vadd j : forall u v, nth j (vadd u v) C0 = Cadd (nth j u C0) (nth j v C0).
Proof.
  induction j as [|j IH]; intros [|a u] [|b v]; simpl;
    rewrite ?Cadd_0_l, ?Cadd_0_r; auto.
Qed.

Lemma nth_vscale c r : forall j, nth j (vscale c r) C0 = Cmul c (nth j r C0).
Proof.
  induction r as [|a r IH]; intros [|j]; simpl; rewrite ?Cmul_0_r; auto.
Qed.

Lemma vecmat_entry j : forall x M,
  nth j (vecmat x M) C0
  = fold_right Cadd C0
      (map (fun p => Cmul (fst p) (nth j (snd p) C0)) (combine x M)).
Proof.
  induction x as [|c x IH]; intros [|r M]; simpl; try (destruct j; reflexivity).
  now rewrite nth_vadd, nth_vscale, IH.
Qed.

(** ** Shapes *)

Lemma has_width_Forall d X :
  has_width d X = true <-> Forall (fun r => length r = d) X.
Proof.
  unfold has_width. rewrite forallb_forall, Forall_forall.
  split; intros H r Hr; specialize (H r Hr); now apply Nat.eqb_eq.
Qed.

Lemma has_shape_spec r d X :
  has_shape r d X = true <-> length X = r /\ Forall (fun row => length row = d) X.
Proof.
  unfold has_shape. rewrite andb_true_iff, Nat.eqb_eq, has_width_Forall.
  reflexivity.
Qed.

Lemma vecmat_length w : forall M x,
  Forall (fun r => length r = w) M ->
  length x = length M -> M <> [] ->
  length (vecmat x M) = w.
Proof.
  induction M as [|r M IH]; intros x HM Hx Hne; [congruence|].
  destruct x as [|c x]; [discriminate|]. simpl.
  inversion HM as [|? ? Hr HM']; subst.
  rewrite vadd_length, vscale_length.
  destruct M as [|r' M].
  - rewrite vecmat_nil_r. simpl. lia.
  - rewrite IH; auto; try discriminate. lia.
Qed.

Lemma matmul_has_width d w X M :
  has_width d X = true -> has_shape d w M = true -> (0 < d)%nat ->
  has_width w (matmul X M) = true.
Proof.
  rewrite has_shape_spec, !has_width_Forall. intros HX [HL HM] Hd.
  unfold matmul. rewrite Forall_map.
  eapply Forall_impl; [|exact HX]. simpl. intros x Hx.
  apply vecmat_length; auto; try congruence.
  destruct M; simpl in *; [lia|discriminate].
Qed.

Lemma matmul_length X M : length (matmul X M) = length X.
Proof. apply length_map. Qed.

Lemma dot_ok d w X M :
  has_width d X = true -> has_shape d w M = true ->
  dot X M = Ok (matmul X M).
Proof.
  intros HX HM. unfold dot.
  apply has_shape_spec in HM. destruct HM as [HL _].
  now rewrite HL, HX.
Qed.

(** ** Kronecker products *)

Lemma kron_row_cons c a b : kron_row (c :: a) b = vscale c b ++ kron_row a b.
Proof. reflexivity. Qed.

Lemma kron_row_length a b : length (kron_row a b) = (length a * length b)%nat.
Proof.
  induction a as [|c a IH]; simpl; auto.
  now rewrite length_app, vscale_length, IH.
Qed.

Lemma kron_cons r A B : kron (r :: A) B = map (kron_row r) B ++ kron A B.
Proof. reflexivity. Qed.

Lemma kron_length A B : length (kron A B) = (length A * length B)%nat.
Proof.
  induction A as [|r A IH]; [reflexivity|].
  rewrite kron_cons, length_app, length_map. rewrite IH. reflexivity.
Qed.

Lemma kron_width ca cb A B :
  Forall (fun r => length r = ca) A -> Forall (fun r => length r = cb) B ->
  Forall (fun r => length r = (ca * cb)%nat) (kron A B).
Proof.
  intros HA HB. induction HA as [|r A Hr HA IH]; simpl; [constructor|].
  apply Forall_app. split; auto.
  rewrite Forall_map. eapply Forall_impl; [|exact HB].
  simpl. intros b Hb. now rewrite kron_row_length, Hr, Hb.
Qed.

Lemma kron_has_shape m p A B :
  has_shape m m A = true -> has_shape p p B = true ->
  has_shape (m * p) (m * p) (kron A B) = true.
Proof.
  intros HA HB. apply has_shape_spec in HA, HB. apply has_shape_spec.
  destruct HA as [HA1 HA2], HB as [HB1 HB2]. split.
  - now rewrite kron_length, HA1, HB1.
  - now apply kron_width.
Qed.

(** Entry [(i*p + k, j*q + l)] of the Kronecker product of [A] with a
    [p x q] matrix [B] is [A_ij * B_kl]. *)
Lemma nth_flat_map_uniform {A B : Type} (f : A -> list B) (p : nat) (d : B) (da : A) :
  forall (l : list A) (i k : nat),
  (forall a, In a l -> length (f a) = p) ->
  (k < p)%nat -> (i < length l)%nat ->
  nth (i * p + k) (flat_map f l) d = nth k (f (nth i l da)) d.
Proof.
  induction l as [|a l IH]; intros i k Hf Hk Hi; [simpl in Hi; lia|].
  simpl flat_map. destruct i as [|i].
  - simpl. apply app_nth1. rewrite Hf; [exact Hk|now left].
  - rewrite app_nth2 by (rewrite Hf; [simpl; lia|now left]).
    rewrite Hf by now left.
    replace (S i * p + k - p)%nat with (i * p + k)%nat by (simpl; lia).
    simpl nth. apply IH; auto.
    + intros a' Ha'. apply Hf. now right.
    + simpl in Hi. lia.
Qed.

Lemma kron_row_entry a b j l :
  (j < length a)%nat -> (l < length b)%nat ->
  nth (j * length b + l) (kron_row a b) C0 = Cmul (nth j a C0) (nth l b C0).
Proof.
  intros Hj Hl. unfold kron_row.
  rewrite (@nth_flat_map_uniform _ _ (fun c => vscale c b) (length b) C0 C0); auto.
  - apply nth_vscale.
  - intros c _. apply vscale_length.
Qed.

Lemma kron_entry q A B i j k l :
  Forall (fun r => length r = q) B ->
  (i < length A)%nat -> (k < length B)%nat ->
  (j < length (nth i A []))%nat -> (l < q)%nat ->
  entry (kron A B) (i * length B + k) (j * q + l)
  = Cmul (entry A i j) (entry B k l).
Proof.
  intros HB Hi Hk Hj Hl. unfold entry, kron.
  rewrite (@nth_flat_map_uniform _ _ (fun a => map (kron_row a) B) (length B) [] []);
    auto.
  - rewrite (nth_indep _ [] (kron_row (nth i A []) [])) by now rewrite length_map.
    rewrite map_nth.
    assert (Hq : length (nth k B []) = q).
    { rewrite Forall_forall in HB. apply HB, nth_In, Hk. }
    rewrite <- Hq. apply kron_row_entry; auto. now rewrite Hq.
  - intros a _. apply length_map.
Qed.

Lemma vscale_app c u v : vscale c (u ++ v) = vscale c u ++ vscale c v.
Proof. apply map_app. Qed.

Lemma vscale_kron_row c a b : vscale c (kron_row a b) = kron_row (vscale c a) b.
Proof.
  induction a as [|x a IH]; simpl; auto.
  now rewrite vscale_app, vscale_vscale, IH.
Qed.

Lemma kron_row_app a a' b : kron_row (a ++ a') b = kron_row a b ++ kron_row a' b.
Proof. unfold kron_row. apply flat_map_app. Qed.

Lemma kron_row_assoc a b c :
  kron_row (kron_row a b) c = kron_row a (kron_row b c).
Proof.
  induction a as [|x a IH]; simpl; auto.
  now rewrite kron_row_app, IH, vscale_kron_row.
Qed.

Lemma kron_app A A' B : kron (A ++ A') B = kron A B ++ kron A' B.
Proof. unfold kron. apply flat_map_app. Qed.

Lemma kron_assoc A B D : kron (kron A B) D = kron A (kron B D).
Proof.
  induction A as [|a A IH]; simpl; auto.
  rewrite kron_app, IH. f_equal.
  clear IH. induction B as [|b B IH]; simpl; auto.
  rewrite map_app, IH, map_map. f_equal.
  apply map_ext. intros d. apply kron_row_assoc.
Qed.

Lemma kron_row_1_r a : kron_row a [C1] = a.
Proof.
  induction a as [|x a IH]; simpl; auto.
  now rewrite Cmul_1_r, IH.
Qed.

Lemma kron_1_r A : kron A [[C1]] = A.
Proof.
  induction A as [|a A IH]; simpl; auto.
  now rewrite kron_row_1_r, IH.
Qed.

Lemma fold_left_kron rest : forall A,
  fold_left kron rest A = kron A (kronecker_product rest).
Proof.
  induction rest as [|B rest IH]; intros A; simpl.
  - now rewrite kron_1_r.
  - now rewrite IH, kron_assoc.
Qed.

Lemma tensors_kronecker_product ops : tensors ops = kronecker_product ops.
Proof.
  destruct ops as [|A rest]; simpl; auto. apply fold_left_kron.
Qed.

Lemma to_dense_kronecker_product ops :
  ops <> [] -> to_dense {| operators := ops |} = kronecker_product ops.
Proof.
  destruct ops as [|A rest]; [congruence|]. intros _.
  unfold to_dense. simpl. apply fold_left_kron.
Qed.

Lemma kronecker_product_app Ms Ns :
  kronecker_product (Ms ++ Ns) = kron (kronecker_product Ms) (kronecker_product Ns).
Proof.
  induction Ms as [|M Ms IH]; simpl.
  - unfold kron. simpl. rewrite app_nil_r.
    rewrite <- (map_id (kronecker_product Ns)) at 1.
    apply map_ext. intros b. simpl. rewrite app_nil_r. symmetry. apply vscale_1.
  - now rewrite IH, kron_assoc.
Qed.

(** ** Diagonal matrices *)

Lemma tensor_diag_length v : length (tensor_diag v) = length v.
Proof.
  induction v as [|c v IH]; simpl; auto.
  now rewrite length_map, IH.
Qed.

Lemma tensor_diag_width v : Forall (fun r => length r = length v) (tensor_diag v).
Proof.
  induction v as [|c v IH]; simpl; constructor.
  - simpl. now rewrite repeat_length.
  - rewrite Forall_map. eapply Forall_impl; [|exact IH].
    simpl. intros r Hr. now rewrite Hr.
Qed.

Lemma tensor_diag_has_shape v :
  has_shape (length v) (length v) (tensor_diag v) = true.
Proof.
  apply has_shape_spec. split; [apply tensor_diag_length|apply tensor_diag_width].
Qed.

Lemma tensor_diag_app a b :
  tensor_diag (a ++ b) =
  map (fun r => r ++ repeat C0 (length b)) (tensor_diag a)
  ++ map (fun r => repeat C0 (length a) ++ r) (tensor_diag b).
Proof.
  induction a as [|c a IH]; simpl.
  - rewrite <- (map_id (tensor_diag b)) at 1. reflexivity.
  - rewrite length_app, repeat_app. f_equal.
    rewrite IH, map_app, !map_map. reflexivity.
Qed.

Lemma tensor_diag_vscale c v :
  map (vscale c) (tensor_diag v) = tensor_diag (vscale c v).
Proof.
  induction v as [|x v IH]; simpl; auto.
  rewrite vscale_zeros, vscale_length. f_equal.
  rewrite <- IH, !map_map. apply map_ext.
  intros r. simpl. now rewrite Cmul_0_r.
Qed.

Lemma vscale_0 b : vscale C0 b = repeat C0 (length b).
Proof.
  induction b as [|x b IH]; simpl; auto.
  now rewrite Cmul_0_l, IH.
Qed.

Lemma kron_row_zeros k b :
  kron_row (repeat C0 k) b = repeat C0 (k * length b).
Proof.
  induction k as [|k IH]; simpl; auto.
  now rewrite IH, vscale_0, repeat_app.
Qed.

Lemma kron_cons_zero_column w M D :
  Forall (fun r => length r = w) D ->
  kron (map (cons C0) M) D = map (fun r => repeat C0 w ++ r) (kron M D).
Proof.
  intros HD. induction M as [|a M IH]; [reflexivity|].
  simpl map. rewrite !kron_cons, IH, map_app, map_map. f_equal.
  apply map_ext_in. intros b Hb.
  rewrite kron_row_cons, vscale_0.
  rewrite Forall_forall in HD. now rewrite (HD b Hb).
Qed.

Lemma kron_tensor_diag u v :
  kron (tensor_diag u) (tensor_diag v) = tensor_diag (kron_row u v).
Proof.
  induction u as [|c u IH]; [reflexivity|].
  rewrite kron_row_cons, tensor_diag_app.
  change (tensor_diag (c :: u))
    with ((c :: repeat C0 (length u)) :: map (cons C0) (tensor_diag u)).
  rewrite kron_cons.
  rewrite (kron_cons_zero_column (w := length v)) by apply tensor_diag_width.
  rewrite IH, vscale_length. f_equal.
  rewrite <- tensor_diag_vscale, map_map.
  apply map_ext_in. intros r Hr.
  rewrite kron_row_cons, kron_row_zeros, kron_row_length. do 3 f_equal.
  pose proof (tensor_diag_width v) as HW. rewrite Forall_forall in HW. auto.
Qed.

Lemma kronecker_product_tensor_diag vs :
  kronecker_product (map tensor_diag vs) = tensor_diag (fold_right kron_row [C1] vs).
Proof.
  induction vs as [|v vs IH]; simpl; auto.
  now rewrite IH, kron_tensor_diag.
Qed.

Lemma entry_tensor_diag v : forall i j,
  entry (tensor_diag v) i j = if Nat.eqb i j then nth i v C0 else C0.
Proof.
  unfold entry. induction v as [|c v IH]; intros i j.
  - destruct i, j; simpl; try reflexivity; now destruct (Nat.eqb _ _).
  - destruct i as [|i]; simpl.
    + destruct j as [|j]; simpl; auto.
      destruct (nth_in_or_default j (repeat C0 (length v)) C0) as [H|H]; auto.
      now apply repeat_spec in H.
    + destruct (Nat.ltb_spec i (length (tensor_diag v))) as [Hi|Hi].
      * rewrite (nth_indep _ [] (C0 :: []))
          by now rewrite length_map.
        rewrite (map_nth (cons C0)).
        destruct j as [|j]; simpl.
        -- reflexivity.
        -- apply IH.
      * rewrite (nth_overflow (map (cons C0) (tensor_diag v)))
          by now rewrite length_map.
        rewrite tensor_diag_length in Hi.
        rewrite (nth_overflow v) by lia.
        destruct j as [|j]; simpl; [reflexivity|].
        now destruct (Nat.eqb i j).
Qed.

(** The product of a row with a diagonal matrix multiplies entry by
    entry. *)
Lemma vecmat_cons_zero_column x M :
  x <> [] -> M <> [] ->
  vecmat x (map (cons C0) M) = C0 :: vecmat x M.
Proof.
  revert M. induction x as [|c x IH]; intros M Hx HM; [congruence|].
  destruct M as [|r M]; [congruence|]. simpl.
  destruct x as [|c' x].
  - simpl. rewrite !vadd_nil_r. now rewrite Cmul_0_r.
  - destruct M as [|r' M].
    + simpl. rewrite !vadd_nil_r. now rewrite Cmul_0_r.
    + rewrite IH by discriminate.
      simpl. now rewrite Cmul_0_r, Cadd_0_l.
Qed.

Lemma vecmat_tensor_diag v : forall x,
  length x = length v ->
  vecmat x (tensor_diag v) = map (fun p => Cmul (fst p) (snd p)) (combine x v).
Proof.
  induction v as [|e v IH]; intros [|c x] Hx; try discriminate; auto.
  simpl in Hx. injection Hx as Hx. simpl.
  destruct v as [|e' v].
  - destruct x; [|discriminate]. reflexivity.
  - destruct x as [|c' x]; [discriminate|].
    rewrite vecmat_cons_zero_column by (simpl; discriminate).
    rewrite IH by assumption.
    cbn [vadd]. rewrite Cadd_0_r. f_equal.
    rewrite vscale_zeros.
    set (t := map _ _).
    replace (length (e' :: v)) with (length t).
    + apply vadd_zeros_l.
    + unfold t. rewrite length_map, length_combine. rewrite Hx. apply Nat.min_id.
Qed.

Lemma vecmat_identity x : vecmat x (identity_matrix (length x)) = x.
Proof.
  unfold identity_matrix. rewrite vecmat_tensor_diag by now rewrite repeat_length.
  induction x as [|c x IH]; simpl; auto.
  now rewrite Cmul_1_r, IH.
Qed.

Lemma matmul_identity d X :
  has_width d X = true -> matmul X (identity_matrix d) = X.
Proof.
  rewrite has_width_Forall. intros H. unfold matmul.
  rewrite <- (map_id X) at 2. apply map_ext_in. intros x Hx.
  rewrite Forall_forall in H. rewrite <- (H x Hx). apply vecmat_identity.
Qed.

Lemma identity_matrix_has_shape d : has_shape d d (identity_matrix d) = true.
Proof.
  unfold identity_matrix.
  pose proof (tensor_diag_has_shape (repeat C1 d)) as H.
  now rewrite repeat_length in H.
Qed.

(** ** Hermitian products and norms *)

Lemma inner_nil_r u : inner u [] = C0.
Proof. unfold inner. now rewrite combine_nil. Qed.

Lemma inner_cons a u b v :
  inner (a :: u) (b :: v) = Cadd (Cmul a (Cconj b)) (inner u v).
Proof. reflexivity. Qed.

Lemma inner_vadd_l u : forall v w,
  inner (vadd u v) w = Cadd (inner u w) (inner v w).
Proof.
  induction u as [|a u IH]; intros v w.
  - simpl. unfold inner at 2. simpl. now rewrite Cadd_0_l.
  - destruct v as [|b v].
    + rewrite vadd_nil_r. unfold inner at 3. simpl. now rewrite Cadd_0_r.
    + destruct w as [|c w].
      * rewrite !inner_nil_r. now rewrite Cadd_0_l.
      * simpl vadd. rewrite !inner_cons, IH. lca.
Qed.

Lemma inner_vscale_l c u : forall w,
  inner (vscale c u) w = Cmul c (inner u w).
Proof.
  induction u as [|a u IH]; intros [|b w].
  - unfold inner. simpl. now rewrite Cmul_0_r.
  - unfold inner. simpl. now rewrite Cmul_0_r.
  - rewrite !inner_nil_r. now rewrite Cmul_0_r.
  - simpl vscale. rewrite !inner_cons, IH. lca.
Qed.

Lemma inner_conj_sym u : forall v, inner v u = Cconj (inner u v).
Proof.
  induction u as [|a u IH]; intros [|b v].
  - unfold inner. simpl. now rewrite Cconj_0.
  - rewrite inner_nil_r. unfold inner. simpl. now rewrite Cconj_0.
  - rewrite inner_nil_r. unfold inner. simpl. now rewrite Cconj_0.
  - rewrite !inner_cons, IH. lca.
Qed.

Lemma inner_zero_sym u v : inner u v = C0 -> inner v u = C0.
Proof. intros H. now rewrite inner_conj_sym, H, Cconj_0. Qed.

Lemma inner_vadd_r w u v :
  inner w (vadd u v) = Cadd (inner w u) (inner w v).
Proof.
  rewrite inner_conj_sym, inner_vadd_l, Cconj_add.
  now rewrite <- !inner_conj_sym.
Qed.

Lemma inner_vscale_r c u w :
  inner w (vscale c u) = Cmul (Cconj c) (inner w u).
Proof.
  rewrite inner_conj_sym, inner_vscale_l, Cconj_mul.
  now rewrite <- inner_conj_sym.
Qed.

Lemma inner_self x : inner x x = (norm2 x, 0%R).
Proof.
  induction x as [|a x IH]; [reflexivity|].
  rewrite inner_cons, IH. unfold norm2. simpl. lca.
Qed.

Lemma inner_app u1 : forall v1 u2 v2,
  length u1 = length v1 ->
  inner (u1 ++ u2) (v1 ++ v2) = Cadd (inner u1 v1) (inner u2 v2).
Proof.
  induction u1 as [|a u1 IH]; intros [|b v1] u2 v2 H; try discriminate.
  - simpl. unfold inner at 2. simpl. now rewrite Cadd_0_l.
  - simpl app. rewrite !inner_cons, IH by (simpl in H; lia).
    apply Cadd_assoc.
Qed.

Lemma inner_kron_row b b' :
  length b = length b' ->
  forall a a',
  inner (kron_row a b) (kron_row a' b') = Cmul (inner a a') (inner b b').
Proof.
  intros Hb. induction a as [|x a IH]; intros [|x' a'].
  - unfold inner at 1 2. simpl. now rewrite Cmul_0_l.
  - unfold inner at 1 2. simpl. now rewrite Cmul_0_l.
  - simpl kron_row at 2. rewrite !inner_nil_r. now rewrite Cmul_0_l.
  - rewrite !kron_row_cons, inner_app by now rewrite !vscale_length.
    rewrite IH, inner_cons, inner_vscale_l, inner_vscale_r. lca.
Qed.

Lemma norm2_nonneg x : (0 <= norm2 x)%R.
Proof.
  unfold norm2. induction x as [|a x IH]; simpl; [lra|].
  pose proof (Cnorm2_nonneg a). lra.
Qed.

(** ** Matrices with orthonormal rows *)

Lemma orthonormal_app M N :
  orthonormal (M ++ N) <->
  orthonormal M /\ orthonormal N /\
  Forall (fun r => Forall (fun s => inner r s = C0) N) M.
Proof.
  induction M as [|r M IH]; simpl.
  - intuition.
  - rewrite IH, Forall_app. split.
    + intros (H1 & (H2 & H3) & H4 & H5 & H6). repeat split; auto.
    + intros ((H1 & H2 & H3) & H4 & H5).
      inversion H5; subst. repeat split; auto.
Qed.

(** Entry [(i, j)] of [M . M^dagger] is the Hermitian product of rows [i]
    and [j]: for orthonormal rows it is 1 on the diagonal and 0 off it. *)
Lemma orthonormal_entries M : forall i j,
  orthonormal M -> (i < length M)%nat -> (j < length M)%nat ->
  inner (nth i M []) (nth j M []) = if Nat.eqb i j then C1 else C0.
Proof.
  induction M as [|r M IH]; intros i j HM Hi Hj; [simpl in Hi; lia|].
  simpl in HM. destruct HM as (Hr & Hrs & HM).
  rewrite Forall_forall in Hrs. simpl in Hi, Hj.
  destruct i as [|i], j as [|j]; simpl.
  - exact Hr.
  - apply Hrs, nth_In. lia.
  - apply inner_zero_sym, Hrs, nth_In. lia.
  - apply IH; auto; lia.
Qed.

Lemma inner_vecmat_orthogonal r M : forall y,
  Forall (fun s => inner r s = C0) M -> inner r (vecmat y M) = C0.
Proof.
  induction M as [|s M IH]; intros y H.
  - now rewrite vecmat_nil_r, inner_nil_r.
  - destruct y as [|d y]; [apply inner_nil_r|].
    inversion H as [|? ? Hs HM]; subst. simpl.
    rewrite inner_vadd_r, inner_vscale_r, Hs, IH by assumption. lca.
Qed.

(** Right multiplication by a matrix with orthonormal rows keeps Hermitian
    products, hence norms. *)
Lemma inner_vecmat_orthonormal M : forall x y,
  orthonormal M -> length x = length M -> length y = length M ->
  inner (vecmat x M) (vecmat y M) = inner x y.
Proof.
  induction M as [|r M IH]; intros x y HM Hx Hy.
  - destruct x, y; try discriminate. reflexivity.
  - destruct x as [|c x], y as [|d y]; try discriminate.
    simpl in HM. destruct HM as (Hr & Hrs & HM).
    simpl in Hx, Hy. simpl vecmat.
    rewrite inner_vadd_l, !inner_vadd_r.
    rewrite inner_vscale_l, !inner_vscale_r, Hr.
    rewrite inner_vscale_l.
    rewrite (inner_vecmat_orthogonal _ y Hrs).
    rewrite (inner_zero_sym _ _ (inner_vecmat_orthogonal _ x Hrs)).
    rewrite IH by (auto; lia).
    rewrite inner_cons. lca.
Qed.

Lemma norm2_vecmat_orthonormal M x :
  orthonormal M -> length x = length M ->
  norm2 (vecmat x M) = norm2 x.
Proof.
  intros HM Hx.
  pose proof (inner_vecmat_orthonormal M x x HM Hx Hx) as H.
  rewrite !inner_self in H. now injection H.
Qed.

Lemma norm2_vecmat_unitary d M x :
  unitary d M -> length x = d -> norm2 (vecmat x M) = norm2 x.
Proof.
  intros [HS HM] Hx. apply has_shape_spec in HS.
  apply norm2_vecmat_orthonormal; auto. lia.
Qed.

Lemma orthonormal_map_kron_row w a B :
  inner a a = C1 -> Forall (fun r => length r = w) B -> orthonormal B ->
  orthonormal (map (kron_row a) B).
Proof.
  intros Ha. induction B as [|b B IH]; intros HW HB; simpl; auto.
  inversion HW as [|? ? Hb HW']; subst.
  destruct HB as (Hbb & Hbs & HB). repeat split; auto.
  - rewrite inner_kron_row by reflexivity. rewrite Ha, Hbb. lca.
  - rewrite Forall_map. rewrite Forall_forall in *.
    intros s Hs. rewrite inner_kron_row by (symmetry; auto).
    rewrite (Hbs s Hs). lca.
Qed.

Lemma orthonormal_kron w A B :
  orthonormal A -> orthonormal B -> Forall (fun r => length r = w) B ->
  orthonormal (kron A B).
Proof.
  intros HA HB HW. induction A as [|a A IH]; [exact I|].
  simpl in HA. destruct HA as (Ha & Has & HA).
  rewrite kron_cons. apply orthonormal_app. repeat split.
  - now apply orthonormal_map_kron_row with (w := w).
  - auto.
  - rewrite Forall_map. rewrite Forall_forall in *. intros b Hb.
    apply Forall_forall. intros s Hs.
    unfold kron in Hs. apply in_flat_map in Hs. destruct Hs as (a' & Ha' & Hs).
    apply in_map_iff in Hs. destruct Hs as (b' & <- & Hb').
    rewrite inner_kron_row by (rewrite (HW b Hb); symmetry; auto).
    rewrite (Has a' Ha'). lca.
Qed.

Lemma unitary_kron m p A B :
  unitary m A -> unitary p B -> unitary (m * p) (kron A B).
Proof.
  intros [SA HA] [SB HB]. split.
  - now apply kron_has_shape.
  - apply has_shape_spec in SB. destruct SB as [_ SB].
    now apply orthonormal_kron with (w := p).
Qed.

Lemma unitary_1 : unitary 1 [[C1]].
Proof.
  split; [reflexivity|]. simpl. repeat split; auto.
  unfold inner. simpl. lca.
Qed.

Lemma unitary_kronecker_product ds Ms :
  Forall2 unitary ds Ms ->
  unitary (fold_right Nat.mul 1%nat ds) (kronecker_product Ms).
Proof.
  induction 1 as [|d M ds Ms HM _ IH]; simpl.
  - apply unitary_1.
  - now apply unitary_kron.
Qed.

Lemma orthonormal_matmul M N :
  orthonormal M -> orthonormal N ->
  Forall (fun r => length r = length N) M ->
  orthonormal (matmul M N).
Proof.
  intros HM HN HW. induction M as [|r M IH]; [exact I|].
  simpl in HM. destruct HM as (Hr & Hrs & HM).
  inversion HW as [|? ? Hlen HW']; subst.
  change (matmul (r :: M) N) with (vecmat r N :: matmul M N).
  simpl orthonormal. split; [|split].
  - now rewrite inner_vecmat_orthonormal.
  - unfold matmul. rewrite Forall_map. rewrite Forall_forall in *. intros s Hs.
    rewrite inner_vecmat_orthonormal; auto.
  - auto.
Qed.

Lemma unitary_matmul d M N :
  (0 < d)%nat -> unitary d M -> unitary d N -> unitary d (matmul M N).
Proof.
  intros Hd [SM HM] [SN HN]. split.
  - apply has_shape_spec. split.
    + rewrite matmul_length. now apply has_shape_spec in SM.
    + apply has_width_Forall. apply matmul_has_width with (d := d); auto.
      apply has_shape_spec in SM. apply has_width_Forall. tauto.
  - apply orthonormal_matmul; auto.
    apply has_shape_spec in SM, SN.
    destruct SM as [_ SM], SN as [SN _]. now rewrite SN.
Qed.

(** ** The phase-diagonal builder *)

Lemma combine_map_map {A B : Type} (f : A -> B) (u v : list A) :
  combine (map f u) (map f v) = map (fun p => (f (fst p), f (snd p))) (combine u v).
Proof.
  revert v. induction u as [|a u IH]; intros [|b v]; simpl; auto.
  now rewrite IH.
Qed.

Lemma single_qubit_ops_eq u v :
  map tensor_diag
    (map (fun p : C * C => [fst p; snd p])
         (combine (map (fun p => tf_complex (cos p) (sin p)) u)
                  (map (fun p => tf_complex (cos p) (sin p)) v)))
  = map tensor_diag (map (fun p => [phase (fst p); phase (snd p)]) (combine u v)).
Proof. now rewrite combine_map_map, !map_map. Qed.

Lemma phase_shifts_ok u v :
  u <> [] -> length u = length v ->
  exists op,
    phase_shifts_to_tensor_product_space u v = Ok op /\
    to_dense op = phase_diagonal u v.
Proof.
  intros Hu Hlen. unfold phase_shifts_to_tensor_product_space, transpose_pair.
  rewrite !length_map, Hlen, Nat.eqb_refl. cbn [Py.bind Py.require].
  rewrite single_qubit_ops_eq, map_map.
  change (map (fun x : R * R => tensor_diag [phase (fst x); phase (snd x)])
              (combine u v))
    with (map (fun p => qubit_phase_matrix (fst p) (snd p)) (combine u v)).
  fold (phase_diagonal u v).
  unfold phase_diagonal.
  set (ops := map _ (combine u v)).
  assert (Hops : ops <> []).
  { unfold ops. destruct u; [congruence|]. destruct v; discriminate. }
  destruct ops as [|A ops'] eqn:E; [congruence|].
  simpl LinearOperatorKronecker_init.
  eexists. split; [reflexivity|].
  now rewrite to_dense_kronecker_product.
Qed.

Lemma phase_diagonal_tensor_diag u v :
  phase_diagonal u v =
  tensor_diag (fold_right kron_row [C1]
                 (map (fun p => [phase (fst p); phase (snd p)]) (combine u v))).
Proof.
  unfold phase_diagonal. rewrite <- kronecker_product_tensor_diag.
  now rewrite map_map.
Qed.

Lemma pow2_length_kron_rows (vs : list (list C)) :
  Forall (fun r => length r = 2%nat) vs ->
  length (fold_right kron_row [C1] vs) = (2 ^ length vs)%nat.
Proof.
  induction 1 as [|r vs Hr _ IH]; simpl; auto.
  rewrite kron_row_length, Hr, IH. lia.
Qed.

Lemma unit_modulus_kron_rows (vs : list (list C)) :
  Forall (Forall (fun z => Cnorm2 z = 1%R)) vs ->
  Forall (fun z => Cnorm2 z = 1%R) (fold_right kron_row [C1] vs).
Proof.
  induction 1 as [|r vs Hr _ IH]; simpl.
  - constructor; [csimpl; ring|constructor].
  - induction Hr as [|x r Hx _ IHr]; simpl; [constructor|].
    apply Forall_app. split; auto.
    unfold vscale. rewrite Forall_map.
    eapply Forall_impl; [|exact IH]. simpl. intros z Hz.
    rewrite Cnorm2_mul, Hx, Hz. ring.
Qed.

Lemma Cabs_of_norm2_1 z : Cnorm2 z = 1%R -> Cabs z = 1%R.
Proof. intros H. unfold Cabs. rewrite H. apply sqrt_1. Qed.

(** C4.  For phase vectors [u] and [v] of one length [n >= 1], whatever
    their entries, the builder returns (it has no failure) the Kronecker
    product over the qubits [0 .. n-1], in this order, of the matrices
    [diag(cos u_k + i sin u_k, cos v_k + i sin v_k)].  The dense matrix has
    shape [2^n x 2^n]; it is the diagonal matrix of a vector [d] of [2^n]
    numbers of modulus 1: entries off the diagonal are zero and entries on
    the diagonal have modulus 1. *)
Theorem phase_diagonal_builder (n : nat) (u v : list R) :
  (1 <= n)%nat -> length u = n -> length v = n ->
  exists op d,
    phase_shifts_to_tensor_product_space u v = Ok op /\
    to_dense op =
      kronecker_product
        (map (fun p => qubit_phase_matrix (fst p) (snd p)) (combine u v)) /\
    has_shape (2 ^ n) (2 ^ n) (to_dense op) = true /\
    to_dense op = tensor_diag d /\
    length d = (2 ^ n)%nat /\
    Forall (fun z => Cabs z = 1%R) d /\
    (forall i j, i <> j -> entry (to_dense op) i j = C0) /\
    (forall i, (i < 2 ^ n)%nat -> Cabs (entry (to_dense op) i i) = 1%R).
Proof.
  intros Hn Hu Hv.
  destruct (@phase_shifts_ok u v) as (op & Hop & Hd).
  { destruct u; simpl in *; [lia|discriminate]. }
  { congruence. }
  set (rows := map (fun p => [phase (fst p); phase (snd p)]) (combine u v)).
  assert (Hrows : length rows = n).
  { unfold rows. rewrite length_map, length_combine. lia. }
  assert (Hlen : length (fold_right kron_row [C1] rows) = (2 ^ n)%nat).
  { rewrite pow2_length_kron_rows; [now rewrite Hrows|].
    unfold rows. rewrite Forall_map. apply Forall_forall. reflexivity. }
  assert (Hmod : Forall (fun z => Cnorm2 z = 1%R) (fold_right kron_row [C1] rows)).
  { apply unit_modulus_kron_rows. unfold rows. rewrite Forall_map.
    apply Forall_forall. intros p _.
    repeat constructor; apply Cnorm2_phase. }
  assert (Hdiag : to_dense op = tensor_diag (fold_right kron_row [C1] rows)).
  { rewrite Hd. apply phase_diagonal_tensor_diag. }
  exists op, (fold_right kron_row [C1] rows).
  split; [exact Hop|]. split; [exact Hd|]. split.
  { rewrite Hdiag, <- Hlen. apply tensor_diag_has_shape. }
  split; [exact Hdiag|]. split; [exact Hlen|]. split.
  { eapply Forall_impl; [|exact Hmod]. apply Cabs_of_norm2_1. }
  split.
  - intros i j Hij. rewrite Hdiag, entry_tensor_diag.
    destruct (Nat.eqb_spec i j); [contradiction|reflexivity].
  - intros i Hi. rewrite Hdiag, entry_tensor_diag, Nat.eqb_refl.
    apply Cabs_of_norm2_1.
    rewrite Forall_forall in Hmod. apply Hmod, nth_In. now rewrite Hlen.
Qed.

(** ** Shapes of Kronecker products and chains of products *)

Lemma kronecker_product_has_shape ds Ms :
  Forall2 (fun d M => has_shape d d M = true) ds Ms ->
  has_shape (fold_right Nat.mul 1%nat ds) (fold_right Nat.mul 1%nat ds)
            (kronecker_product Ms) = true.
Proof.
  induction 1 as [|d M ds Ms HM _ IH]; simpl; [reflexivity|].
  now apply kron_has_shape.
Qed.

Lemma fold_mul_repeat d k : fold_right Nat.mul 1%nat (repeat d k) = (d ^ k)%nat.
Proof. induction k as [|k IH]; simpl; auto. Qed.

Lemma Forall2_repeat {A B : Type} (P : A -> B -> Prop) a b k :
  P a b -> Forall2 P (repeat a k) (repeat b k).
Proof. intros H. induction k; simpl; constructor; auto. Qed.

Lemma dim_pow n : (0 <= n)%Z -> dim n = (2 ^ Z.to_nat n)%nat.
Proof.
  intros Hn. unfold dim. rewrite Z2Nat.inj_pow by lia. reflexivity.
Qed.

Lemma dim_pos n : (0 <= n)%Z -> (0 < dim n)%nat.
Proof.
  intros Hn. unfold dim. pose proof (Z.pow_pos_nonneg 2 n). lia.
Qed.

Lemma beam_splitter_power_has_shape n :
  (0 <= n)%Z -> has_shape 2 2 BS_MATRIX = true ->
  has_shape (dim n) (dim n) (beam_splitter_power n) = true.
Proof.
  intros Hn HB. rewrite dim_pow by assumption. unfold beam_splitter_power.
  rewrite <- fold_mul_repeat.
  apply kronecker_product_has_shape. now apply Forall2_repeat.
Qed.

Lemma phase_diagonal_has_shape u v :
  length u = length v ->
  has_shape (2 ^ length u) (2 ^ length u) (phase_diagonal u v) = true.
Proof.
  intros H. rewrite phase_diagonal_tensor_diag.
  set (rows := map _ (combine u v)).
  assert (Hlen : length (fold_right kron_row [C1] rows) = (2 ^ length u)%nat).
  { rewrite pow2_length_kron_rows.
    - unfold rows. rewrite length_map, length_combine. f_equal. lia.
    - unfold rows. rewrite Forall_map. apply Forall_forall. reflexivity. }
  rewrite <- Hlen. apply tensor_diag_has_shape.
Qed.

Lemma fold_left_matmul Ms : forall X A,
  fold_left matmul Ms (matmul X A) = matmul X (fold_left matmul Ms A).
Proof.
  induction Ms as [|M Ms IH]; intros X A; simpl; auto.
  now rewrite matmul_assoc, IH.
Qed.

(** Multiplying by the matrices one after the other is multiplying by
    their product. *)
Lemma apply_matrices_product d X Ms :
  has_width d X = true ->
  apply_matrices X Ms = matmul X (matrix_product d Ms).
Proof.
  intros HX. unfold apply_matrices, matrix_product.
  rewrite <- fold_left_matmul. now rewrite matmul_identity.
Qed.

Lemma apply_matrices_has_width d X Ms :
  (0 < d)%nat -> has_width d X = true ->
  Forall (fun M => has_shape d d M = true) Ms ->
  has_width d (apply_matrices X Ms) = true.
Proof.
  intros Hd HX HMs. revert X HX.
  induction HMs as [|M Ms HM _ IH]; intros X HX; simpl; auto.
  apply IH. now apply matmul_has_width with (d := d).
Qed.

Lemma matrix_product_has_shape d Ms :
  (0 < d)%nat -> Forall (fun M => has_shape d d M = true) Ms ->
  has_shape d d (matrix_product d Ms) = true.
Proof.
  intros Hd HMs. unfold matrix_product.
  pose proof (identity_matrix_has_shape d) as HI.
  apply has_shape_spec in HI. destruct HI as [HI1 HI2].
  apply has_shape_spec. split.
  - fold (apply_matrices (identity_matrix d) Ms).
    clear HI2. revert HI1. generalize (identity_matrix d).
    induction Ms as [|M Ms IH]; intros X HX; simpl; auto.
    inversion HMs; subst. apply IH; auto. now rewrite matmul_length.
  - apply has_width_Forall.
    apply (@apply_matrices_has_width d (identity_matrix d) Ms); auto.
    now apply has_width_Forall.
Qed.

(** ** The Single-Qubit layer *)

Lemma forallb_pointwise {A : Type} (f g : A -> bool) l :
  (forall a, f a = g a) -> forallb f l = forallb g l.
Proof.
  intros H. induction l as [|a l IH]; simpl; auto. now rewrite H, IH.
Qed.

Lemma last_dim_eq_pow2 n X :
  (0 <= n)%Z -> last_dim_eq X (Py.pow2_value n) = has_width (dim n) X.
Proof.
  intros Hn. unfold last_dim_eq, has_width, Py.pow2_value.
  destruct (Z.leb_spec 0 n); [|lia].
  apply forallb_pointwise. intros r. simpl. unfold dim.
  pose proof (Z.pow_pos_nonneg 2 n).
  destruct (Nat.eqb_spec (length r) (Z.to_nat (2 ^ n))) as [E|E];
    destruct (Z.eqb_spec (Z.of_nat (length r)) (2 ^ n)); auto; lia.
Qed.

Lemma add_weight_ok n f : (0 <= n)%Z -> add_weight n f = Ok (drawn n f).
Proof.
  intros Hn. unfold add_weight. destruct (Z.leb_spec 0 n); [reflexivity|lia].
Qed.

Lemma drawn_length n f : length (drawn n f) = Z.to_nat n.
Proof. unfold drawn. now rewrite length_map, length_seq. Qed.

Lemma zeros_like_length v : length (zeros_like v) = length v.
Proof. apply repeat_length. Qed.

Lemma SingleQubitOperationLayer_build_ok n initializer x0 :
  (1 <= n)%Z -> has_width (dim n) x0 = true ->
  SingleQubitOperationLayer_build initializer (unbuilt_single n) x0
  = Ok (initial_attrs n initializer).
Proof.
  intros Hn Hx. unfold SingleQubitOperationLayer_build.
  cbn [sq_output_dim sq_num_qubits unbuilt_single].
  rewrite last_dim_eq_pow2, Hx by lia. cbn [Py.assert Py.bind].
  rewrite !add_weight_ok by lia. cbn [Py.bind].
  assert (Hne : forall f, drawn n f <> []).
  { intros f E. apply (f_equal (@length R)) in E.
    rewrite drawn_length in E. simpl in E. lia. }
  destruct (@phase_shifts_ok (drawn n (init_alphas initializer))
              (drawn n (init_betas initializer))) as (o1 & -> & E1);
    [apply Hne|now rewrite !drawn_length|].
  destruct (@phase_shifts_ok (drawn n (init_thetas initializer))
              (zeros_like (drawn n (init_thetas initializer)))) as (o2 & -> & E2);
    [apply Hne|now rewrite zeros_like_length|].
  destruct (@phase_shifts_ok (drawn n (init_phis initializer))
              (zeros_like (drawn n (init_phis initializer)))) as (o3 & -> & E3);
    [apply Hne|now rewrite zeros_like_length|].
  cbn [Py.bind]. rewrite E1, E2, E3, tensors_kronecker_product.
  reflexivity.
Qed.

Lemma derived_attrs_shaped n a b t p :
  (0 <= n)%Z -> has_shape 2 2 BS_MATRIX = true ->
  length a = Z.to_nat n -> length b = Z.to_nat n ->
  length t = Z.to_nat n -> length p = Z.to_nat n ->
  attrs_shaped n (derived_attrs n a b t p).
Proof.
  intros Hn HB Ha Hb Ht Hp. unfold attrs_shaped, stored_factors, derived_attrs. simpl.
  pose proof (@beam_splitter_power_has_shape n Hn HB) as HBS.
  rewrite (@dim_pow n Hn).
  repeat constructor.
  - rewrite <- Ha. apply phase_diagonal_has_shape. congruence.
  - now rewrite <- (@dim_pow n Hn).
  - rewrite <- Ht. apply phase_diagonal_has_shape. now rewrite zeros_like_length.
  - now rewrite <- (@dim_pow n Hn).
  - rewrite <- Hp. apply phase_diagonal_has_shape. now rewrite zeros_like_length.
Qed.

Lemma initial_attrs_shaped n i :
  (0 <= n)%Z -> has_shape 2 2 BS_MATRIX = true ->
  attrs_shaped n (initial_attrs n i).
Proof.
  intros Hn HB. apply derived_attrs_shaped; auto; apply drawn_length.
Qed.

Lemma SingleQubitOperationLayer_call_ok n attrs x :
  (0 <= n)%Z -> attrs_shaped n attrs -> has_width (dim n) x = true ->
  SingleQubitOperationLayer_call attrs x = Ok (apply_matrices x (stored_factors attrs)).
Proof.
  intros Hn HS Hx. pose proof (@dim_pos n Hn) as Hd.
  unfold attrs_shaped, stored_factors in HS.
  inversion HS as [|? ? H1 HS1]; subst. inversion HS1 as [|? ? H2 HS2]; subst.
  inversion HS2 as [|? ? H3 HS3]; subst. inversion HS3 as [|? ? H4 HS4]; subst.
  inversion HS4 as [|? ? H5 _]; subst.
  unfold SingleQubitOperationLayer_call, stored_factors, apply_matrices.
  cbn [fold_left].
  assert (W1 := @matmul_has_width _ _ _ _ Hx H1 Hd).
  assert (W2 := @matmul_has_width _ _ _ _ W1 H2 Hd).
  assert (W3 := @matmul_has_width _ _ _ _ W2 H3 Hd).
  assert (W4 := @matmul_has_width _ _ _ _ W3 H4 Hd).
  rewrite (@dot_ok _ _ _ _ Hx H1). cbn [Py.bind].
  rewrite (@dot_ok _ _ _ _ W1 H2). cbn [Py.bind].
  rewrite (@dot_ok _ _ _ _ W2 H3). cbn [Py.bind].
  rewrite (@dot_ok _ _ _ _ W3 H4). cbn [Py.bind].
  rewrite (@dot_ok _ _ _ _ W4 H5). reflexivity.
Qed.

Lemma stored_factors_derived n a b t p :
  stored_factors (derived_attrs n a b t p) = single_qubit_factors n a b t p.
Proof. reflexivity. Qed.

(** Under graph execution the attributes are read from the variables: for
    variables of [n >= 1] entries each, they are the matrices derived from
    what the variables hold. *)
Lemma SingleQubitOperationLayer_read_graph n attrs :
  (1 <= n)%Z ->
  length (alphas attrs) = Z.to_nat n -> length (betas attrs) = Z.to_nat n ->
  length (thetas attrs) = Z.to_nat n -> length (phis attrs) = Z.to_nat n ->
  bs_matrix attrs = beam_splitter_power n ->
  SingleQubitOperationLayer_read GraphExecution attrs
  = Ok (derived_attrs n (alphas attrs) (betas attrs) (thetas attrs) (phis attrs)).
Proof.
  intros Hn Ha Hb Ht Hp HB.
  assert (Hne : forall l : list R, length l = Z.to_nat n -> l <> []).
  { intros l Hl E. subst l. simpl in Hl. lia. }
  unfold SingleQubitOperationLayer_read.
  destruct (@phase_shifts_ok (alphas attrs) (betas attrs)) as (o1 & -> & D1);
    [now apply Hne|congruence|].
  destruct (@phase_shifts_ok (thetas attrs) (zeros_like (thetas attrs)))
    as (o2 & -> & D2); [now apply Hne|now rewrite zeros_like_length|].
  destruct (@phase_shifts_ok (phis attrs) (zeros_like (phis attrs)))
    as (o3 & -> & D3); [now apply Hne|now rewrite zeros_like_length|].
  cbn [Py.bind]. rewrite D1, D2, D3, HB. reflexivity.
Qed.

(** As long as the variables hold what they held when the layer was
    built, the two execution modes agree: a forward pass is [call] on the
    attributes that [build] made. *)
Lemma SingleQubitOperationLayer_forward_built n initializer mode x :
  (1 <= n)%Z ->
  SingleQubitOperationLayer_forward mode (initial_attrs n initializer) x
  = SingleQubitOperationLayer_call (initial_attrs n initializer) x.
Proof.
  intros Hn. destruct mode; [reflexivity|].
  assert (E : SingleQubitOperationLayer_read GraphExecution (initial_attrs n initializer)
              = Ok (initial_attrs n initializer)).
  { rewrite (@SingleQubitOperationLayer_read_graph n (initial_attrs n initializer) Hn);
      unfold initial_attrs; cbn [alphas betas thetas phis bs_matrix derived_attrs];
      rewrite ?drawn_length; reflexivity. }
  unfold SingleQubitOperationLayer_forward. now rewrite E.
Qed.


(** ** The Entangling layer *)

Lemma CPhaseLayer_ops_blocks n parity std :
  CPhaseLayer_ops (unbuilt_cphase n parity std) = entangling_blocks n parity std.
Proof.
  unfold CPhaseLayer_ops, entangling_blocks, get_cphase_gate, cphase_gate,
    Py.replicate.
  cbn [cp_parity cp_num_qubits cp_use_standard_cphase unbuilt_cphase].
  destruct (parity =? 0)%Z.
  - rewrite app_nil_l.
    assert (E : (2 * (n / 2) <? n)%Z = Z.odd n).
    { rewrite Zodd_mod. pose proof (Z.div_mod n 2 ltac:(lia)) as D.
      pose proof (Z.mod_pos_bound n 2 ltac:(lia)) as B.
      destruct (Z.ltb_spec (2 * (n / 2)) n);
        destruct (Z.eqb_spec (n mod 2) 1); auto; lia. }
    rewrite E. destruct (Z.odd n); [reflexivity|now rewrite app_nil_r].
  - rewrite app_nil_l.
    replace (2 * ((n - 1) / 2) + 1)%Z with (1 + 2 * ((n - 1) / 2))%Z by ring.
    destruct (_ <? _)%Z.
    + now rewrite <- app_assoc.
    + now rewrite app_nil_r.
Qed.

Lemma CPhaseLayer_build_ok n parity std x :
  (0 <= n)%Z -> has_width (dim n) x = true ->
  CPhaseLayer_build (unbuilt_cphase n parity std) x
  = Ok {| transfer_matrix_np := entangling_matrix n parity std;
          transfer_matrix := entangling_matrix n parity std |}.
Proof.
  intros Hn Hx. unfold CPhaseLayer_build.
  cbn [cp_output_dim unbuilt_cphase].
  rewrite last_dim_eq_pow2, Hx by assumption. cbn [Py.assert Py.bind].
  now rewrite tensors_kronecker_product, CPhaseLayer_ops_blocks.
Qed.

(** The blocks are identities, then gates, then identities, on [n] qubits
    in all. *)
Lemma entangling_blocks_form n parity std :
  (1 <= n)%Z ->
  exists p k q,
    entangling_blocks n parity std
    = repeat IDENTITY p ++ repeat (cphase_gate std) k ++ repeat IDENTITY q /\
    (p + 2 * k + q)%nat = Z.to_nat n.
Proof.
  intros Hn. unfold entangling_blocks. destruct (parity =? 0)%Z.
  - exists 0%nat, (Z.to_nat (n / 2)), (if Z.odd n then 1%nat else 0%nat).
    split; [now destruct (Z.odd n)|].
    pose proof (Z.div_mod n 2 ltac:(lia)) as D.
    pose proof (Z.mod_pos_bound n 2 ltac:(lia)) as B.
    pose proof (Zodd_mod n) as O.
    assert (0 <= n / 2)%Z by (apply Z.div_pos; lia).
    destruct (Z.odd n); destruct (Z.eqb_spec (n mod 2) 1);
      try discriminate; lia.
  - exists 1%nat, (Z.to_nat ((n - 1) / 2)),
      (if (1 + 2 * ((n - 1) / 2) <? n)%Z then 1%nat else 0%nat).
    split; [now destruct (_ <? _)%Z|].
    pose proof (Z.div_mod (n - 1) 2 ltac:(lia)) as D.
    pose proof (Z.mod_pos_bound (n - 1) 2 ltac:(lia)) as B.
    assert (0 <= (n - 1) / 2)%Z by (apply Z.div_pos; lia).
    destruct (Z.ltb_spec (1 + 2 * ((n - 1) / 2)) n); lia.
Qed.

Lemma fold_mul_app a b :
  fold_right Nat.mul 1%nat (a ++ b)
  = (fold_right Nat.mul 1%nat a * fold_right Nat.mul 1%nat b)%nat.
Proof.
  induction a as [|x a IH]; simpl; [lia|]. rewrite IH. lia.
Qed.

Lemma block_dims p k q :
  fold_right Nat.mul 1%nat (repeat 2%nat p ++ repeat 4%nat k ++ repeat 2%nat q)
  = (2 ^ (p + 2 * k + q))%nat.
Proof.
  rewrite !fold_mul_app, !fold_mul_repeat, !Nat.pow_add_r, Nat.pow_mul_r.
  change (2 ^ 2)%nat with 4%nat. lia.
Qed.

Lemma Forall2_app_intro {A B : Type} (P : A -> B -> Prop) l1 l2 m1 m2 :
  Forall2 P l1 m1 -> Forall2 P l2 m2 -> Forall2 P (l1 ++ l2) (m1 ++ m2).
Proof. apply Forall2_app. Qed.

Lemma IDENTITY_has_shape : has_shape 2 2 IDENTITY = true.
Proof. reflexivity. Qed.

Lemma entangling_matrix_has_shape n parity std :
  (1 <= n)%Z ->
  has_shape 4 4 CPHASE = true -> has_shape 4 4 CPHASE_MOD = true ->
  has_shape (dim n) (dim n) (entangling_matrix n parity std) = true.
Proof.
  intros Hn H1 H2.
  destruct (@entangling_blocks_form n parity std Hn) as (p & k & q & E & Hsum).
  unfold entangling_matrix. rewrite E, dim_pow, <- Hsum, <- block_dims by lia.
  apply kronecker_product_has_shape.
  repeat apply Forall2_app_intro; apply Forall2_repeat;
    try apply IDENTITY_has_shape.
  unfold cphase_gate. now destruct std.
Qed.

(** C3.  For [n >= 1] the Entangling layer builds, and its transfer matrix
    is the Kronecker product of its block list.  At parity 0 the list is
    one controlled-phase gate per pair (0,1), (2,3), ..., that is
    [floor(n/2)] gates, followed by one identity iff [n] is odd.  At parity
    1 it is one identity, then [floor((n-1)/2)] gates for the pairs (1,2),
    (3,4), ..., followed by one identity iff a qubit remains unpaired, which
    is when [n] is even.  The gate is [CPHASE] or [CPHASE_MOD] as the flag
    says.  For [n = 3] the matrices are [kron(gate, IDENTITY)] and
    [kron(IDENTITY, gate)]. *)
Theorem entangling_layer_blocks (n : Z) (std : bool) (x : cmatrix) :
  (1 <= n)%Z -> has_width (dim n) x = true ->
  let gate := if std then CPHASE else CPHASE_MOD in
  let blocks0 :=
    repeat gate (Z.to_nat (n / 2)) ++ (if Z.odd n then [IDENTITY] else []) in
  let unpaired := (1 + 2 * ((n - 1) / 2) <? n)%Z in
  let blocks1 :=
    [IDENTITY] ++ repeat gate (Z.to_nat ((n - 1) / 2))
    ++ (if unpaired then [IDENTITY] else []) in
  (exists layer attrs,
     CPhaseLayer_init n 0 std = Ok layer /\
     CPhaseLayer_build layer x = Ok attrs /\
     CPhaseLayer_ops layer = blocks0 /\
     transfer_matrix attrs = kronecker_product blocks0) /\
  (exists layer attrs,
     CPhaseLayer_init n 1 std = Ok layer /\
     CPhaseLayer_build layer x = Ok attrs /\
     CPhaseLayer_ops layer = blocks1 /\
     transfer_matrix attrs = kronecker_product blocks1) /\
  unpaired = Z.even n /\
  (exists layer,
     CPhaseLayer_init 3 0 std = Ok layer /\
     tensors (CPhaseLayer_ops layer) = kron gate IDENTITY) /\
  (exists layer,
     CPhaseLayer_init 3 1 std = Ok layer /\
     tensors (CPhaseLayer_ops layer) = kron IDENTITY gate).
Proof.
  intros Hn Hx. cbv zeta. split; [|split; [|split; [|split]]].
  - exists (unbuilt_cphase n 0 std). eexists.
    split; [apply CPhaseLayer_init_ok; in_float_range|].
    split; [apply CPhaseLayer_build_ok; [lia|exact Hx]|].
    split; [apply CPhaseLayer_ops_blocks|reflexivity].
  - exists (unbuilt_cphase n 1 std). eexists.
    split; [apply CPhaseLayer_init_ok; in_float_range|].
    split; [apply CPhaseLayer_build_ok; [lia|exact Hx]|].
    split; [apply CPhaseLayer_ops_blocks|reflexivity].
  - rewrite <- Z.negb_odd, Zodd_mod.
    pose proof (Z.div_mod (n - 1) 2 ltac:(lia)) as D.
    pose proof (Z.mod_pos_bound (n - 1) 2 ltac:(lia)) as B.
    pose proof (Z.div_mod n 2 ltac:(lia)) as D'.
    pose proof (Z.mod_pos_bound n 2 ltac:(lia)) as B'.
    destruct (Z.ltb_spec (1 + 2 * ((n - 1) / 2)) n);
      destruct (Z.eqb_spec (n mod 2) 1); simpl; auto; lia.
  - exists (unbuilt_cphase 3 0 std).
    split; [apply CPhaseLayer_init_ok; in_float_range|destruct std; reflexivity].
  - exists (unbuilt_cphase 3 1 std).
    split; [apply CPhaseLayer_init_ok; in_float_range|destruct std; reflexivity].
Qed.

Lemma IDENTITY_identity_matrix : IDENTITY = identity_matrix 2.
Proof. reflexivity. Qed.

Lemma kron_IDENTITY_IDENTITY : kron IDENTITY IDENTITY = identity_matrix 4.
Proof.
  change IDENTITY with (tensor_diag [C1; C1]).
  rewrite kron_tensor_diag. unfold identity_matrix.
  simpl kron_row. now rewrite !Cmul_1_l.
Qed.

Lemma CPhaseLayer_apply_fresh n parity std x :
  (0 <= n)%Z -> has_width (dim n) x = true ->
  has_shape (dim n) (dim n) (entangling_matrix n parity std) = true ->
  CPhaseLayer_apply (unbuilt_cphase n parity std) x
  = Ok ({| cp_num_qubits := n;
           cp_parity := parity;
           cp_use_standard_cphase := std;
           cp_output_dim := Py.pow2_value n;
           cp_built := Some {| transfer_matrix_np := entangling_matrix n parity std;
                               transfer_matrix := entangling_matrix n parity std |} |},
        matmul x (entangling_matrix n parity std)).
Proof.
  intros Hn Hx HS. unfold CPhaseLayer_apply.
  cbn [cp_built unbuilt_cphase].
  rewrite CPhaseLayer_build_ok by assumption. cbn [Py.bind].
  unfold CPhaseLayer_call. cbn [transfer_matrix].
  rewrite (@dot_ok _ _ _ _ Hx HS). reflexivity.
Qed.

(** C10.  On one qubit (either parity) and on two qubits at parity 1 the
    Entangling layer holds no controlled-phase gate: its block list is made
    of identities only, its transfer matrix is the identity of dimension
    [2^n], and its forward pass returns its input. *)
Theorem entangling_layer_without_gate (n parity : Z) (std : bool) (x : cmatrix) :
  (n = 1 /\ (parity = 0 \/ parity = 1))%Z \/ (n = 2 /\ parity = 1)%Z ->
  has_width (dim n) x = true ->
  exists layer,
    CPhaseLayer_init n parity std = Ok layer /\
    CPhaseLayer_ops layer = repeat IDENTITY (Z.to_nat n) /\
    exists attrs,
      CPhaseLayer_build layer x = Ok attrs /\
      transfer_matrix attrs = identity_matrix (dim n) /\
      CPhaseLayer_call attrs x = Ok x /\
      CPhaseLayer_apply layer x
      = Ok ({| cp_num_qubits := n;
               cp_parity := parity;
               cp_use_standard_cphase := std;
               cp_output_dim := Py.Int (2 ^ n);
               cp_built := Some attrs |}, x).
Proof.
  intros Hcase Hx.
  assert (Hops : CPhaseLayer_ops (unbuilt_cphase n parity std)
                 = repeat IDENTITY (Z.to_nat n)).
  { destruct Hcase as [[-> [-> | ->]] | [-> ->]]; reflexivity. }
  assert (HM : entangling_matrix n parity std = identity_matrix (dim n)).
  { unfold entangling_matrix. rewrite <- CPhaseLayer_ops_blocks, Hops.
    destruct Hcase as [[-> _] | [-> _]].
    - change (kron IDENTITY [[C1]] = identity_matrix 2).
      now rewrite kron_1_r.
    - change (kron IDENTITY (kron IDENTITY [[C1]]) = identity_matrix 4).
      now rewrite kron_1_r, kron_IDENTITY_IDENTITY. }
  assert (Hn : (0 <= n)%Z) by (destruct Hcase as [[-> _] | [-> _]]; lia).
  assert (HS : has_shape (dim n) (dim n) (entangling_matrix n parity std) = true).
  { rewrite HM. apply identity_matrix_has_shape. }
  exists (unbuilt_cphase n parity std).
  split; [apply CPhaseLayer_init_ok; in_float_range|].
  rewrite <- (@pow2_value_nonneg n) by lia.
  split; [exact Hops|].
  eexists. split; [now apply CPhaseLayer_build_ok|].
  cbn [transfer_matrix]. split; [exact HM|]. split.
  - unfold CPhaseLayer_call. cbn [transfer_matrix].
    rewrite (@dot_ok _ _ _ _ Hx HS), HM. now rewrite matmul_identity.
  - rewrite CPhaseLayer_apply_fresh by assumption.
    rewrite HM at 3. now rewrite matmul_identity.
Qed.

(** ** The circuit *)

Lemma QPGA_init_loop n std l : forall cps sqs,
  (- Py.float_limit < n)%Z ->
  fold_left (QPGA_init_step n std) l (Ok (cps, sqs))
  = Ok (cps ++ map (fun i => unbuilt_cphase n (i mod 2) std) l,
        sqs ++ map (fun _ => unbuilt_single n) l).
Proof.
  induction l as [|i l IH]; intros cps sqs Hn; cbn [fold_left map].
  - now rewrite !app_nil_r.
  - assert (E : QPGA_init_step n std (Ok (cps, sqs)) i
                = Ok (cps ++ [unbuilt_cphase n (i mod 2) std],
                      sqs ++ [unbuilt_single n])).
    { unfold QPGA_init_step. cbn [Py.bind].
      rewrite CPhaseLayer_init_ok, SingleQubitOperationLayer_init_ok by assumption.
      reflexivity. }
    rewrite E, IH, <- !app_assoc by assumption. reflexivity.
Qed.

Lemma QPGA_init_layers n depth ci co std :
  (- Py.float_limit < n)%Z ->
  QPGA_init n depth ci co std
  = Ok {| num_qubits := n;
          input_dim := Py.pow2_value n;
          depth := depth;
          complex_inputs := ci;
          complex_outputs := co;
          use_standard_cphase := std;
          input_layer := unbuilt_single n;
          single_qubit_layers :=
            map (fun _ => unbuilt_single n) (seq 0 (Z.to_nat depth));
          cphase_layers :=
            map (fun i => unbuilt_cphase n (Z.of_nat i mod 2) std)
                (seq 0 (Z.to_nat depth)) |}.
Proof.
  intros Hn. unfold QPGA_init.
  rewrite pow2_ok, SingleQubitOperationLayer_init_ok by assumption.
  cbn [Py.bind]. rewrite QPGA_init_loop by assumption.
  cbn [Py.bind fst snd app]. unfold Py.range. now rewrite !map_map.
Qed.

Lemma QPGA_init_overflow n depth ci co std :
  (n <= - Py.float_limit)%Z -> QPGA_init n depth ci co std = Err OverflowError.
Proof. intros Hn. unfold QPGA_init. now rewrite pow2_overflow. Qed.

(** What the constructor returns, when it returns. *)
Lemma QPGA_init_inv n depth ci co std q :
  QPGA_init n depth ci co std = Ok q ->
  (- Py.float_limit < n)%Z /\
  q = {| num_qubits := n;
         input_dim := Py.pow2_value n;
         depth := depth;
         complex_inputs := ci;
         complex_outputs := co;
         use_standard_cphase := std;
         input_layer := unbuilt_single n;
         single_qubit_layers :=
           map (fun _ => unbuilt_single n) (seq 0 (Z.to_nat depth));
         cphase_layers :=
           map (fun i => unbuilt_cphase n (Z.of_nat i mod 2) std)
               (seq 0 (Z.to_nat depth)) |}.
Proof.
  intros Hq. destruct (pow2_cases n) as [Hn|Hn].
  - split; [exact Hn|]. rewrite QPGA_init_layers in Hq by assumption.
    now injection Hq as <-.
  - rewrite QPGA_init_overflow in Hq by assumption. discriminate.
Qed.

Lemma single_apply n i l x :
  (1 <= n)%Z -> has_shape 2 2 BS_MATRIX = true ->
  single_state n i l -> has_width (dim n) x = true ->
  SingleQubitOperationLayer_apply i l x
  = Ok (built_single n i, matmul x (layer_matrix_of_draw n i)).
Proof.
  intros Hn HB Hl Hx.
  assert (Hcall := @SingleQubitOperationLayer_call_ok n (initial_attrs n i) x
                     ltac:(lia) (@initial_attrs_shaped n i ltac:(lia) HB) Hx).
  unfold initial_attrs in Hcall at 2. rewrite stored_factors_derived in Hcall.
  rewrite (@apply_matrices_product (dim n)) in Hcall by assumption.
  unfold SingleQubitOperationLayer_apply.
  destruct Hl as [-> | ->];
    cbn [sq_built unbuilt_single built_single
         sq_num_qubits sq_output_dim].
  - rewrite SingleQubitOperationLayer_build_ok by assumption.
    cbn [Py.bind]. rewrite Hcall. reflexivity.
  - cbn [Py.bind]. rewrite Hcall. reflexivity.
Qed.

Lemma cphase_apply n parity std l x :
  (1 <= n)%Z ->
  has_shape 4 4 CPHASE = true -> has_shape 4 4 CPHASE_MOD = true ->
  cphase_state n parity std l -> has_width (dim n) x = true ->
  CPhaseLayer_apply l x
  = Ok (built_cphase n parity std, matmul x (entangling_matrix n parity std)).
Proof.
  intros Hn H1 H2 Hl Hx.
  pose proof (@entangling_matrix_has_shape n parity std Hn H1 H2) as HS.
  destruct Hl as [-> | ->].
  - rewrite CPhaseLayer_apply_fresh by (auto; lia). reflexivity.
  - unfold CPhaseLayer_apply, built_cphase, CPhaseLayer_call.
    cbn [cp_built Py.bind transfer_matrix].
    rewrite (@dot_ok _ _ _ _ Hx HS). reflexivity.
Qed.

Lemma layer_matrix_has_shape n i :
  (0 <= n)%Z -> has_shape 2 2 BS_MATRIX = true ->
  has_shape (dim n) (dim n) (layer_matrix_of_draw n i) = true.
Proof.
  intros Hn HB. unfold layer_matrix_of_draw, single_qubit_matrix.
  apply matrix_product_has_shape; [now apply dim_pos|].
  exact (@initial_attrs_shaped n i Hn HB).
Qed.

Lemma QPGA_call_loop_ok n std initializers :
  (1 <= n)%Z -> has_shape 2 2 BS_MATRIX = true ->
  has_shape 4 4 CPHASE = true -> has_shape 4 4 CPHASE_MOD = true ->
  forall m k cps sqs x,
  Forall2 (fun i l => cphase_state n (Z.of_nat i mod 2) std l) (seq k m) cps ->
  Forall2 (fun i l => single_state n (initializers (S i)) l) (seq k m) sqs ->
  has_width (dim n) x = true ->
  QPGA_call_loop initializers k cps sqs x
  = Ok (map (fun i => built_cphase n (Z.of_nat i mod 2) std) (seq k m),
        map (fun i => built_single n (initializers (S i))) (seq k m),
        apply_matrices x
          (flat_map (fun i => [entangling_matrix n (Z.of_nat i mod 2) std;
                               layer_matrix_of_draw n (initializers (S i))])
                    (seq k m))).
Proof.
  intros Hn HB H1 H2. pose proof (@dim_pos n ltac:(lia)) as Hd.
  induction m as [|m IH]; intros k cps sqs x Hc Hs Hx.
  - inversion Hc; subst. inversion Hs; subst. reflexivity.
  - simpl seq in *.
    inversion Hc as [|? c ? cps' Hc0 Hc']; subst.
    inversion Hs as [|? s ? sqs' Hs0 Hs']; subst.
    cbn [QPGA_call_loop]. cbv beta in Hc0, Hs0.
    rewrite (@cphase_apply n _ std c x Hn H1 H2 Hc0 Hx). cbn [Py.bind fst snd].
    assert (W1 : has_width (dim n)
                   (matmul x (entangling_matrix n (Z.of_nat k mod 2) std)) = true).
    { apply matmul_has_width with (d := dim n); auto.
      now apply entangling_matrix_has_shape. }
    rewrite (@single_apply n _ s _ Hn HB Hs0 W1). cbn [Py.bind fst snd].
    rewrite (IH (S k) cps' sqs'); auto.
    apply matmul_has_width with (d := dim n); auto.
    apply layer_matrix_has_shape; auto; lia.
Qed.

Lemma k_to_tf_complex_has_width d x :
  well_formed_real d x = true -> has_width d (k_to_tf_complex x) = true.
Proof.
  unfold well_formed_real, k_to_tf_complex, has_width.
  rewrite !forallb_forall. intros H r Hr.
  apply in_map_iff in Hr. destruct Hr as (b & <- & Hb).
  specialize (H b Hb). apply andb_true_iff in H. destruct H as [H2 Hrows].
  apply Nat.eqb_eq in H2.
  destruct b as [|re [|im [|]]]; try discriminate.
  simpl in Hrows. rewrite !andb_true_iff, !Nat.eqb_eq in Hrows.
  apply Nat.eqb_eq. simpl. rewrite length_map, length_combine. lia.
Qed.

Lemma well_formed_input_states ci d t :
  well_formed_input ci d t = true -> has_width d (states_of t) = true.
Proof.
  destruct t as [x|x]; simpl; intros H; apply andb_true_iff in H; destruct H.
  - now apply k_to_tf_complex_has_width.
  - assumption.
Qed.

Lemma QPGA_call_ok n d ci co std initializers q inputs :
  (1 <= n)%Z -> has_shape 2 2 BS_MATRIX = true ->
  has_shape 4 4 CPHASE = true -> has_shape 4 4 CPHASE_MOD = true ->
  circuit_state n d ci co std initializers q ->
  well_formed_input ci (dim n) inputs = true ->
  QPGA_call initializers q inputs
  = Ok (built_circuit n d ci co std initializers,
        encode_output co
          (apply_matrices (states_of inputs) (circuit_matrices n d std initializers))).
Proof.
  intros Hn HB H1 H2 Hq Hin.
  pose proof (well_formed_input_states _ _ _ Hin) as Hx.
  destruct Hq as (E1 & E2 & E3 & E4 & E5 & E6 & S0 & SC & SS).
  unfold QPGA_call. rewrite E4, E5.
  assert (Hpre : (x <- (if negb ci then lambda_k_to_tf_complex inputs else Ok inputs) ;;
                  expect_complex x) = Ok (states_of inputs)).
  { destruct inputs as [x|x]; simpl in Hin; apply andb_true_iff in Hin;
      destruct Hin as [Hci _]; destruct ci; try discriminate; reflexivity. }
  set (pre := if negb ci then _ else _) in *.
  destruct pre as [t|e]; [|discriminate]. cbn [Py.bind] in Hpre |- *.
  rewrite Hpre. cbn [Py.bind].
  rewrite (@single_apply n _ _ _ Hn HB S0 Hx). cbn [Py.bind fst snd].
  rewrite (@QPGA_call_loop_ok n std initializers Hn HB H1 H2 (Z.to_nat d) 0%nat
             _ _ _ SC SS).
  2:{ apply matmul_has_width with (d := dim n); auto.
      - apply layer_matrix_has_shape; auto; lia.
      - apply dim_pos; lia. }
  cbn [Py.bind fst snd].
  unfold with_layers, built_circuit, circuit_matrices, encode_output.
  rewrite E1, E2, E3, E4, E5, E6.
  destruct co; reflexivity.
Qed.

Lemma QPGA_init_state n d ci co std initializers q :
  QPGA_init n d ci co std = Ok q -> circuit_state n d ci co std initializers q.
Proof.
  intros E. destruct (QPGA_init_inv _ _ _ _ _ E) as [_ ->]. clear E.
  unfold circuit_state. cbn. repeat split.
  - now left.
  - induction (seq 0 (Z.to_nat d)); simpl; constructor; auto. now left.
  - induction (seq 0 (Z.to_nat d)); simpl; constructor; auto. now left.
Qed.

Lemma built_circuit_state n d ci co std initializers :
  circuit_state n d ci co std initializers (built_circuit n d ci co std initializers).
Proof.
  unfold circuit_state. cbn. repeat split.
  - now right.
  - induction (seq 0 (Z.to_nat d)); simpl; constructor; auto. now right.
  - induction (seq 0 (Z.to_nat d)); simpl; constructor; auto. now right.
Qed.

Lemma circuit_matrices_length n d std initializers :
  (0 <= d)%Z ->
  length (circuit_matrices n d std initializers) = Z.to_nat (2 * d + 1).
Proof.
  intros Hd. unfold circuit_matrices. cbn [length].
  assert (E : forall l : list nat,
             length (flat_map (fun i => [entangling_matrix n (Z.of_nat i mod 2) std;
                                         layer_matrix_of_draw n (initializers (S i))]) l)
             = (2 * length l)%nat).
  { induction l as [|a l IH]; simpl; auto. rewrite IH. lia. }
  rewrite E, length_seq. lia.
Qed.

(** C1.  A circuit made by [QPGA(n, d, complex_inputs, complex_outputs,
    use_standard_cphase)] with [n >= 1] and [d >= 0] maps a well-formed
    input as follows, at its first call (which builds the layers) and at
    every later one: when [complex_inputs] is false the input is first
    converted from the real encoding; the result is the input multiplied on
    the right by the product of the [2 d + 1] transfer matrices, in order:
    the initial Single-Qubit layer, then for [i = 0 .. d-1] the Entangling
    layer of parity [i mod 2] and a Single-Qubit layer; when
    [complex_outputs] is false it is converted back to the real encoding.
    With [d = 0] there is one Single-Qubit layer and no Entangling layer. *)
Theorem QPGA_forward (n d : Z) (ci co std : bool) (initializers : nat -> SQInit)
    (q : QPGA) (inputs : tensor) :
  (1 <= n)%Z -> (0 <= d)%Z ->
  has_shape 2 2 BS_MATRIX = true ->
  has_shape 4 4 CPHASE = true -> has_shape 4 4 CPHASE_MOD = true ->
  QPGA_init n d ci co std = Ok q ->
  well_formed_input ci (dim n) inputs = true ->
  let single k := layer_matrix_of_draw n (initializers k) in
  let entangling i := entangling_matrix n (Z.of_nat i mod 2) std in
  let Ms := single O :: flat_map (fun i => [entangling i; single (S i)])
                                 (seq 0 (Z.to_nat d)) in
  let x := match inputs with
           | RealTensor r => k_to_tf_complex r
           | ComplexTensor c => c
           end in
  let y := matmul x (matrix_product (dim n) Ms) in
  let out := if co then ComplexTensor y else RealTensor (tf_to_k_complex y) in
  exists q',
    QPGA_call initializers q inputs = Ok (q', out) /\
    QPGA_call initializers q' inputs = Ok (q', out) /\
    y = apply_matrices x Ms /\
    length Ms = Z.to_nat (2 * d + 1) /\
    length (cphase_layers q') = Z.to_nat d /\
    length (single_qubit_layers q') = Z.to_nat d /\
    (d = 0%Z -> Ms = [single O] /\ cphase_layers q' = []).
Proof.
  intros Hn Hd HB H1 H2 Hq Hin. cbv zeta.
  fold (states_of inputs). fold (circuit_matrices n d std initializers).
  pose proof (well_formed_input_states _ _ _ Hin) as Hx.
  rewrite <- (@apply_matrices_product (dim n)) by assumption.
  fold (encode_output co
          (apply_matrices (states_of inputs) (circuit_matrices n d std initializers))).
  exists (built_circuit n d ci co std initializers).
  split; [|split; [|split; [|split; [|split; [|split]]]]].
  - apply QPGA_call_ok; auto. now apply QPGA_init_state.
  - apply QPGA_call_ok; auto. apply built_circuit_state.
  - reflexivity.
  - now apply circuit_matrices_length.
  - cbn. now rewrite length_map, length_seq.
  - cbn. now rewrite length_map, length_seq.
  - intros ->. split; reflexivity.
Qed.

(** ** The sequential view *)

Lemma Sequential_run_app initializers s1 : forall s2 q t,
  Sequential_run initializers (s1 ++ s2) q t
  = (r <- Sequential_run initializers s1 q t ;;
     Sequential_run initializers s2 (fst r) (snd r)).
Proof.
  induction s1 as [|st s1 IH]; intros s2 q t; simpl; auto.
  destruct (Sequential_stage initializers st q t) as [[q' t']|e]; simpl; auto.
Qed.

Lemma with_layers_same q :
  with_layers q (input_layer q) (cphase_layers q) (single_qubit_layers q) = q.
Proof. destruct q; reflexivity. Qed.

Lemma nth_error_middle {A : Type} (l1 : list A) a l2 k :
  length l1 = k -> nth_error (l1 ++ a :: l2) k = Some a.
Proof. intros <-. induction l1; simpl; auto. Qed.

Lemma set_nth_middle {A : Type} (l1 : list A) a b l2 k :
  length l1 = k -> set_nth k b (l1 ++ a :: l2) = l1 ++ b :: l2.
Proof. intros <-. induction l1; simpl; auto. now f_equal. Qed.

(** The stages that refer to the layer pairs run the loop of [call] on
    the layers of the circuit. *)
Lemma Sequential_run_pairs initializers : forall cps sqs k donec dones q x,
  length donec = k -> length dones = k ->
  cphase_layers q = donec ++ cps ->
  single_qubit_layers q = dones ++ sqs ->
  Sequential_run initializers
    (flat_map (fun i => [CPhaseLayerRef i; SingleQubitLayerRef i])
              (seq k (Nat.min (length cps) (length sqs))))
    q (ComplexTensor x)
  = (r <- QPGA_call_loop initializers k cps sqs x ;;
     Ok (with_layers q (input_layer q) (donec ++ fst (fst r)) (dones ++ snd (fst r)),
         ComplexTensor (snd r))).
Proof.
  induction cps as [|c cps IH]; intros sqs k donec dones q x Hk1 Hk2 Hc Hs.
  - simpl. rewrite <- Hc. destruct sqs; simpl; rewrite <- Hs;
      now rewrite with_layers_same.
  - destruct sqs as [|s sqs].
    + simpl. rewrite <- Hc, <- Hs. now rewrite with_layers_same.
    + cbn [length Nat.min seq flat_map app Sequential_run QPGA_call_loop].
      cbn [Sequential_stage expect_complex Py.bind].
      rewrite Hc, (nth_error_middle _ _ _ Hk1).
      destruct (CPhaseLayer_apply c x) as [[c' x1]|e]; [|reflexivity].
      cbn [Py.bind fst snd Sequential_stage expect_complex].
      cbn [with_layers single_qubit_layers cphase_layers input_layer].
      rewrite Hs, (nth_error_middle _ _ _ Hk2).
      destruct (SingleQubitOperationLayer_apply (initializers (S k)) s x1)
        as [[s' x2]|e]; [|reflexivity].
      cbn [Py.bind fst snd].
      rewrite (set_nth_middle _ _ _ _ Hk1), (set_nth_middle _ _ _ _ Hk2).
      set (q2 := with_layers _ _ _ _).
      rewrite (IH sqs (S k) (donec ++ [c']) (dones ++ [s']) q2 x2).
      * destruct (QPGA_call_loop initializers (S k) cps sqs x2)
          as [[[cps' sqs'] x3]|e]; [|reflexivity].
        cbn [Py.bind fst snd]. unfold q2.
        cbn [with_layers single_qubit_layers cphase_layers input_layer
             num_qubits input_dim depth complex_inputs complex_outputs
             use_standard_cphase].
        now rewrite <- !app_assoc.
      * rewrite length_app. simpl. lia.
      * rewrite length_app. simpl. lia.
      * unfold q2. cbn. now rewrite <- app_assoc.
      * unfold q2. cbn. now rewrite <- app_assoc.
Qed.

(** Running the stages of [as_sequential] on a circuit, in whatever state
    its layers are, is its forward pass: the same result or the same
    failure, and the same layers left built. *)
Lemma Sequential_run_stages (initializers : nat -> SQInit) (q : QPGA)
    (inputs : tensor) :
  Sequential_run initializers (sequential_stages q) q inputs
  = QPGA_call initializers q inputs.
Proof.
  unfold sequential_stages, QPGA_call.
  remember (flat_map (fun i => [CPhaseLayerRef i; SingleQubitLayerRef i])
              (seq 0 (Nat.min (length (cphase_layers q))
                              (length (single_qubit_layers q))))) as pairs eqn:Epairs.
  assert (Hmid : forall pre post,
    Sequential_run initializers (pre ++ InputLayerRef :: pairs ++ post) q inputs
    = (r <- Sequential_run initializers pre q inputs ;;
       x <- expect_complex (snd r) ;;
       r0 <- SingleQubitOperationLayer_apply (initializers O) (input_layer (fst r)) x ;;
       r1 <- Sequential_run initializers pairs
               (with_layers (fst r) (fst r0) (cphase_layers (fst r))
                            (single_qubit_layers (fst r)))
               (ComplexTensor (snd r0)) ;;
       Sequential_run initializers post (fst r1) (snd r1))).
  { intros pre post. rewrite Sequential_run_app.
    destruct (Sequential_run initializers pre q inputs) as [[q1 t1]|e]; [|reflexivity].
    cbn [Py.bind fst snd Sequential_run Sequential_stage].
    destruct (expect_complex t1) as [x|e]; [|reflexivity]. cbn [Py.bind].
    destruct (SingleQubitOperationLayer_apply (initializers O) (input_layer q1) x)
      as [[l0 x0]|e]; [|reflexivity].
    cbn [Py.bind fst snd]. apply Sequential_run_app. }
  assert (Hloop : forall l0 x,
    Sequential_run initializers pairs
      (with_layers q l0 (cphase_layers q) (single_qubit_layers q))
      (ComplexTensor x)
    = (r <- QPGA_call_loop initializers O (cphase_layers q)
              (single_qubit_layers q) x ;;
       Ok (with_layers q l0 (fst (fst r)) (snd (fst r)), ComplexTensor (snd r)))).
  { intros l0 x. subst pairs.
    exact (@Sequential_run_pairs initializers (cphase_layers q)
             (single_qubit_layers q) O [] []
             (with_layers q l0 (cphase_layers q) (single_qubit_layers q)) x
             eq_refl eq_refl eq_refl eq_refl). }
  clear Epairs.
  destruct (complex_inputs q), (complex_outputs q); cbn [negb].
  - match goal with
    | |- Sequential_run _ ?l _ _ = _ =>
        change l with
          ([Input [input_dim q] complex128] ++ InputLayerRef :: pairs)
    end.
    rewrite <- (app_nil_r pairs) at 1. rewrite Hmid.
    cbn [Sequential_run Sequential_stage Py.bind fst snd].
    destruct (expect_complex inputs) as [x|e]; [|reflexivity]. cbn [Py.bind].
    destruct (SingleQubitOperationLayer_apply (initializers O) (input_layer q) x)
      as [[l0 x0]|e]; [|reflexivity].
    cbn [Py.bind fst snd]. rewrite Hloop.
    destruct (QPGA_call_loop _ _ _ _ _) as [[[cps sqs] x1]|e]; reflexivity.
  - match goal with
    | |- Sequential_run _ ?l _ _ = _ =>
        change l with
          ([Input [input_dim q] complex128] ++ InputLayerRef :: pairs ++ [Lambda lambda_tf_to_k_complex])
    end.
    rewrite Hmid.
    cbn [Sequential_run Sequential_stage Py.bind fst snd].
    destruct (expect_complex inputs) as [x|e]; [|reflexivity]. cbn [Py.bind].
    destruct (SingleQubitOperationLayer_apply (initializers O) (input_layer q) x)
      as [[l0 x0]|e]; [|reflexivity].
    cbn [Py.bind fst snd]. rewrite Hloop.
    destruct (QPGA_call_loop _ _ _ _ _) as [[[cps sqs] x1]|e]; reflexivity.
  - match goal with
    | |- Sequential_run _ ?l _ _ = _ =>
        change l with
          ([Input [Py.Int 2; input_dim q] float64; Lambda lambda_k_to_tf_complex] ++ InputLayerRef :: pairs)
    end.
    rewrite <- (app_nil_r pairs) at 1. rewrite Hmid.
    cbn [Sequential_run Sequential_stage Py.bind fst snd].
    destruct (lambda_k_to_tf_complex inputs) as [t|e]; [|reflexivity].
    cbn [Py.bind fst snd].
    destruct (expect_complex t) as [x|e]; [|reflexivity]. cbn [Py.bind].
    destruct (SingleQubitOperationLayer_apply (initializers O) (input_layer q) x)
      as [[l0 x0]|e]; [|reflexivity].
    cbn [Py.bind fst snd]. rewrite Hloop.
    destruct (QPGA_call_loop _ _ _ _ _) as [[[cps sqs] x1]|e]; reflexivity.
  - match goal with
    | |- Sequential_run _ ?l _ _ = _ =>
        change l with
          ([Input [Py.Int 2; input_dim q] float64; Lambda lambda_k_to_tf_complex] ++ InputLayerRef :: pairs ++ [Lambda lambda_tf_to_k_complex])
    end.
    rewrite Hmid.
    cbn [Sequential_run Sequential_stage Py.bind fst snd].
    destruct (lambda_k_to_tf_complex inputs) as [t|e]; [|reflexivity].
    cbn [Py.bind fst snd].
    destruct (expect_complex t) as [x|e]; [|reflexivity]. cbn [Py.bind].
    destruct (SingleQubitOperationLayer_apply (initializers O) (input_layer q) x)
      as [[l0 x0]|e]; [|reflexivity].
    cbn [Py.bind fst snd]. rewrite Hloop.
    destruct (QPGA_call_loop _ _ _ _ _) as [[[cps sqs] x1]|e]; reflexivity.
Qed.

(** [Sequential.add] of a layer to a model that has an input runs the
    layer on the symbolic output. *)
Lemma Sequential_add_layer initializers st q pre t :
  (forall shape dt, st <> Input shape dt) ->
  Sequential_add initializers st (q, (pre, Some t))
  = (r <- Sequential_stage initializers st q t ;;
     Ok (fst r, (pre ++ [st], Some (snd r)))).
Proof.
  intros H. destruct st; try reflexivity. now destruct (H shape dt).
Qed.

Lemma as_sequential_loop_run initializers : forall pairs k q pre t,
  as_sequential_loop initializers k pairs (q, (pre, Some t))
  = (r <- Sequential_run initializers
            (flat_map (fun i => [CPhaseLayerRef i; SingleQubitLayerRef i])
                      (seq k pairs)) q t ;;
     Ok (fst r,
         (pre ++ flat_map (fun i => [CPhaseLayerRef i; SingleQubitLayerRef i])
                          (seq k pairs),
          Some (snd r)))).
Proof.
  induction pairs as [|pairs IH]; intros k q pre t.
  - cbn [as_sequential_loop seq flat_map Sequential_run Py.bind fst snd].
    now rewrite app_nil_r.
  - cbn [as_sequential_loop seq flat_map app Sequential_run].
    rewrite Sequential_add_layer by discriminate.
    destruct (Sequential_stage initializers (CPhaseLayerRef k) q t)
      as [[q1 t1]|e]; [|reflexivity].
    cbn [Py.bind fst snd].
    rewrite Sequential_add_layer by discriminate.
    destruct (Sequential_stage initializers (SingleQubitLayerRef k) q1 t1)
      as [[q2 t2]|e]; [|reflexivity].
    cbn [Py.bind fst snd]. rewrite IH.
    destruct (Sequential_run _ _ q2 t2) as [[q3 t3]|e]; [|reflexivity].
    cbn [Py.bind fst snd]. now rewrite <- !app_assoc.
Qed.

(** [as_sequential] runs the stages it adds on the symbolic input: it
    succeeds when this run succeeds, and it leaves the layers of the
    circuit as the run leaves them. *)
Lemma as_sequential_run initializers q :
  as_sequential initializers q
  = (t0 <- sequential_input q ;;
     r <- Sequential_run initializers (sequential_stages q) q t0 ;;
     Ok (fst r,
         {| seq_layers := sequential_stages q;
            seq_num_qubits := num_qubits q;
            seq_complex_inputs := complex_inputs q;
            seq_complex_outputs := complex_outputs q |})).
Proof.
  unfold as_sequential, sequential_input, sequential_stages.
  set (pairs := Nat.min (length (cphase_layers q)) (length (single_qubit_layers q))).
  set (refs := flat_map (fun i => [CPhaseLayerRef i; SingleQubitLayerRef i])
                        (seq 0 pairs)).
  assert (Hrest : forall pre t post model,
    (forall q' stages t',
       model (q', (stages, Some t'))
       = (r <- Sequential_run initializers post q' t' ;;
          Ok (fst r, (stages ++ post, Some (snd r))))) ->
    (m <- Sequential_add initializers InputLayerRef (q, (pre, Some t)) ;;
     m <- as_sequential_loop initializers 0 pairs m ;;
     m <- model m ;;
     Ok (fst m,
         {| seq_layers := fst (snd m);
            seq_num_qubits := num_qubits q;
            seq_complex_inputs := complex_inputs q;
            seq_complex_outputs := complex_outputs q |}))
    = (r <- Sequential_run initializers (InputLayerRef :: refs ++ post) q t ;;
       Ok (fst r,
           {| seq_layers := pre ++ InputLayerRef :: refs ++ post;
              seq_num_qubits := num_qubits q;
              seq_complex_inputs := complex_inputs q;
              seq_complex_outputs := complex_outputs q |}))).
  { intros pre t post model Hmodel.
    rewrite Sequential_add_layer by discriminate.
    cbn [Sequential_run].
    destruct (Sequential_stage initializers InputLayerRef q t)
      as [[q1 t1]|e]; [|reflexivity].
    cbn [Py.bind fst snd]. rewrite as_sequential_loop_run, Sequential_run_app.
    fold refs.
    destruct (Sequential_run initializers refs q1 t1) as [[q2 t2]|e]; [|reflexivity].
    cbn [Py.bind fst snd]. rewrite Hmodel.
    destruct (Sequential_run initializers post q2 t2) as [[q3 t3]|e]; [|reflexivity].
    cbn [Py.bind fst snd]. now rewrite <- !app_assoc. }
  assert (Hlambda : forall q' stages t',
    Sequential_add initializers (Lambda lambda_tf_to_k_complex) (q', (stages, Some t'))
    = (r <- Sequential_run initializers [Lambda lambda_tf_to_k_complex] q' t' ;;
       Ok (fst r, (stages ++ [Lambda lambda_tf_to_k_complex], Some (snd r))))).
  { intros q' stages t'. rewrite Sequential_add_layer by discriminate.
    cbn [Sequential_run].
    destruct (Sequential_stage _ _ q' t') as [[q1 t1]|e]; reflexivity. }
  assert (Hnone : forall q' (stages : list stage) (t' : tensor),
    @Ok (QPGA * (list stage * option tensor)) (q', (stages, Some t'))
    = (r <- Sequential_run initializers [] q' t' ;;
       Ok (fst r, (stages ++ [], Some (snd r))))).
  { intros q' stages t'. cbn [Sequential_run Py.bind fst snd].
    now rewrite app_nil_r. }
  assert (HInput : forall shape dt (s : QPGA * (list stage * option tensor)),
    Sequential_add initializers (Input shape dt) s
    = (t <- Input_tensor shape dt ;;
       Ok (fst s, (fst (snd s) ++ [Input shape dt], Some t)))).
  { reflexivity. }
  assert (Hbind : forall (A B : Type) (a : A) (k : A -> result B),
    Py.bind (Ok a) k = k a).
  { reflexivity. }
  assert (HrunInput : forall shape dt rest q' t,
    Sequential_run initializers (Input shape dt :: rest) q' t
    = Sequential_run initializers rest q' t).
  { reflexivity. }
  assert (HrunLambda : forall f rest q' t,
    Sequential_run initializers (Lambda f :: rest) q' t
    = (t' <- f t ;; Sequential_run initializers rest q' t')).
  { intros f rest q' t. cbn [Sequential_run Sequential_stage].
    destruct (f t); reflexivity. }
  destruct (complex_inputs q), (complex_outputs q); cbn [negb].
  - rewrite HInput.
    destruct (Input_tensor [input_dim q] complex128) as [t0|e]; [|reflexivity].
    rewrite !Hbind. cbn [fst snd app].
    rewrite (Hrest [Input [input_dim q] complex128] t0 [] (fun m => Ok m) Hnone).
    cbn [Sequential_run Sequential_stage Py.bind fst snd app].
    now rewrite !app_nil_r.
  - rewrite HInput.
    destruct (Input_tensor [input_dim q] complex128) as [t0|e]; [|reflexivity].
    rewrite !Hbind. cbn [fst snd app].
    rewrite (Hrest [Input [input_dim q] complex128] t0
               [Lambda lambda_tf_to_k_complex] _ Hlambda).
    cbn [Sequential_run Sequential_stage Py.bind fst snd app]. reflexivity.
  - rewrite HInput.
    destruct (Input_tensor [Py.Int 2; input_dim q] float64) as [t0|e]; [|reflexivity].
    rewrite !Hbind. cbn [fst snd app].
    rewrite Sequential_add_layer by discriminate.
    rewrite HrunInput, HrunLambda. cbn [Sequential_stage].
    destruct (lambda_k_to_tf_complex t0) as [t1|e]; [|reflexivity].
    rewrite !Hbind. cbn [fst snd app].
    rewrite (Hrest [Input [Py.Int 2; input_dim q] float64;
                    Lambda lambda_k_to_tf_complex] t1 [] (fun m => Ok m) Hnone).
    now rewrite !app_nil_r.
  - rewrite HInput.
    destruct (Input_tensor [Py.Int 2; input_dim q] float64) as [t0|e]; [|reflexivity].
    rewrite !Hbind. cbn [fst snd app].
    rewrite Sequential_add_layer by discriminate.
    rewrite HrunInput, HrunLambda. cbn [Sequential_stage].
    destruct (lambda_k_to_tf_complex t0) as [t1|e]; [|reflexivity].
    rewrite !Hbind. cbn [fst snd app].
    rewrite (Hrest [Input [Py.Int 2; input_dim q] float64;
                    Lambda lambda_k_to_tf_complex] t1
               [Lambda lambda_tf_to_k_complex] _ Hlambda).
    reflexivity.
Qed.

Lemma QPGA_call_loop_lengths initializers : forall cps sqs k x cps' sqs' y,
  QPGA_call_loop initializers k cps sqs x = Ok (cps', sqs', y) ->
  length cps' = length cps /\ length sqs' = length sqs.
Proof.
  induction cps as [|c cps IH]; intros sqs k x cps' sqs' y H.
  - simpl in H. injection H as <- <- <-. now split.
  - destruct sqs as [|s sqs].
    + simpl in H. injection H as <- <- <-. now split.
    + cbn [QPGA_call_loop] in H.
      destruct (CPhaseLayer_apply c x) as [[c' x1]|e]; [|discriminate].
      cbn [Py.bind fst snd] in H.
      destruct (SingleQubitOperationLayer_apply _ s x1) as [[s' x2]|e]; [|discriminate].
      cbn [Py.bind fst snd] in H.
      destruct (QPGA_call_loop initializers (S k) cps sqs x2)
        as [[[cps2 sqs2] x3]|e] eqn:E; [|discriminate].
      cbn [Py.bind fst snd] in H. injection H as <- <- <-.
      destruct (IH _ _ _ _ _ _ E) as [H1 H2]. simpl. now rewrite H1, H2.
Qed.

(** A forward pass does not change the stages that [as_sequential] adds:
    they depend on the flags, on [input_dim] and on the number of layer
    pairs only. *)
Lemma QPGA_call_stages initializers q inputs q' out :
  QPGA_call initializers q inputs = Ok (q', out) ->
  sequential_stages q' = sequential_stages q.
Proof.
  unfold QPGA_call. intros H.
  destruct (if negb (complex_inputs q) then _ else _) as [t|e]; [|discriminate].
  cbn [Py.bind] in H.
  destruct (expect_complex t) as [x|e]; [|discriminate]. cbn [Py.bind] in H.
  destruct (SingleQubitOperationLayer_apply _ (input_layer q) x) as [[l0 x0]|e];
    [|discriminate].
  cbn [Py.bind fst snd] in H.
  destruct (QPGA_call_loop initializers 0 (cphase_layers q) (single_qubit_layers q) x0)
    as [[[cps sqs] x1]|e] eqn:E; [|discriminate].
  cbn [Py.bind fst snd] in H.
  destruct (QPGA_call_loop_lengths _ _ _ _ _ E) as [L1 L2].
  destruct (if negb (complex_outputs q) then _ else _) as [t'|e]; [|discriminate].
  cbn [Py.bind] in H. injection H as <- _.
  unfold sequential_stages.
  cbn [with_layers complex_inputs complex_outputs input_dim cphase_layers
       single_qubit_layers].
  now rewrite L1, L2.
Qed.

(** C7.  The pipeline that [as_sequential] returns for a circuit computes,
    on every input, what the forward pass of the circuit computes: the
    same result or the same failure, and the same state of the layers.
    The pipeline holds the layer objects of the circuit, in the order of
    the forward pass, between the conversions that the flags
    [complex_inputs] and [complex_outputs] ask for; [q'] is the circuit
    as [as_sequential] leaves it, [Sequential.add] having called its
    layers.  The same holds with the layers in the state [q] they had
    before. *)
Theorem as_sequential_same_as_call (initializers : nat -> SQInit) (q q' : QPGA)
    (model : Sequential) :
  as_sequential initializers q = Ok (q', model) ->
  forall (initializers' : nat -> SQInit) (inputs : tensor),
    Sequential_call initializers' model q' inputs
    = QPGA_call initializers' q' inputs /\
    Sequential_call initializers' model q inputs
    = QPGA_call initializers' q inputs.
Proof.
  intros H initializers' inputs. rewrite as_sequential_run in H.
  destruct (sequential_input q) as [t0|e]; [|discriminate]. cbn [Py.bind] in H.
  rewrite Sequential_run_stages in H.
  destruct (QPGA_call initializers q t0) as [[q1 out]|e] eqn:E; [|discriminate].
  cbn [Py.bind fst] in H. injection H as <- <-.
  unfold Sequential_call. cbn [seq_layers]. split.
  - rewrite <- (QPGA_call_stages _ _ _ E). apply Sequential_run_stages.
  - apply Sequential_run_stages.
Qed.

(** The symbolic input of a circuit on [n >= 0] qubits is a well-formed
    input of the circuit. *)
Lemma sequential_input_ok n d ci co std initializers q :
  (0 <= n)%Z -> circuit_state n d ci co std initializers q ->
  exists t0,
    sequential_input q = Ok t0 /\ well_formed_input ci (dim n) t0 = true.
Proof.
  intros Hn (_ & Hd & _ & Hci & _).
  unfold sequential_input. rewrite Hd, Hci, pow2_value_nonneg by assumption.
  assert (H2 : (0 <=? 2 ^ n)%Z = true).
  { apply Z.leb_le. apply Z.pow_nonneg. lia. }
  destruct ci; cbn [negb Input_tensor dimension]; rewrite H2;
    cbn [Py.require Py.bind]; eexists; (split; [reflexivity|]).
  - cbn [well_formed_input has_width forallb andb].
    fold (dim n). now rewrite repeat_length, Nat.eqb_refl.
  - cbn [well_formed_input well_formed_real negb forallb andb Z.to_nat].
    change (Pos.to_nat 2) with 2%nat.
    cbn [repeat length Nat.eqb forallb andb]. fold (dim n).
    now rewrite repeat_length, Nat.eqb_refl.
Qed.

(** For a circuit on [n >= 1] qubits, as the constructor made it or as a
    forward pass left it, [as_sequential] returns, and it leaves all the
    layers built. *)
Lemma as_sequential_ok n d ci co std initializers q :
  (1 <= n)%Z ->
  has_shape 2 2 BS_MATRIX = true ->
  has_shape 4 4 CPHASE = true ->
  has_shape 4 4 CPHASE_MOD = true ->
  circuit_state n d ci co std initializers q ->
  as_sequential initializers q
  = Ok (built_circuit n d ci co std initializers,
        {| seq_layers := sequential_stages q;
           seq_num_qubits := n;
           seq_complex_inputs := ci;
           seq_complex_outputs := co |}).
Proof.
  intros Hn HB H1 H2 Hq.
  destruct (@sequential_input_ok n d ci co std initializers q ltac:(lia) Hq)
    as (t0 & Ht0 & Hwf).
  rewrite as_sequential_run, Ht0. cbn [Py.bind].
  rewrite Sequential_run_stages.
  rewrite (@QPGA_call_ok n d ci co std initializers q t0 Hn HB H1 H2 Hq Hwf).
  cbn [Py.bind fst].
  destruct Hq as (-> & _ & _ & -> & -> & _). reflexivity.
Qed.

(** ** Unitarity of the layers *)

Lemma inner_zeros_l k : forall w, inner (repeat C0 k) w = C0.
Proof.
  induction k as [|k IH]; intros [|b w]; try reflexivity.
  simpl repeat. rewrite inner_cons, IH. lca.
Qed.

Lemma orthonormal_cons_zero_column D :
  orthonormal D -> orthonormal (map (cons C0) D).
Proof.
  induction D as [|r D IH]; simpl; auto.
  intros (Hr & Hrs & HD). repeat split; auto.
  - rewrite inner_cons, Hr. lca.
  - rewrite Forall_map. eapply Forall_impl; [|exact Hrs].
    simpl. intros s Hs. rewrite inner_cons, Hs. lca.
Qed.

Lemma orthonormal_tensor_diag v :
  Forall (fun z => Cnorm2 z = 1%R) v -> orthonormal (tensor_diag v).
Proof.
  induction 1 as [|c v Hc _ IH]; simpl; auto. repeat split.
  - rewrite inner_cons, inner_zeros_l. csimpl. f_equal; lra.
  - rewrite Forall_map. apply Forall_forall. intros s _.
    rewrite inner_cons, inner_zeros_l. lca.
  - now apply orthonormal_cons_zero_column.
Qed.

Lemma unitary_tensor_diag v :
  Forall (fun z => Cnorm2 z = 1%R) v -> unitary (length v) (tensor_diag v).
Proof.
  intros H. split; [apply tensor_diag_has_shape|now apply orthonormal_tensor_diag].
Qed.

Lemma unitary_identity d : unitary d (identity_matrix d).
Proof.
  unfold identity_matrix.
  pose proof (@unitary_tensor_diag (repeat C1 d)) as H.
  rewrite repeat_length in H. apply H.
  apply Forall_forall. intros z Hz. apply repeat_spec in Hz. subst.
  csimpl. ring.
Qed.

Lemma unitary_phase_diagonal n u v :
  (0 <= n)%Z -> length u = Z.to_nat n -> length v = Z.to_nat n ->
  unitary (dim n) (phase_diagonal u v).
Proof.
  intros Hn Hu Hv. rewrite phase_diagonal_tensor_diag.
  set (rows := map (fun p => [phase (fst p); phase (snd p)]) (combine u v)).
  assert (Hlen : length (fold_right kron_row [C1] rows) = dim n).
  { rewrite pow2_length_kron_rows.
    - unfold rows. rewrite length_map, length_combine, dim_pow by assumption.
      f_equal. lia.
    - unfold rows. rewrite Forall_map. apply Forall_forall. reflexivity. }
  rewrite <- Hlen. apply unitary_tensor_diag, unit_modulus_kron_rows.
  unfold rows. rewrite Forall_map. apply Forall_forall. intros p _.
  repeat constructor; apply Cnorm2_phase.
Qed.

Lemma unitary_beam_splitter_power n :
  (0 <= n)%Z -> unitary 2 BS_MATRIX -> unitary (dim n) (beam_splitter_power n).
Proof.
  intros Hn HB. rewrite dim_pow by assumption. unfold beam_splitter_power.
  rewrite <- fold_mul_repeat.
  apply unitary_kronecker_product. now apply Forall2_repeat.
Qed.

Lemma unitary_IDENTITY : unitary 2 IDENTITY.
Proof. rewrite IDENTITY_identity_matrix. apply unitary_identity. Qed.

Lemma unitary_entangling_matrix n parity std :
  (1 <= n)%Z -> unitary 4 CPHASE -> unitary 4 CPHASE_MOD ->
  unitary (dim n) (entangling_matrix n parity std).
Proof.
  intros Hn H1 H2.
  destruct (@entangling_blocks_form n parity std Hn) as (p & k & q & E & Hsum).
  unfold entangling_matrix. rewrite E, dim_pow, <- Hsum, <- block_dims by lia.
  apply unitary_kronecker_product.
  repeat apply Forall2_app_intro; apply Forall2_repeat;
    try apply unitary_IDENTITY.
  unfold cphase_gate. now destruct std.
Qed.

Lemma unitary_matrix_product d Ms :
  (0 < d)%nat -> Forall (unitary d) Ms -> unitary d (matrix_product d Ms).
Proof.
  intros Hd HMs. unfold matrix_product.
  pose proof (unitary_identity d) as HI. revert HI.
  generalize (identity_matrix d).
  induction HMs as [|M Ms HM _ IH]; intros X HX; simpl; auto.
  apply IH. now apply unitary_matmul.
Qed.

Lemma unitary_layer_matrix n i :
  (0 <= n)%Z -> unitary 2 BS_MATRIX -> unitary (dim n) (layer_matrix_of_draw n i).
Proof.
  intros Hn HB. unfold layer_matrix_of_draw, single_qubit_matrix.
  apply unitary_matrix_product; [now apply dim_pos|].
  pose proof (@unitary_beam_splitter_power n Hn HB).
  unfold single_qubit_factors.
  assert (HP : forall f g,
             length g = Z.to_nat n ->
             unitary (dim n) (phase_diagonal (drawn n f) g)).
  { intros f g Hg. apply unitary_phase_diagonal; auto. apply drawn_length. }
  repeat (apply Forall_cons; [first [exact H | apply HP]|]);
    rewrite ?zeros_like_length, ?drawn_length; auto.
Qed.

Lemma unitary_circuit_matrices n d std initializers :
  (1 <= n)%Z -> unitary 2 BS_MATRIX ->
  unitary 4 CPHASE -> unitary 4 CPHASE_MOD ->
  Forall (unitary (dim n)) (circuit_matrices n d std initializers).
Proof.
  intros Hn HB H1 H2. unfold circuit_matrices. constructor.
  - apply unitary_layer_matrix; auto; lia.
  - induction (seq 0 (Z.to_nat d)) as [|i l IH]; simpl; auto.
    constructor; [now apply unitary_entangling_matrix|].
    constructor; [apply unitary_layer_matrix; auto; lia|exact IH].
Qed.

(** Multiplying normalized rows by unitary matrices keeps them
    normalized. *)
Lemma matmul_unitary_norm d M X :
  unitary d M -> has_width d X = true ->
  Forall (fun s => norm s = 1%R) X ->
  Forall (fun s => norm s = 1%R) (matmul X M).
Proof.
  intros HM HW HX. apply has_width_Forall in HW.
  unfold matmul. rewrite Forall_map.
  rewrite Forall_forall in *. intros s Hs.
  unfold norm. rewrite (@norm2_vecmat_unitary d M s HM (HW s Hs)).
  exact (HX s Hs).
Qed.

Lemma apply_matrices_unitary_norm d Ms : forall X,
  (0 < d)%nat -> Forall (unitary d) Ms -> has_width d X = true ->
  Forall (fun s => norm s = 1%R) X ->
  Forall (fun s => norm s = 1%R) (apply_matrices X Ms).
Proof.
  induction Ms as [|M Ms IH]; intros X Hd HMs HW HX; simpl; auto.
  inversion HMs as [|? ? HM HMs']; subst.
  apply IH; auto.
  - apply matmul_has_width with (d := d); auto. apply HM.
  - now apply matmul_unitary_norm with (d := d).
Qed.

Lemma k_to_tf_complex_tf_to_k_complex y :
  k_to_tf_complex (tf_to_k_complex y) = y.
Proof.
  unfold k_to_tf_complex, tf_to_k_complex. rewrite map_map.
  rewrite <- (map_id y) at 2. apply map_ext. intros r. simpl.
  induction r as [|[a b] r IH]; simpl; auto. now rewrite IH.
Qed.

Lemma states_of_encode_output co y : states_of (encode_output co y) = y.
Proof.
  destruct co; simpl; auto. apply k_to_tf_complex_tf_to_k_complex.
Qed.

Lemma unitary_has_shape d M : unitary d M -> has_shape d d M = true.
Proof. now intros [H _]. Qed.

(** C8.  When the gate constants are unitary (beam splitter 2x2,
    controlled-phase gates 4x4), every transfer matrix of a circuit on
    [n >= 1] qubits of depth [d >= 0] is unitary, whatever the phases, and
    the forward map sends a batch of states of norm 1 to states of norm 1,
    in either encoding of input and output. *)
Theorem QPGA_preserves_norm (n d : Z) (ci co std : bool)
    (initializers : nat -> SQInit) (q : QPGA) (inputs : tensor) :
  (1 <= n)%Z -> (0 <= d)%Z ->
  unitary 2 BS_MATRIX -> unitary 4 CPHASE -> unitary 4 CPHASE_MOD ->
  QPGA_init n d ci co std = Ok q ->
  well_formed_input ci (dim n) inputs = true ->
  Forall (fun s => norm s = 1%R) (states_of inputs) ->
  Forall (unitary (dim n)) (circuit_matrices n d std initializers) /\
  exists q' out,
    QPGA_call initializers q inputs = Ok (q', out) /\
    Forall (fun s => norm s = 1%R) (states_of out) /\
    QPGA_call initializers q' inputs = Ok (q', out).
Proof.
  intros Hn Hd HB H1 H2 Hq Hin Hnorm.
  pose proof (@unitary_circuit_matrices n d std initializers Hn HB H1 H2) as HU.
  split; [exact HU|].
  exists (built_circuit n d ci co std initializers).
  eexists. split; [|split].
  - apply QPGA_call_ok; auto using unitary_has_shape.
    now apply QPGA_init_state.
  - rewrite states_of_encode_output.
    apply apply_matrices_unitary_norm with (d := dim n); auto.
    + apply dim_pos; lia.
    + now apply well_formed_input_states with (ci := ci).
  - apply QPGA_call_ok; auto using unitary_has_shape.
    apply built_circuit_state.
Qed.

(** ** The antifidelity *)

Lemma combine_map_l {A B D : Type} (f : A -> D) (u : list A) : forall (v : list B),
  combine (map f u) v = map (fun p => (f (fst p), snd p)) (combine u v).
Proof.
  induction u as [|a u IH]; intros [|b v]; simpl; auto. now rewrite IH.
Qed.

Lemma same_shape_well_formed d t p :
  has_width d t = true -> has_width d p = true -> length t = length p ->
  same_shape (tf_conj t) p = true.
Proof.
  intros Ht Hp Hlen. unfold same_shape, tf_conj.
  rewrite length_map, Hlen, Nat.eqb_refl. simpl.
  apply forallb_forall. intros [a b] Hab. simpl.
  rewrite combine_map_l in Hab. apply in_map_iff in Hab.
  destruct Hab as ([a' b'] & E & Hin). simpl in E. injection E as <- <-.
  apply has_width_Forall in Ht, Hp. rewrite Forall_forall in Ht, Hp.
  rewrite length_map, (Ht a'), (Hp b'); [apply Nat.eqb_refl| |].
  - eapply in_combine_r; eauto.
  - eapply in_combine_l; eauto.
Qed.

Lemma antifidelity_value d state_true state_pred :
  well_formed_real d state_true = true ->
  well_formed_real d state_pred = true ->
  length state_true = length state_pred ->
  antifidelity state_true state_pred
  = Ok (map (fun tp => (1 - Cnorm2 (overlap (fst tp) (snd tp)))%R)
            (combine (k_to_tf_complex state_true) (k_to_tf_complex state_pred))).
Proof.
  intros Ht Hp Hlen. unfold antifidelity, tf_multiply.
  rewrite (@same_shape_well_formed d).
  - cbn [Py.require Py.bind]. f_equal.
    unfold reduce_sum_1, tf_conj. rewrite !map_map, combine_map_l, map_map.
    apply map_ext. intros [a b]. cbn [fst snd].
    rewrite Cabs_sqr. unfold overlap. rewrite combine_map_l, map_map. reflexivity.
  - now apply k_to_tf_complex_has_width.
  - now apply k_to_tf_complex_has_width.
  - unfold k_to_tf_complex. now rewrite !length_map.
Qed.

Lemma norm_1_norm2 s : norm s = 1%R -> norm2 s = 1%R.
Proof.
  unfold norm. intros H.
  rewrite <- (sqrt_sqrt (norm2 s)) by apply norm2_nonneg.
  rewrite H. ring.
Qed.

(** The sums that the Cauchy-Schwarz inequality is about, over the pairs
    of entries of two rows. *)
Lemma overlap_expansion (c : C) (l : list (C * C)) :
  fold_right Rplus 0%R
    (map (fun ab => Cnorm2 (Cadd (snd ab) (Cmul (Cmul (-1, 0)%R c) (fst ab)))) l)
  = (fold_right Rplus 0%R (map (fun ab => Cnorm2 (snd ab)) l)
     - 2 * (fst c * fst (fold_right Cadd C0
                           (map (fun ab => Cmul (Cconj (fst ab)) (snd ab)) l))
            + snd c * snd (fold_right Cadd C0
                             (map (fun ab => Cmul (Cconj (fst ab)) (snd ab)) l)))
     + Cnorm2 c * fold_right Rplus 0%R (map (fun ab => Cnorm2 (fst ab)) l))%R.
Proof.
  induction l as [|[a b] l IH]; simpl.
  - csimpl. ring.
  - rewrite IH. csimpl. ring.
Qed.

Lemma sum_nonneg (l : list R) :
  Forall (fun r => (0 <= r)%R) l -> (0 <= fold_right Rplus 0%R l)%R.
Proof.
  induction 1 as [|r l Hr _ IH]; simpl; lra.
Qed.

Lemma norm2_combine_l (a : list C) : forall b : list C,
  length a = length b ->
  fold_right Rplus 0%R (map (fun ab => Cnorm2 (fst ab)) (combine a b)) = norm2 a.
Proof.
  unfold norm2. induction a as [|x a IH]; intros [|y b] H; try discriminate; auto.
  simpl. rewrite IH by (simpl in H; lia). reflexivity.
Qed.

Lemma norm2_combine_r (a : list C) : forall b : list C,
  length a = length b ->
  fold_right Rplus 0%R (map (fun ab => Cnorm2 (snd ab)) (combine a b)) = norm2 b.
Proof.
  unfold norm2. induction a as [|x a IH]; intros [|y b] H; try discriminate; auto.
  simpl. rewrite IH by (simpl in H; lia). reflexivity.
Qed.

(** Cauchy-Schwarz for two normalized rows. *)
Lemma overlap_le_1 (a b : list C) :
  length a = length b -> norm2 a = 1%R -> norm2 b = 1%R ->
  (Cnorm2 (overlap a b) <= 1)%R.
Proof.
  intros Hlen Ha Hb.
  pose proof (overlap_expansion (overlap a b) (combine a b)) as E.
  rewrite (norm2_combine_l _ _ Hlen), (norm2_combine_r _ _ Hlen), Ha, Hb in E.
  fold (overlap a b) in E.
  assert (Hpos : (0 <= fold_right Rplus 0%R
                    (map (fun ab : C * C =>
                            Cnorm2 (Cadd (snd ab)
                                      (Cmul (Cmul (-1, 0)%R (overlap a b)) (fst ab))))
                         (combine a b)))%R).
  { apply sum_nonneg. rewrite Forall_map. apply Forall_forall.
    intros ab _. apply Cnorm2_nonneg. }
  rewrite E in Hpos. unfold Cnorm2 in *. lra.
Qed.

Lemma overlap_self (a : list C) : overlap a a = (norm2 a, 0%R).
Proof.
  unfold overlap, norm2. induction a as [|x a IH]; simpl; auto.
  rewrite IH. lca.
Qed.

Lemma overlap_inner (a b : list C) : overlap a b = inner b a.
Proof.
  unfold overlap, inner. revert b.
  induction a as [|x a IH]; intros [|y b]; simpl; auto.
  rewrite IH. f_equal. apply Cmul_comm.
Qed.

Lemma k_to_tf_complex_basis_state d i :
  k_to_tf_complex [basis_state d i]
  = [map (fun k => ((if Nat.eqb k i then 1 else 0)%R, 0%R)) (seq 0 d)].
Proof.
  unfold k_to_tf_complex, basis_state. simpl. f_equal.
  generalize 0%nat. induction d as [|d IH]; intros s; simpl; auto.
  now rewrite IH.
Qed.

Lemma overlap_basis_states i j (l : list nat) :
  i <> j ->
  overlap (map (fun k => ((if Nat.eqb k i then 1 else 0)%R, 0%R)) l)
          (map (fun k => ((if Nat.eqb k j then 1 else 0)%R, 0%R)) l) = C0.
Proof.
  intros Hij. unfold overlap. induction l as [|k l IH]; simpl; auto.
  rewrite IH.
  destruct (Nat.eqb_spec k i), (Nat.eqb_spec k j); try lia; lca.
Qed.

Lemma well_formed_basis_state d i : well_formed_real d [basis_state d i] = true.
Proof.
  unfold well_formed_real, basis_state. simpl.
  now rewrite length_map, length_seq, repeat_length, Nat.eqb_refl.
Qed.

Lemma combine_same_Forall {A : Type} (P : A * A -> Prop) (l : list A) :
  Forall (fun a => P (a, a)) l -> Forall P (combine l l).
Proof. induction 1; simpl; constructor; auto. Qed.

Lemma has_width_combine d (t p : list (list C)) :
  has_width d t = true -> has_width d p = true ->
  Forall (fun tp => length (fst tp) = length (snd tp)) (combine t p).
Proof.
  intros Ht Hp. apply has_width_Forall in Ht, Hp.
  rewrite Forall_forall in *. intros [a b] Hab. simpl.
  rewrite (Ht a), (Hp b); eauto using in_combine_l, in_combine_r.
Qed.

(** C9.  On two batches of equal size in the real encoding, the
    antifidelity returns, row by row, one minus the squared modulus of the
    sum of [conj(true_k) * pred_k] over the complex forms of the rows.
    Hence for normalized states every value lies in [0, 1] and the
    antifidelity of a batch against itself is 0; and the antifidelity of two
    different basis states is 1. *)
Theorem antifidelity_spec (d : nat) (state_true state_pred : rtensor) :
  well_formed_real d state_true = true ->
  well_formed_real d state_pred = true ->
  length state_true = length state_pred ->
  let t := k_to_tf_complex state_true in
  let p := k_to_tf_complex state_pred in
  (exists v,
     antifidelity state_true state_pred = Ok v /\
     v = map (fun tp => (1 - Cabs (overlap (fst tp) (snd tp)) ^ 2)%R) (combine t p) /\
     (Forall (fun s => norm s = 1%R) t -> Forall (fun s => norm s = 1%R) p ->
      Forall (fun a => (0 <= a <= 1)%R) v)) /\
  (Forall (fun s => norm s = 1%R) t ->
   exists v0,
     antifidelity state_true state_true = Ok v0 /\
     length v0 = length state_true /\
     Forall (fun a => a = 0%R) v0) /\
  (forall i j, (i < d)%nat -> (j < d)%nat -> i <> j ->
     antifidelity [basis_state d i] [basis_state d j] = Ok [1%R]).
Proof.
  intros Ht Hp Hlen. cbv zeta.
  pose proof (k_to_tf_complex_has_width _ _ Ht) as Wt.
  pose proof (k_to_tf_complex_has_width _ _ Hp) as Wp.
  split; [|split].
  - eexists. split; [exact (antifidelity_value _ _ _ Ht Hp Hlen)|]. split.
    + apply map_ext. intros tp. now rewrite Cabs_sqr.
    + intros Nt Np. rewrite Forall_map.
      pose proof (has_width_combine _ _ _ Wt Wp) as HL.
      rewrite Forall_forall in *. intros [a b] Hab. cbn [fst snd].
      pose proof (Cnorm2_nonneg (overlap a b)).
      pose proof (@overlap_le_1 a b (HL _ Hab)
                    (norm_1_norm2 _ (Nt a (in_combine_l _ _ _ _ Hab)))
                    (norm_1_norm2 _ (Np b (in_combine_r _ _ _ _ Hab)))).
      lra.
  - intros Nt. eexists.
    split; [exact (antifidelity_value _ _ _ Ht Ht eq_refl)|]. split.
    + rewrite length_map, length_combine. unfold k_to_tf_complex.
      rewrite length_map. apply Nat.min_id.
    + rewrite Forall_map. apply combine_same_Forall.
      eapply Forall_impl; [|exact Nt]. intros s Hs. cbn [fst snd].
      rewrite overlap_self, (norm_1_norm2 _ Hs). csimpl. ring.
  - intros i j Hi Hj Hij.
    rewrite (antifidelity_value d) by (auto using well_formed_basis_state).
    rewrite !k_to_tf_complex_basis_state. cbn [combine map fst snd].
    rewrite overlap_basis_states by assumption. do 2 f_equal. csimpl. ring.
Qed.

(** ** Construction *)

(** C6 (amended).  The constructor validates nothing.  It returns a
    circuit whenever [2 ** num_qubits] has a value, also for
    [num_qubits <= 0] and for [depth < 0]: the circuit holds the initial
    Single-Qubit layer and one (Entangling, Single-Qubit) pair per element
    of [range(depth)], hence no pair at all when [depth <= 0].  It fails
    only where [2 ** num_qubits] fails: with an overflow error, when
    [num_qubits] is negative and too large to convert to a float. *)
Theorem QPGA_init_no_validation (n d : Z) (ci co std : bool) :
  ((- Py.float_limit < n)%Z ->
   exists q l0,
     QPGA_init n d ci co std = Ok q /\
     SingleQubitOperationLayer_init n = Ok l0 /\
     num_qubits q = n /\ depth q = d /\
     input_layer q = l0 /\
     Forall2 (fun i l => CPhaseLayer_init n (Z.of_nat i mod 2) std = Ok l)
             (seq 0 (Z.to_nat d)) (cphase_layers q) /\
     single_qubit_layers q = repeat l0 (Z.to_nat d) /\
     ((d <= 0)%Z -> cphase_layers q = [] /\ single_qubit_layers q = [])) /\
  ((n <= - Py.float_limit)%Z ->
   QPGA_init n d ci co std = Err OverflowError).
Proof.
  split; [|apply QPGA_init_overflow].
  intros Hn. do 2 eexists.
  split; [now apply QPGA_init_layers|].
  split; [now apply SingleQubitOperationLayer_init_ok|].
  cbn [num_qubits depth input_layer cphase_layers single_qubit_layers].
  do 3 (split; [reflexivity|]). split; [|split].
  - induction (seq 0 (Z.to_nat d)) as [|i l IH]; cbn [map]; constructor; auto.
    now apply CPhaseLayer_init_ok.
  - generalize 0%nat. induction (Z.to_nat d) as [|k IH]; intros s; simpl; auto.
    now rewrite IH.
  - intros Hd. replace (Z.to_nat d) with 0%nat by lia. split; reflexivity.
Qed.

(** Without a positive number of qubits the circuit fails later, at its
    first forward pass, when the input layer is built. *)
Lemma SingleQubitOperationLayer_build_fails n initializer x :
  (n <= 0)%Z ->
  exists e,
    SingleQubitOperationLayer_build initializer (unbuilt_single n) x
    = Err e.
Proof.
  intros Hn. unfold SingleQubitOperationLayer_build.
  cbn [sq_output_dim sq_num_qubits unbuilt_single].
  destruct (Py.assert _) as [[]|e]; [|eexists; reflexivity]. cbn [Py.bind].
  unfold add_weight. destruct (Z.leb_spec 0 n) as [H0|H0].
  - assert (n = 0%Z) by lia. subst n. cbn. eexists. reflexivity.
  - cbn. eexists. reflexivity.
Qed.

Lemma QPGA_call_fails_nonpositive n d ci co std initializers q inputs :
  (n <= 0)%Z -> QPGA_init n d ci co std = Ok q ->
  exists e, QPGA_call initializers q inputs = Err e.
Proof.
  intros Hn Hq. destruct (QPGA_init_inv _ _ _ _ _ Hq) as [_ ->]. clear Hq.
  unfold QPGA_call. cbn [complex_inputs input_layer].
  destruct (if negb ci then lambda_k_to_tf_complex inputs else Ok inputs)
    as [t|e]; [|eexists; reflexivity]. cbn [Py.bind].
  destruct (expect_complex t) as [x|e]; [|eexists; reflexivity]. cbn [Py.bind].
  unfold SingleQubitOperationLayer_apply at 1.
  cbn [sq_built unbuilt_single].
  destruct (@SingleQubitOperationLayer_build_fails n (initializers O) x Hn)
    as (e & ->).
  eexists. reflexivity.
Qed.

(** X12.  A circuit constructed with [num_qubits <= 0] cannot run: its
    forward pass fails on every input (at the latest when the input layer
    is built, which needs at least one qubit). *)
Theorem QPGA_call_fails_without_qubits n d ci co std initializers q inputs :
  (n <= 0)%Z -> QPGA_init n d ci co std = Ok q ->
  exists e, QPGA_call initializers q inputs = Err e.
Proof. apply QPGA_call_fails_nonpositive. Qed.

(** ** Phases changed after the layer is built *)

Lemma SingleQubitOperationLayer_call_stored attrs attrs' x :
  stored_factors attrs' = stored_factors attrs ->
  SingleQubitOperationLayer_call attrs' x = SingleQubitOperationLayer_call attrs x.
Proof.
  unfold stored_factors, SingleQubitOperationLayer_call.
  intros E. injection E as E1 E2 E3 _ E5. now rewrite E1, E2, E3, E5.
Qed.

(** A forward pass after the variables were assigned new values.  Under
    eager execution it returns what it returned before the assignment.
    Under graph execution it multiplies by the matrices derived from the
    new values. *)
Lemma SingleQubitOperationLayer_forward_assigned n initializer a b t p attrs' x :
  (1 <= n)%Z -> has_shape 2 2 BS_MATRIX = true -> has_width (dim n) x = true ->
  SingleQubitOperationLayer_set_weights [a; b; t; p] (initial_attrs n initializer)
  = Ok attrs' ->
  alphas attrs' = a /\ betas attrs' = b /\ thetas attrs' = t /\ phis attrs' = p /\
  SingleQubitOperationLayer_forward EagerExecution attrs' x
  = SingleQubitOperationLayer_call (initial_attrs n initializer) x /\
  SingleQubitOperationLayer_forward GraphExecution attrs' x
  = Ok (apply_matrices x (single_qubit_factors n a b t p)).
Proof.
  intros Hn HB Hx Hset.
  unfold SingleQubitOperationLayer_set_weights in Hset.
  destruct (_ && _)%bool eqn:Hlen in Hset; [|discriminate].
  cbn [Py.require Py.bind] in Hset. injection Hset as <-.
  apply andb_prop in Hlen. destruct Hlen as [Hlen Hp].
  apply andb_prop in Hlen. destruct Hlen as [Hlen Ht].
  apply andb_prop in Hlen. destruct Hlen as [Ha Hb].
  apply Nat.eqb_eq in Ha, Hb, Ht, Hp.
  unfold initial_attrs in Ha, Hb, Ht, Hp.
  cbn [alphas betas thetas phis derived_attrs] in Ha, Hb, Ht, Hp.
  rewrite drawn_length in Ha, Hb, Ht, Hp.
  cbn [alphas betas thetas phis]. do 4 (split; [reflexivity|]). split.
  - unfold SingleQubitOperationLayer_forward.
    cbn [SingleQubitOperationLayer_read Py.bind].
    now apply SingleQubitOperationLayer_call_stored.
  - unfold SingleQubitOperationLayer_forward.
    rewrite (@SingleQubitOperationLayer_read_graph n) by (assumption || reflexivity).
    cbn [Py.bind alphas betas thetas phis].
    rewrite (@SingleQubitOperationLayer_call_ok n) by
      (try lia; try assumption; apply derived_attrs_shaped; (lia || assumption)).
    now rewrite stored_factors_derived.
Qed.

(** * Further properties of the code *)

(** ** Configs *)

Lemma dict_get_set_same k v d : dict_get k (dict_set k v d) = Some v.
Proof.
  induction d as [|[k' v'] d IH]; simpl.
  - now rewrite String.eqb_refl.
  - destruct (String.eqb_spec k k') as [E|E]; simpl.
    + now rewrite String.eqb_refl.
    + destruct (String.eqb_spec k k'); [contradiction|exact IH].
Qed.

Lemma dict_get_set_other k k' v d :
  k <> k' -> dict_get k' (dict_set k v d) = dict_get k' d.
Proof.
  intros Hk. induction d as [|[k0 v0] d IH]; simpl.
  - destruct (String.eqb_spec k' k); [congruence|reflexivity].
  - destruct (String.eqb_spec k k0) as [E|E]; simpl.
    + subst k0. destruct (String.eqb_spec k' k); [congruence|reflexivity].
    + destruct (String.eqb_spec k' k0); [reflexivity|exact IH].
Qed.

Lemma dict_keys_set k v d k' :
  In k' (dict_keys (dict_set k v d)) <-> k' = k \/ In k' (dict_keys d).
Proof.
  unfold dict_keys. induction d as [|[k0 v0] d IH]; simpl.
  - intuition.
  - destruct (String.eqb_spec k k0) as [E|E]; simpl.
    + subst k0. intuition.
    + rewrite IH. intuition.
Qed.

Lemma dict_keys_set_NoDup k v d :
  NoDup (dict_keys d) -> NoDup (dict_keys (dict_set k v d)).
Proof.
  induction d as [|[k0 v0] d IH]; simpl; intros H.
  - repeat constructor. intros [].
  - inversion H as [|? ? Hn Hd]; subst.
    destruct (String.eqb_spec k k0) as [E|E]; simpl.
    + subst k0. now constructor.
    + constructor; [|now apply IH].
      fold (dict_keys (dict_set k v d)). rewrite dict_keys_set.
      intros [E'|E']; [congruence|contradiction].
Qed.

(** X1.  The config of a Single-Qubit layer maps [num_qubits] to the
    layer's number of qubits, whatever the base config holds under that
    name; every other entry of the base config is kept; no other key is
    added (in particular none named [output_dim]); keys stay distinct. *)
Theorem SingleQubitOperationLayer_get_config_entries (base : config)
    (self : SingleQubitOperationLayer) :
  let cfg := SingleQubitOperationLayer_get_config base self in
  dict_get "num_qubits"%string cfg = Some (ConfigInt (sq_num_qubits self)) /\
  (forall k, k <> "num_qubits"%string -> dict_get k cfg = dict_get k base) /\
  (forall k, In k (dict_keys cfg) <->
             k = "num_qubits"%string \/ In k (dict_keys base)) /\
  (NoDup (dict_keys base) -> NoDup (dict_keys cfg)).
Proof.
  cbv zeta. unfold SingleQubitOperationLayer_get_config, dict_update. cbn [fold_left fst snd].
  split; [apply dict_get_set_same|]. split; [|split].
  - intros k Hk. apply dict_get_set_other. congruence.
  - intros k. apply dict_keys_set.
  - apply dict_keys_set_NoDup.
Qed.

(** X2.  The config of an Entangling layer maps [num_qubits], [parity]
    and [use_standard_cphase] to the layer's attributes, whatever the base
    config holds under these names; every other entry of the base config
    is kept; no other key is added; keys stay distinct. *)
Theorem CPhaseLayer_get_config_entries (base : config) (self : CPhaseLayer) :
  let cfg := CPhaseLayer_get_config base self in
  dict_get "num_qubits"%string cfg = Some (ConfigInt (cp_num_qubits self)) /\
  dict_get "parity"%string cfg = Some (ConfigInt (cp_parity self)) /\
  dict_get "use_standard_cphase"%string cfg
  = Some (ConfigBool (cp_use_standard_cphase self)) /\
  (forall k, k <> "num_qubits"%string -> k <> "parity"%string ->
             k <> "use_standard_cphase"%string ->
             dict_get k cfg = dict_get k base) /\
  (forall k, In k (dict_keys cfg) <->
             k = "num_qubits"%string \/ k = "parity"%string \/
             k = "use_standard_cphase"%string \/ In k (dict_keys base)) /\
  (NoDup (dict_keys base) -> NoDup (dict_keys cfg)).
Proof.
  cbv zeta. unfold CPhaseLayer_get_config, dict_update. cbn [fold_left fst snd].
  split; [|split; [|split; [|split; [|split]]]].
  - rewrite !dict_get_set_other by discriminate. apply dict_get_set_same.
  - rewrite dict_get_set_other by discriminate. apply dict_get_set_same.
  - apply dict_get_set_same.
  - intros k H1 H2 H3. rewrite !dict_get_set_other by congruence. reflexivity.
  - intros k. rewrite !dict_keys_set. intuition.
  - intros H. now repeat apply dict_keys_set_NoDup.
Qed.

(** ** Shapes of the outputs *)

Lemma shape_is_matmul d s X M :
  (0 < d)%nat -> has_shape d d M = true -> has_width d X = true ->
  shape_is s X = true -> shape_is s (matmul X M) = true.
Proof.
  intros Hd HM HX Hs.
  destruct s as [|b [|w [|]]]; try discriminate.
  simpl in Hs |- *. apply andb_true_iff in Hs. destruct Hs as [Hb Hw].
  rewrite matmul_length, Hb. simpl.
  pose proof (@matmul_has_width _ _ _ _ HX HM Hd) as HW.
  apply has_width_Forall in HX, HW. rewrite forallb_forall in *.
  unfold matmul in *. intros r Hr. apply in_map_iff in Hr.
  destruct Hr as (x & <- & Hx).
  rewrite Forall_forall in HX, HW.
  rewrite (HW (vecmat x M)) by (apply in_map_iff; eauto).
  rewrite <- (HX x Hx). now apply Hw.
Qed.

Lemma shape_is_apply_matrices d s Ms : forall X,
  (0 < d)%nat -> Forall (fun M => has_shape d d M = true) Ms ->
  has_width d X = true -> shape_is s X = true ->
  shape_is s (apply_matrices X Ms) = true.
Proof.
  induction Ms as [|M Ms IH]; intros X Hd HMs HX Hs; simpl; auto.
  inversion HMs as [|? ? HM HMs']; subst.
  apply IH; auto.
  - now apply matmul_has_width with (d := d).
  - now apply shape_is_matmul with (d := d).
Qed.

(** X3.  [compute_output_shape] of a Single-Qubit layer tells the truth:
    on a built layer, the forward pass of an input of shape [s] whose last
    dimension is [2^n] returns a tensor of the shape that
    [compute_output_shape] announces for [s]. *)
Theorem SingleQubitOperationLayer_output_shape (n : Z) (initializer : SQInit)
    (self : SingleQubitOperationLayer) (attrs : SQAttrs) (s : list Z) (x : cmatrix) :
  (0 <= n)%Z -> sq_built self = Some attrs -> attrs_shaped n attrs ->
  shape_is s x = true -> has_width (dim n) x = true ->
  exists out,
    SingleQubitOperationLayer_apply initializer self x = Ok (self, out) /\
    shape_is (SingleQubitOperationLayer_compute_output_shape self s) out = true.
Proof.
  intros Hn Hb HS Hs Hx.
  exists (apply_matrices x (stored_factors attrs)). split.
  - unfold SingleQubitOperationLayer_apply. rewrite Hb. cbn [Py.bind].
    rewrite (@SingleQubitOperationLayer_call_ok n attrs x Hn HS Hx). cbn [Py.bind].
    destruct self; simpl in Hb; subst; reflexivity.
  - unfold SingleQubitOperationLayer_compute_output_shape.
    apply shape_is_apply_matrices with (d := dim n); auto. now apply dim_pos.
Qed.

(** X4.  [compute_output_shape] of an Entangling layer tells the truth:
    a built layer with a transfer matrix of dimension [2^n], called on a
    tensor of shape [s] whose rows have [2^n] entries, returns a tensor of
    the shape that [compute_output_shape] gives for [s], and stays as it
    was. *)
Theorem CPhaseLayer_output_shape (n : Z) (self : CPhaseLayer) (attrs : CPAttrs)
    (s : list Z) (x : cmatrix) :
  (0 <= n)%Z -> cp_built self = Some attrs ->
  has_shape (dim n) (dim n) (transfer_matrix attrs) = true ->
  shape_is s x = true -> has_width (dim n) x = true ->
  exists out,
    CPhaseLayer_apply self x = Ok (self, out) /\
    shape_is (CPhaseLayer_compute_output_shape self s) out = true.
Proof.
  intros Hn Hb HS Hs Hx.
  exists (matmul x (transfer_matrix attrs)). split.
  - unfold CPhaseLayer_apply, CPhaseLayer_call. rewrite Hb. cbn [Py.bind].
    rewrite (@dot_ok _ _ _ _ Hx HS). cbn [Py.bind].
    destruct self; simpl in Hb; subst; reflexivity.
  - unfold CPhaseLayer_compute_output_shape.
    apply shape_is_matmul with (d := dim n); auto. now apply dim_pos.
Qed.

(** ** Edge cases of the builder and of the layers *)

(** X5.  The builder fails exactly when the two phase vectors have
    different lengths or are empty; the failure is a shape error. *)
Theorem phase_shifts_failure (u v : list R) :
  (phase_shifts_to_tensor_product_space u v = Err ShapeError <->
   u = [] \/ length u <> length v) /\
  ((exists op, phase_shifts_to_tensor_product_space u v = Ok op) <->
   u <> [] /\ length u = length v).
Proof.
  assert (Hok : u <> [] -> length u = length v ->
                exists op, phase_shifts_to_tensor_product_space u v = Ok op).
  { intros Hu Hl. destruct (@phase_shifts_ok u v Hu Hl) as (op & H & _). eauto. }
  assert (Herr : u = [] \/ length u <> length v ->
                 phase_shifts_to_tensor_product_space u v = Err ShapeError).
  { intros H. unfold phase_shifts_to_tensor_product_space, transpose_pair.
    rewrite !length_map.
    destruct (Nat.eqb_spec (length u) (length v)) as [E|E].
    - destruct H as [-> | H]; [|contradiction].
      destruct v; [reflexivity|discriminate].
    - reflexivity. }
  destruct u as [|a u].
  - split; split; intros H; auto.
    + destruct H as (op & H). rewrite Herr in H by auto. discriminate.
    + destruct H as [H _]. congruence.
  - destruct (Nat.eq_dec (length (a :: u)) (length v)) as [E|E].
    + destruct (Hok ltac:(discriminate) E) as (op & Hop).
      split; split; intros H.
      * rewrite Hop in H. discriminate.
      * destruct H as [H|H]; [discriminate|contradiction].
      * split; [discriminate|exact E].
      * eauto.
    + split; split; intros H; auto.
      * destruct H as (op & H). rewrite Herr in H by auto. discriminate.
      * destruct H as [_ H]. contradiction.
Qed.

(** X6.  Any parity other than 0 takes the branch of parity 1: the layer
    has the same block list and builds the same matrices as with parity
    1. *)
Theorem CPhaseLayer_nonzero_parity (n parity : Z) (std : bool) (x : cmatrix)
    (layer layer1 : CPhaseLayer) :
  parity <> 0%Z ->
  CPhaseLayer_init n parity std = Ok layer ->
  CPhaseLayer_init n 1 std = Ok layer1 ->
  CPhaseLayer_ops layer = CPhaseLayer_ops layer1 /\
  CPhaseLayer_build layer x = CPhaseLayer_build layer1 x.
Proof.
  intros Hp Hl Hl1.
  apply CPhaseLayer_init_inv in Hl, Hl1. subst layer layer1.
  assert (E : CPhaseLayer_ops (unbuilt_cphase n parity std)
              = CPhaseLayer_ops (unbuilt_cphase n 1 std)).
  { unfold CPhaseLayer_ops, get_cphase_gate.
    cbn [cp_parity cp_num_qubits cp_use_standard_cphase unbuilt_cphase].
    destruct (Z.eqb_spec parity 0); [contradiction|reflexivity]. }
  split; [exact E|].
  unfold CPhaseLayer_build. rewrite E. reflexivity.
Qed.

Lemma last_dim_eq_false n X :
  (0 <= n)%Z -> has_width (dim n) X = false -> last_dim_eq X (Py.pow2_value n) = false.
Proof. intros Hn H. now rewrite last_dim_eq_pow2. Qed.

Lemma SingleQubitOperationLayer_refuses n initializer x :
  (0 <= n)%Z -> has_width (dim n) x = false ->
  SingleQubitOperationLayer_build initializer (unbuilt_single n) x
  = Err AssertionError /\
  SingleQubitOperationLayer_apply initializer (unbuilt_single n) x
  = Err AssertionError.
Proof.
  intros Hn Hx.
  assert (E : SingleQubitOperationLayer_build initializer
                (unbuilt_single n) x = Err AssertionError).
  { unfold SingleQubitOperationLayer_build.
    cbn [sq_output_dim unbuilt_single].
    now rewrite last_dim_eq_false. }
  split; [exact E|].
  unfold SingleQubitOperationLayer_apply.
  cbn [sq_built unbuilt_single]. now rewrite E.
Qed.

(** X7.  A Single-Qubit layer on [n >= 0] qubits that is not built yet
    refuses, by its assertion, an input with a row whose length is not
    [2^n]: [build] and the call that would build the layer fail with an
    assertion error. *)
Theorem SingleQubitOperationLayer_assertion (n : Z) (initializer : SQInit)
    (x : cmatrix) :
  (0 <= n)%Z -> has_width (dim n) x = false ->
  exists self,
    SingleQubitOperationLayer_init n = Ok self /\
    SingleQubitOperationLayer_build initializer self x = Err AssertionError /\
    SingleQubitOperationLayer_apply initializer self x = Err AssertionError.
Proof.
  intros Hn Hx. exists (unbuilt_single n).
  split; [apply SingleQubitOperationLayer_init_ok; in_float_range|].
  now apply SingleQubitOperationLayer_refuses.
Qed.

(** X8.  An Entangling layer on [n >= 0] qubits that is not built yet
    refuses, by its assertion, an input with a row whose length is not
    [2^n]: [build] and the call that would build the layer fail with an
    assertion error. *)
Theorem CPhaseLayer_assertion (n parity : Z) (std : bool) (x : cmatrix) :
  (0 <= n)%Z -> has_width (dim n) x = false ->
  exists self,
    CPhaseLayer_init n parity std = Ok self /\
    CPhaseLayer_build self x = Err AssertionError /\
    CPhaseLayer_apply self x = Err AssertionError.
Proof.
  intros Hn Hx. exists (unbuilt_cphase n parity std).
  split; [apply CPhaseLayer_init_ok; in_float_range|].
  assert (E : CPhaseLayer_build (unbuilt_cphase n parity std) x
              = Err AssertionError).
  { unfold CPhaseLayer_build. cbn [cp_output_dim unbuilt_cphase].
    now rewrite last_dim_eq_false. }
  split; [exact E|].
  unfold CPhaseLayer_apply. cbn [cp_built unbuilt_cphase]. now rewrite E.
Qed.

(** X9.  The first forward pass of a circuit on [n >= 0] qubits fails with
    the assertion error of its input layer when the input, of the kind
    that [complex_inputs] announces, holds a state whose length is not
    [2^n]. *)
Theorem QPGA_call_wrong_dimension (n d : Z) (ci co std : bool)
    (initializers : nat -> SQInit) (q : QPGA) (inputs : tensor) :
  (0 <= n)%Z -> QPGA_init n d ci co std = Ok q ->
  ci = match inputs with RealTensor _ => false | ComplexTensor _ => true end ->
  has_width (dim n) (states_of inputs) = false ->
  QPGA_call initializers q inputs = Err AssertionError.
Proof.
  intros Hn Hq Hci Hx. destruct (QPGA_init_inv _ _ _ _ _ Hq) as [_ ->]. clear Hq.
  unfold QPGA_call. cbn [complex_inputs input_layer].
  destruct inputs as [r|c]; subst ci; cbn [negb lambda_k_to_tf_complex expect_real
    expect_complex Py.bind states_of] in *.
  - destruct (@SingleQubitOperationLayer_refuses n (initializers O) _ Hn Hx)
      as [_ E].
    now rewrite E.
  - destruct (@SingleQubitOperationLayer_refuses n (initializers O) _ Hn Hx)
      as [_ E].
    now rewrite E.
Qed.

(** ** What a forward pass does to the circuit *)

Lemma SingleQubitOperationLayer_apply_inv initializer l x l' y :
  SingleQubitOperationLayer_apply initializer l x = Ok (l', y) ->
  same_single_layer l l' /\ sq_built l' <> None /\
  forall initializer', SingleQubitOperationLayer_apply initializer' l' x = Ok (l', y).
Proof.
  unfold SingleQubitOperationLayer_apply. intros H.
  destruct (match sq_built l with Some a => Ok a | None => _ end) as [a|e] eqn:Ea;
    [|discriminate].
  cbn [Py.bind] in H.
  destruct (SingleQubitOperationLayer_call a x) as [y0|e] eqn:Ec; [|discriminate].
  cbn [Py.bind] in H. injection H as <- <-.
  split; [|split].
  - unfold same_single_layer. cbn. repeat split.
    intros Hb. destruct l as [n o [a0|]]; cbn in *; [|congruence].
    injection Ea as ->. reflexivity.
  - cbn. discriminate.
  - intros initializer'. cbn [sq_built sq_num_qubits sq_output_dim Py.bind].
    now rewrite Ec.
Qed.

Lemma CPhaseLayer_apply_inv l x l' y :
  CPhaseLayer_apply l x = Ok (l', y) ->
  same_cphase_layer l l' /\ cp_built l' <> None /\
  CPhaseLayer_apply l' x = Ok (l', y).
Proof.
  unfold CPhaseLayer_apply. intros H.
  destruct (match cp_built l with Some a => Ok a | None => _ end) as [a|e] eqn:Ea;
    [|discriminate].
  cbn [Py.bind] in H.
  destruct (CPhaseLayer_call a x) as [y0|e] eqn:Ec; [|discriminate].
  cbn [Py.bind] in H. injection H as <- <-.
  split; [|split].
  - unfold same_cphase_layer. cbn. repeat split.
    intros Hb. destruct l as [n p s o [a0|]]; cbn in *; [|congruence].
    injection Ea as ->. reflexivity.
  - cbn. discriminate.
  - cbn [cp_built cp_num_qubits cp_parity cp_use_standard_cphase cp_output_dim
         Py.bind].
    now rewrite Ec.
Qed.

Lemma same_single_layer_refl l : same_single_layer l l.
Proof. unfold same_single_layer. auto. Qed.

Lemma same_cphase_layer_refl l : same_cphase_layer l l.
Proof. unfold same_cphase_layer. auto 6. Qed.

Lemma Forall2_same {A : Type} (P : A -> A -> Prop) (l : list A) :
  (forall a, P a a) -> Forall2 P l l.
Proof. intros H. induction l; constructor; auto. Qed.

Lemma QPGA_call_loop_inv initializers : forall cps sqs k x cps' sqs' y,
  QPGA_call_loop initializers k cps sqs x = Ok (cps', sqs', y) ->
  Forall2 same_cphase_layer cps cps' /\
  Forall2 same_single_layer sqs sqs' /\
  Forall (fun l => cp_built l <> None)
         (firstn (Nat.min (length cps) (length sqs)) cps') /\
  Forall (fun l => sq_built l <> None)
         (firstn (Nat.min (length cps) (length sqs)) sqs') /\
  forall initializers' k',
    QPGA_call_loop initializers' k' cps' sqs' x = Ok (cps', sqs', y).
Proof.
  induction cps as [|c cps IH]; intros sqs k x cps' sqs' y H.
  - simpl in H. injection H as <- <- <-.
    repeat split; auto using Forall2_same, same_single_layer_refl.
  - destruct sqs as [|s sqs].
    + simpl in H. injection H as <- <- <-.
      repeat split; auto using Forall2_same, same_cphase_layer_refl.
    + cbn [QPGA_call_loop] in H.
      destruct (CPhaseLayer_apply c x) as [[c' x1]|e] eqn:Ec; [|discriminate].
      cbn [Py.bind fst snd] in H.
      destruct (SingleQubitOperationLayer_apply (initializers (S k)) s x1)
        as [[s' x2]|e] eqn:Es; [|discriminate].
      cbn [Py.bind fst snd] in H.
      destruct (QPGA_call_loop initializers (S k) cps sqs x2)
        as [[[cps1 sqs1] x3]|e] eqn:El; [|discriminate].
      cbn [Py.bind fst snd] in H. injection H as <- <- <-.
      destruct (CPhaseLayer_apply_inv _ _ Ec) as (Rc & Bc & Sc).
      destruct (SingleQubitOperationLayer_apply_inv _ _ _ Es) as (Rs & Bs & Ss).
      destruct (IH _ _ _ _ _ _ El) as (F1 & F2 & F3 & F4 & F5).
      cbn [length Nat.min firstn].
      split; [now constructor|]. split; [now constructor|].
      split; [now constructor|]. split; [now constructor|].
      intros initializers' k'. cbn [QPGA_call_loop].
      rewrite Sc. cbn [Py.bind fst snd]. rewrite Ss. cbn [Py.bind fst snd].
      rewrite F5. reflexivity.
Qed.

(** X10.  A forward pass that succeeds keeps the circuit: its
    configuration, the number of its layers and the constructor arguments
    of each layer are unchanged, and a layer that was already built is left
    exactly as it was (its weights and matrices are not recreated).  After
    the pass the input layer and the layers of every pair it ran are
    built. *)
Theorem QPGA_call_keeps_circuit (initializers : nat -> SQInit) (q q' : QPGA)
    (inputs out : tensor) :
  QPGA_call initializers q inputs = Ok (q', out) ->
  num_qubits q' = num_qubits q /\ input_dim q' = input_dim q /\
  depth q' = depth q /\ complex_inputs q' = complex_inputs q /\
  complex_outputs q' = complex_outputs q /\
  use_standard_cphase q' = use_standard_cphase q /\
  same_single_layer (input_layer q) (input_layer q') /\
  Forall2 same_cphase_layer (cphase_layers q) (cphase_layers q') /\
  Forall2 same_single_layer (single_qubit_layers q) (single_qubit_layers q') /\
  let pairs := Nat.min (length (cphase_layers q)) (length (single_qubit_layers q)) in
  sq_built (input_layer q') <> None /\
  Forall (fun l => cp_built l <> None) (firstn pairs (cphase_layers q')) /\
  Forall (fun l => sq_built l <> None) (firstn pairs (single_qubit_layers q')).
Proof.
  unfold QPGA_call. intros H.
  destruct (if negb (complex_inputs q) then _ else _) as [t|e]; [|discriminate].
  cbn [Py.bind] in H.
  destruct (expect_complex t) as [x|e]; [|discriminate]. cbn [Py.bind] in H.
  destruct (SingleQubitOperationLayer_apply (initializers O) (input_layer q) x)
    as [[l0 x0]|e] eqn:E0; [|discriminate].
  cbn [Py.bind fst snd] in H.
  destruct (QPGA_call_loop initializers O (cphase_layers q)
              (single_qubit_layers q) x0) as [[[cps sqs] x1]|e] eqn:El;
    [|discriminate].
  cbn [Py.bind fst snd] in H.
  destruct (if negb (complex_outputs q) then _ else _) as [t'|e]; [|discriminate].
  cbn [Py.bind] in H. injection H as <- <-.
  destruct (SingleQubitOperationLayer_apply_inv _ _ _ E0) as (R0 & B0 & _).
  destruct (QPGA_call_loop_inv _ _ _ _ _ El) as (F1 & F2 & F3 & F4 & _).
  cbn [with_layers num_qubits input_dim depth complex_inputs complex_outputs
       use_standard_cphase input_layer cphase_layers single_qubit_layers].
  cbv zeta. repeat (split; [reflexivity|]).
  repeat (split; [assumption|]). assumption.
Qed.

(** X11.  Once a forward pass has succeeded, the circuit is settled: the
    same input gives the same output again and leaves the circuit as it
    is, whatever the initializer would draw now (no weight is drawn a
    second time). *)
Theorem QPGA_call_settled (initializers : nat -> SQInit) (q q' : QPGA)
    (inputs out : tensor) :
  QPGA_call initializers q inputs = Ok (q', out) ->
  forall initializers', QPGA_call initializers' q' inputs = Ok (q', out).
Proof.
  unfold QPGA_call. intros H initializers'.
  destruct (if negb (complex_inputs q) then _ else _) as [t|e] eqn:Et;
    [|discriminate].
  cbn [Py.bind] in H.
  destruct (expect_complex t) as [x|e] eqn:Ex; [|discriminate]. cbn [Py.bind] in H.
  destruct (SingleQubitOperationLayer_apply (initializers O) (input_layer q) x)
    as [[l0 x0]|e] eqn:E0; [|discriminate].
  cbn [Py.bind fst snd] in H.
  destruct (QPGA_call_loop initializers O (cphase_layers q)
              (single_qubit_layers q) x0) as [[[cps sqs] x1]|e] eqn:El;
    [|discriminate].
  cbn [Py.bind fst snd] in H.
  destruct (if negb (complex_outputs q) then _ else _) as [t'|e] eqn:Eo;
    [|discriminate].
  cbn [Py.bind] in H. injection H as <- <-.
  destruct (SingleQubitOperationLayer_apply_inv _ _ _ E0) as (_ & _ & S0).
  destruct (QPGA_call_loop_inv _ _ _ _ _ El) as (_ & _ & _ & _ & Sl).
  cbn [with_layers complex_inputs complex_outputs input_layer cphase_layers
       single_qubit_layers].
  rewrite Et. cbn [Py.bind]. rewrite Ex. cbn [Py.bind].
  rewrite S0. cbn [Py.bind fst snd]. rewrite Sl. cbn [Py.bind fst snd].
  rewrite Eo. reflexivity.
Qed.

(** ** The sequential view of a circuit from the constructor *)

(** X13.  For a circuit on [n >= 1] qubits as the constructor made it (the
    gate constants having their shapes), [as_sequential] returns a model
    and leaves every layer of the circuit built, as a first forward pass
    does.  The model lists, after the [Input] (and the real-to-complex
    conversion when [complex_inputs] is false), the input layer and then
    for [i = 0 .. depth-1] the Entangling layer [i] and the Single-Qubit
    layer [i], followed by the complex-to-real conversion when
    [complex_outputs] is false; it copies [num_qubits] and the two
    flags. *)
Theorem as_sequential_layers (n d : Z) (ci co std : bool)
    (initializers : nat -> SQInit) (q : QPGA) :
  (1 <= n)%Z ->
  has_shape 2 2 BS_MATRIX = true ->
  has_shape 4 4 CPHASE = true ->
  has_shape 4 4 CPHASE_MOD = true ->
  QPGA_init n d ci co std = Ok q ->
  exists q' model,
    as_sequential initializers q = Ok (q', model) /\
    q' = built_circuit n d ci co std initializers /\
    seq_layers model
    = (if ci then [Input [Py.Int (2 ^ n)] complex128]
       else [Input [Py.Int 2; Py.Int (2 ^ n)] float64; Lambda lambda_k_to_tf_complex])
      ++ [InputLayerRef]
      ++ flat_map (fun i => [CPhaseLayerRef i; SingleQubitLayerRef i])
           (seq 0 (Z.to_nat d))
      ++ (if co then [] else [Lambda lambda_tf_to_k_complex]) /\
    length (seq_layers model)
    = ((if ci then 1 else 2) + (2 * Z.to_nat d + 1) + (if co then 0 else 1))%nat /\
    seq_num_qubits model = n /\
    seq_complex_inputs model = ci /\ seq_complex_outputs model = co.
Proof.
  intros Hn HB H1 H2 Hq.
  pose proof (@QPGA_init_state n d ci co std initializers q Hq) as Hst.
  do 2 eexists.
  split; [exact (@as_sequential_ok n d ci co std initializers q Hn HB H1 H2 Hst)|].
  split; [reflexivity|]. cbn [seq_layers seq_num_qubits seq_complex_inputs
                              seq_complex_outputs].
  destruct (QPGA_init_inv _ _ _ _ _ Hq) as [_ ->]. clear Hq Hst.
  assert (E : sequential_stages
                {| num_qubits := n; input_dim := Py.pow2_value n; depth := d;
                   complex_inputs := ci; complex_outputs := co;
                   use_standard_cphase := std;
                   input_layer := unbuilt_single n;
                   single_qubit_layers :=
                     map (fun _ => unbuilt_single n)
                         (seq 0 (Z.to_nat d));
                   cphase_layers :=
                     map (fun i => unbuilt_cphase n (Z.of_nat i mod 2) std)
                         (seq 0 (Z.to_nat d)) |}
              = (if ci then [Input [Py.Int (2 ^ n)] complex128]
                 else [Input [Py.Int 2; Py.Int (2 ^ n)] float64;
                       Lambda lambda_k_to_tf_complex])
                ++ [InputLayerRef]
                ++ flat_map (fun i => [CPhaseLayerRef i; SingleQubitLayerRef i])
                     (seq 0 (Z.to_nat d))
                ++ (if co then [] else [Lambda lambda_tf_to_k_complex])).
  { unfold sequential_stages.
    cbn [complex_inputs complex_outputs input_dim cphase_layers
         single_qubit_layers].
    rewrite !length_map, length_seq, Nat.min_id, pow2_value_nonneg by lia.
    destruct ci, co; cbn [negb]; rewrite <- ?app_assoc, ?app_nil_r; reflexivity. }
  split; [exact E|]. split; [|repeat split].
  rewrite E, !length_app.
  assert (L : forall l : list nat,
             length (flat_map (fun i => [CPhaseLayerRef i; SingleQubitLayerRef i]) l)
             = (2 * length l)%nat).
  { induction l as [|a l IH]; simpl; auto. rewrite IH. lia. }
  rewrite L, length_seq. destruct ci, co; simpl; lia.
Qed.

(** X25.  For a circuit constructed with [num_qubits <= 0], [as_sequential]
    fails: the shape of the [Input] is not made of integers, or the call
    of [Sequential.add] that builds the input layer fails. *)
Theorem as_sequential_fails_without_qubits (n d : Z) (ci co std : bool)
    (initializers : nat -> SQInit) (q : QPGA) :
  (n <= 0)%Z -> QPGA_init n d ci co std = Ok q ->
  exists e, as_sequential initializers q = Err e.
Proof.
  intros Hn Hq. rewrite as_sequential_run.
  destruct (sequential_input q) as [t0|e]; [|eexists; reflexivity].
  cbn [Py.bind]. rewrite Sequential_run_stages.
  destruct (@QPGA_call_fails_nonpositive n d ci co std initializers q t0 Hn Hq)
    as (e & ->).
  eexists. reflexivity.
Qed.

(** ** More on the antifidelity *)

Lemma Cnorm2_conj z : Cnorm2 (Cconj z) = Cnorm2 z.
Proof. csimpl. ring. Qed.

Lemma overlap_swap a b : overlap b a = Cconj (overlap a b).
Proof. rewrite !overlap_inner. apply inner_conj_sym. Qed.

Lemma map_combine_swap {A B : Type} (f g : A * A -> B) :
  (forall a b, f (a, b) = g (b, a)) ->
  forall l1 l2, map f (combine l1 l2) = map g (combine l2 l1).
Proof.
  intros H. induction l1 as [|a l1 IH]; intros [|b l2]; simpl; auto.
  now rewrite H, IH.
Qed.

Lemma Forall2_map_r {A B : Type} (R : A -> B -> Prop) (f : A -> B) (l : list A) :
  (forall a, In a l -> R a (f a)) -> Forall2 R l (map f l).
Proof.
  induction l as [|a l IH]; intros H; simpl; constructor.
  - apply H. now left.
  - apply IH. intros b Hb. apply H. now right.
Qed.

(** X14.  The antifidelity is symmetric: exchanging target and predicted
    batch (of one shape) gives the same values, although only the target is
    conjugated. *)
Theorem antifidelity_symmetric (d : nat) (state_true state_pred : rtensor) :
  well_formed_real d state_true = true ->
  well_formed_real d state_pred = true ->
  length state_true = length state_pred ->
  antifidelity state_pred state_true = antifidelity state_true state_pred.
Proof.
  intros Ht Hp Hlen.
  rewrite (antifidelity_value _ _ _ Ht Hp Hlen).
  rewrite (antifidelity_value _ _ _ Hp Ht (eq_sym Hlen)).
  f_equal. apply map_combine_swap. intros a b. cbn [fst snd].
  now rewrite (overlap_swap a b), Cnorm2_conj.
Qed.

Lemma Cnorm2_zero z : Cnorm2 z = 0%R -> z = C0.
Proof.
  destruct z as [x y]. unfold Cnorm2, C0. simpl. intros H.
  assert (x = 0)%R by nra. assert (y = 0)%R by nra. now subst.
Qed.

(** X15.  On batches of one shape, normalized or not, a value of the
    antifidelity never exceeds 1, and it is 1 exactly when the sum of
    [conj(true_k) * pred_k] of the row is zero (orthogonal states). *)
Theorem antifidelity_at_most_1 (d : nat) (state_true state_pred : rtensor) :
  well_formed_real d state_true = true ->
  well_formed_real d state_pred = true ->
  length state_true = length state_pred ->
  exists v,
    antifidelity state_true state_pred = Ok v /\
    Forall2 (fun tp a => (a <= 1)%R /\
                         (a = 1%R <-> overlap (fst tp) (snd tp) = C0))
            (combine (k_to_tf_complex state_true) (k_to_tf_complex state_pred)) v.
Proof.
  intros Ht Hp Hlen. eexists.
  split; [exact (antifidelity_value _ _ _ Ht Hp Hlen)|].
  apply Forall2_map_r. intros [a b] _. cbn [fst snd].
  pose proof (Cnorm2_nonneg (overlap a b)) as Hn. split; [lra|]. split.
  - intros H. apply Cnorm2_zero. lra.
  - intros ->. csimpl. ring.
Qed.

Lemma sum_zero_each (l : list R) :
  Forall (fun r => (0 <= r)%R) l -> fold_right Rplus 0%R l = 0%R ->
  Forall (fun r => r = 0%R) l.
Proof.
  induction 1 as [|r l Hr Hl IH]; simpl; intros H; constructor.
  - pose proof (sum_nonneg Hl). lra.
  - apply IH. pose proof (sum_nonneg Hl). lra.
Qed.

Lemma overlap_vscale_r w a : overlap a (vscale w a) = Cmul w (norm2 a, 0%R).
Proof.
  unfold overlap, norm2. induction a as [|x a IH]; simpl.
  - lca.
  - rewrite IH. lca.
Qed.

(** Equality in the Cauchy-Schwarz inequality: two normalized rows whose
    overlap has modulus 1 differ by that factor. *)
Lemma overlap_modulus_1 (a : list C) : forall b : list C,
  length a = length b -> norm2 a = 1%R -> norm2 b = 1%R ->
  Cnorm2 (overlap a b) = 1%R -> b = vscale (overlap a b) a.
Proof.
  intros b Hlen Ha Hb HW.
  pose proof (overlap_expansion (overlap a b) (combine a b)) as E.
  rewrite (norm2_combine_l _ _ Hlen), (norm2_combine_r _ _ Hlen), Ha, Hb in E.
  fold (overlap a b) in E.
  assert (E0 : fold_right Rplus 0%R
                 (map (fun ab : C * C =>
                         Cnorm2 (Cadd (snd ab)
                                   (Cmul (Cmul (-1, 0)%R (overlap a b)) (fst ab))))
                      (combine a b)) = 0%R).
  { rewrite E. unfold Cnorm2 in HW |- *. lra. }
  apply sum_zero_each in E0.
  2:{ rewrite Forall_map. apply Forall_forall. intros ab _. apply Cnorm2_nonneg. }
  rewrite Forall_map in E0. clear E HW Ha Hb.
  generalize dependent (overlap a b). intros w E0.
  revert b Hlen E0. induction a as [|x a IH]; intros [|y b] Hlen E0;
    try discriminate; auto.
  simpl in E0. inversion E0 as [|? ? H0 E1]; subst. simpl.
  f_equal.
  - apply Cnorm2_zero in H0. cbn [fst snd] in H0.
    unfold Cadd, Cmul, C0 in *. simpl in *.
    rewrite (C_eta y). injection H0 as H1 H2. f_equal; lra.
  - apply IH; auto.
Qed.

(** X16.  For normalized states in batches of one shape, a value of the
    antifidelity is 0 exactly when the predicted state is the target state
    times a number of modulus 1 (equal up to a global phase). *)
Theorem antifidelity_zero_iff_global_phase (d : nat)
    (state_true state_pred : rtensor) :
  well_formed_real d state_true = true ->
  well_formed_real d state_pred = true ->
  length state_true = length state_pred ->
  Forall (fun s => norm s = 1%R) (k_to_tf_complex state_true) ->
  Forall (fun s => norm s = 1%R) (k_to_tf_complex state_pred) ->
  exists v,
    antifidelity state_true state_pred = Ok v /\
    Forall2 (fun tp a =>
               a = 0%R <->
               exists w, Cnorm2 w = 1%R /\ snd tp = vscale w (fst tp))
            (combine (k_to_tf_complex state_true) (k_to_tf_complex state_pred)) v.
Proof.
  intros Ht Hp Hlen Nt Np. eexists.
  split; [exact (antifidelity_value _ _ _ Ht Hp Hlen)|].
  pose proof (k_to_tf_complex_has_width _ _ Ht) as Wt.
  pose proof (k_to_tf_complex_has_width _ _ Hp) as Wp.
  pose proof (has_width_combine _ _ _ Wt Wp) as HL.
  apply Forall2_map_r. intros [a b] Hab. cbn [fst snd].
  rewrite Forall_forall in *.
  pose proof (HL _ Hab) as Hl. cbn [fst snd] in Hl.
  pose proof (norm_1_norm2 _ (Nt a (in_combine_l _ _ _ _ Hab))) as Ha.
  pose proof (norm_1_norm2 _ (Np b (in_combine_r _ _ _ _ Hab))) as Hb.
  split.
  - intros H. exists (overlap a b). split; [lra|].
    apply overlap_modulus_1; auto. lra.
  - intros (w & Hw & ->). rewrite overlap_vscale_r, Ha.
    rewrite Cnorm2_mul, Hw. csimpl. ring.
Qed.

Lemma overlap_vscale_any w a b : overlap a (vscale w b) = Cmul w (overlap a b).
Proof.
  unfold overlap. revert b. induction a as [|x a IH]; intros [|y b]; simpl;
    try lca.
  rewrite IH. lca.
Qed.

(** X17.  The antifidelity does not see a global phase: multiplying each
    predicted state by a number of modulus 1 leaves every value
    unchanged. *)
Theorem antifidelity_global_phase (d : nat)
    (state_true state_pred state_pred' : rtensor) :
  well_formed_real d state_true = true ->
  well_formed_real d state_pred = true ->
  well_formed_real d state_pred' = true ->
  length state_true = length state_pred ->
  Forall2 (fun b b' => exists w, Cnorm2 w = 1%R /\ b' = vscale w b)
          (k_to_tf_complex state_pred) (k_to_tf_complex state_pred') ->
  antifidelity state_true state_pred' = antifidelity state_true state_pred.
Proof.
  intros Ht Hp Hp' Hlen HF.
  assert (Hlen' : length state_true = length state_pred').
  { apply Forall2_length in HF. unfold k_to_tf_complex in HF.
    rewrite !length_map in HF. congruence. }
  rewrite (antifidelity_value _ _ _ Ht Hp Hlen).
  rewrite (antifidelity_value _ _ _ Ht Hp' Hlen').
  f_equal. clear Ht Hp Hp' Hlen Hlen'.
  revert HF. generalize (k_to_tf_complex state_pred) (k_to_tf_complex state_pred').
  induction (k_to_tf_complex state_true) as [|a T IH]; intros P P' HF; [reflexivity|].
  destruct HF as [|b b' P P' (w & Hw & ->) HF]; [reflexivity|].
  simpl. rewrite (IH _ _ HF). f_equal.
  rewrite overlap_vscale_any, Cnorm2_mul, Hw. ring.
Qed.

(** ** The circuit and the antifidelity together *)

Lemma overlap_vecmat_unitary d M a b :
  unitary d M -> length a = d -> length b = d ->
  overlap (vecmat a M) (vecmat b M) = overlap a b.
Proof.
  intros [HS HM] Ha Hb. apply has_shape_spec in HS. destruct HS as [HL _].
  rewrite !overlap_inner. apply inner_vecmat_orthonormal; auto; lia.
Qed.

Lemma tf_to_k_complex_well_formed d y :
  has_width d y = true -> well_formed_real d (tf_to_k_complex y) = true.
Proof.
  unfold has_width, well_formed_real, tf_to_k_complex.
  rewrite !forallb_forall. intros H b Hb.
  apply in_map_iff in Hb. destruct Hb as (r & <- & Hr).
  specialize (H r Hr). apply Nat.eqb_eq in H. subst d.
  cbn [length forallb]. rewrite !length_map, !Nat.eqb_refl. reflexivity.
Qed.

(** The values of the antifidelity are kept when both batches are
    multiplied by one unitary matrix. *)
Lemma overlap_values_matmul d M : forall T P,
  unitary d M -> has_width d T = true -> has_width d P = true ->
  map (fun tp => (1 - Cnorm2 (overlap (fst tp) (snd tp)))%R)
      (combine (matmul T M) (matmul P M))
  = map (fun tp => (1 - Cnorm2 (overlap (fst tp) (snd tp)))%R) (combine T P).
Proof.
  intros T P HM. revert P.
  induction T as [|a T IH]; intros [|b P] HT HP; simpl; auto.
  simpl in HT, HP. apply andb_true_iff in HT, HP.
  destruct HT as [Ha HT], HP as [Hb HP]. apply Nat.eqb_eq in Ha, Hb.
  fold (has_width d T) in HT. fold (has_width d P) in HP.
  fold (matmul T M). fold (matmul P M).
  rewrite (IH P HT HP). f_equal.
  now rewrite (@overlap_vecmat_unitary d M a b HM Ha Hb).
Qed.

Lemma overlap_values_apply_matrices d Ms : forall T P,
  (0 < d)%nat -> Forall (unitary d) Ms ->
  has_width d T = true -> has_width d P = true ->
  map (fun tp => (1 - Cnorm2 (overlap (fst tp) (snd tp)))%R)
      (combine (apply_matrices T Ms) (apply_matrices P Ms))
  = map (fun tp => (1 - Cnorm2 (overlap (fst tp) (snd tp)))%R) (combine T P).
Proof.
  induction Ms as [|M Ms IH]; intros T P Hd HMs HT HP; simpl; auto.
  inversion HMs as [|? ? HM HMs']; subst.
  fold (apply_matrices (matmul T M) Ms). fold (apply_matrices (matmul P M) Ms).
  rewrite IH; auto.
  - now apply overlap_values_matmul with (d := d).
  - apply matmul_has_width with (d := d); auto. apply HM.
  - apply matmul_has_width with (d := d); auto. apply HM.
Qed.

(** X18.  A circuit with unitary gate constants keeps the antifidelity:
    for two batches of states in the real encoding, the antifidelity of the
    two outputs of the circuit is the antifidelity of the two inputs. *)
Theorem QPGA_keeps_antifidelity (n d : Z) (std : bool)
    (initializers : nat -> SQInit) (q : QPGA) (state_true state_pred : rtensor) :
  (1 <= n)%Z ->
  unitary 2 BS_MATRIX -> unitary 4 CPHASE -> unitary 4 CPHASE_MOD ->
  QPGA_init n d false false std = Ok q ->
  well_formed_real (dim n) state_true = true ->
  well_formed_real (dim n) state_pred = true ->
  length state_true = length state_pred ->
  exists q' out_true out_pred,
    QPGA_call initializers q (RealTensor state_true) = Ok (q', RealTensor out_true) /\
    QPGA_call initializers q' (RealTensor state_pred) = Ok (q', RealTensor out_pred) /\
    antifidelity out_true out_pred = antifidelity state_true state_pred.
Proof.
  intros Hn HB H1 H2 Hq Ht Hp Hlen.
  pose proof (@dim_pos n ltac:(lia)) as Hd.
  pose proof (@unitary_circuit_matrices n d std initializers Hn HB H1 H2) as HU.
  pose proof (k_to_tf_complex_has_width _ _ Ht) as Wt.
  pose proof (k_to_tf_complex_has_width _ _ Hp) as Wp.
  set (Ms := circuit_matrices n d std initializers) in *.
  assert (HSh : Forall (fun M => has_shape (dim n) (dim n) M = true) Ms).
  { eapply Forall_impl; [|exact HU]. intros M HM. apply HM. }
  exists (built_circuit n d false false std initializers),
    (tf_to_k_complex (apply_matrices (k_to_tf_complex state_true) Ms)),
    (tf_to_k_complex (apply_matrices (k_to_tf_complex state_pred) Ms)).
  split; [|split].
  - apply (@QPGA_call_ok n d false false std initializers q (RealTensor state_true));
      auto using unitary_has_shape, QPGA_init_state.
  - apply (@QPGA_call_ok n d false false std initializers _ (RealTensor state_pred));
      auto using unitary_has_shape, built_circuit_state.
  - assert (Wt' := @apply_matrices_has_width _ _ Ms Hd Wt HSh).
    assert (Wp' := @apply_matrices_has_width _ _ Ms Hd Wp HSh).
    rewrite (@antifidelity_value (dim n)).
    + rewrite !k_to_tf_complex_tf_to_k_complex.
      rewrite (@overlap_values_apply_matrices (dim n)) by assumption.
      symmetry. now apply antifidelity_value with (d := dim n).
    + now apply tf_to_k_complex_well_formed.
    + now apply tf_to_k_complex_well_formed.
    + unfold tf_to_k_complex, apply_matrices.
      rewrite !length_map.
      assert (L : forall Ns X, length (fold_left matmul Ns X) = length X).
      { induction Ns as [|N Ns IH]; intros X; simpl; auto.
        now rewrite IH, matmul_length. }
      rewrite !L. unfold k_to_tf_complex. now rewrite !length_map.
Qed.

Lemma apply_matrices_length Ms : forall X, length (apply_matrices X Ms) = length X.
Proof.
  induction Ms as [|M Ms IH]; intros X; simpl; auto.
  fold (apply_matrices (matmul X M) Ms). now rewrite IH, matmul_length.
Qed.

(** X19.  The output of a forward pass has the form of its input: the
    same number of batch rows, each a state of [2^n] amplitudes, in the
    encoding that [complex_outputs] asks for; it is a well-formed input for
    a circuit on [n] qubits that takes this encoding. *)
Theorem QPGA_output_well_formed (n d : Z) (ci co std : bool)
    (initializers : nat -> SQInit) (q : QPGA) (inputs : tensor) :
  (1 <= n)%Z ->
  has_shape 2 2 BS_MATRIX = true ->
  has_shape 4 4 CPHASE = true -> has_shape 4 4 CPHASE_MOD = true ->
  QPGA_init n d ci co std = Ok q ->
  well_formed_input ci (dim n) inputs = true ->
  exists q' out,
    QPGA_call initializers q inputs = Ok (q', out) /\
    well_formed_input co (dim n) out = true /\
    length (states_of out) = length (states_of inputs) /\
    match out with RealTensor _ => co = false | ComplexTensor _ => co = true end.
Proof.
  intros Hn HB H1 H2 Hq Hin.
  pose proof (@dim_pos n ltac:(lia)) as Hd.
  pose proof (well_formed_input_states _ _ _ Hin) as Hx.
  assert (HSh : Forall (fun M => has_shape (dim n) (dim n) M = true)
                       (circuit_matrices n d std initializers)).
  { unfold circuit_matrices. constructor.
    - apply layer_matrix_has_shape; auto; lia.
    - induction (seq 0 (Z.to_nat d)) as [|i l IH]; simpl; auto.
      constructor; [now apply entangling_matrix_has_shape|].
      constructor; [apply layer_matrix_has_shape; auto; lia|exact IH]. }
  assert (W := @apply_matrices_has_width _ _ _ Hd Hx HSh).
  eexists. eexists. split.
  - exact (@QPGA_call_ok n d ci co std initializers q inputs Hn HB H1 H2
             (@QPGA_init_state n d ci co std initializers q Hq) Hin).
  - rewrite states_of_encode_output, apply_matrices_length.
    unfold encode_output. destruct co; simpl; repeat split; auto.
    now apply tf_to_k_complex_well_formed.
Qed.

(** ** More on the phase-diagonal builder *)

Lemma phase_0 : phase 0 = C1.
Proof. unfold phase, tf_complex, C1. now rewrite cos_0, sin_0. Qed.

Lemma kron_rows_ones k :
  fold_right kron_row [C1] (repeat [C1; C1] k) = repeat C1 (2 ^ k).
Proof.
  induction k as [|k IH]; [reflexivity|].
  cbn [repeat fold_right]. rewrite IH.
  unfold kron_row. cbn [flat_map]. rewrite vscale_1, app_nil_r, <- repeat_app.
  f_equal. simpl. lia.
Qed.

Lemma combine_repeat {A B : Type} (a : A) (b : B) k :
  combine (repeat a k) (repeat b k) = repeat (a, b) k.
Proof. induction k; simpl; auto. now f_equal. Qed.

Lemma map_repeat {A B : Type} (f : A -> B) a k : map f (repeat a k) = repeat (f a) k.
Proof. induction k; simpl; auto. now f_equal. Qed.

Lemma phase_diagonal_zero k :
  phase_diagonal (repeat 0%R k) (repeat 0%R k) = identity_matrix (2 ^ k).
Proof.
  rewrite phase_diagonal_tensor_diag, combine_repeat, map_repeat.
  cbn [fst snd]. rewrite phase_0, kron_rows_ones. reflexivity.
Qed.

Lemma drawn_constant n r :
  drawn n (fun _ => r) = repeat r (Z.to_nat n).
Proof.
  unfold drawn. generalize 0%nat.
  induction (Z.to_nat n) as [|k IH]; intros s; simpl; auto. now rewrite IH.
Qed.

(** X20.  With all phases zero the three phase-diagonal matrices are
    identities, and the forward pass of the Single-Qubit layer multiplies
    its input twice by the Kronecker power B of the beam-splitter gate. *)
Theorem single_qubit_layer_zero_phases (n : Z) (x0 x : cmatrix) :
  (1 <= n)%Z -> has_shape 2 2 BS_MATRIX = true ->
  has_width (dim n) x0 = true -> has_width (dim n) x = true ->
  exists self attrs,
    SingleQubitOperationLayer_init n = Ok self /\
    SingleQubitOperationLayer_build (constant_init 0) self x0 = Ok attrs /\
    input_shifts attrs = identity_matrix (dim n) /\
    theta_shifts attrs = identity_matrix (dim n) /\
    phi_shifts attrs = identity_matrix (dim n) /\
    let B := kronecker_product (repeat BS_MATRIX (Z.to_nat n)) in
    SingleQubitOperationLayer_call attrs x = Ok (matmul (matmul x B) B).
Proof.
  intros Hn HB Hx0 Hx.
  pose proof (@dim_pos n ltac:(lia)) as Hd.
  exists (unbuilt_single n), (initial_attrs n (constant_init 0)).
  split; [apply SingleQubitOperationLayer_init_ok; in_float_range|].
  split; [now apply SingleQubitOperationLayer_build_ok|].
  assert (EP : phase_diagonal (repeat 0%R (Z.to_nat n))
                 (zeros_like (repeat 0%R (Z.to_nat n))) = identity_matrix (dim n)).
  { unfold zeros_like. rewrite repeat_length, phase_diagonal_zero.
    now rewrite dim_pow by lia. }
  assert (EP' : phase_diagonal (repeat 0%R (Z.to_nat n))
                  (repeat 0%R (Z.to_nat n)) = identity_matrix (dim n)).
  { rewrite phase_diagonal_zero. now rewrite dim_pow by lia. }
  unfold initial_attrs, constant_init.
  cbn [init_alphas init_betas init_thetas init_phis].
  rewrite !drawn_constant.
  cbn [derived_attrs input_shifts theta_shifts phi_shifts].
  rewrite EP, EP'. repeat (split; [reflexivity|]). cbv zeta.
  pose proof (@beam_splitter_power_has_shape n ltac:(lia) HB) as HBS.
  pose proof (identity_matrix_has_shape (dim n)) as HI.
  rewrite (@SingleQubitOperationLayer_call_ok n).
  - unfold stored_factors, apply_matrices.
    cbn [derived_attrs input_shifts theta_shifts phi_shifts bs_matrix fold_left].
    rewrite EP, EP'. fold (beam_splitter_power n).
    rewrite (@matmul_identity (dim n) x Hx).
    assert (W1 := @matmul_has_width _ _ _ _ Hx HBS Hd).
    rewrite (@matmul_identity (dim n) _ W1).
    assert (W2 := @matmul_has_width _ _ _ _ W1 HBS Hd).
    rewrite (@matmul_identity (dim n) _ W2).
    reflexivity.
  - lia.
  - unfold attrs_shaped, stored_factors.
    cbn [derived_attrs input_shifts theta_shifts phi_shifts bs_matrix].
    rewrite EP, EP'. repeat constructor; assumption.
  - assumption.
Qed.

Lemma phase_period (a b : R) :
  (exists k : Z, b = (a + 2 * IZR k * PI)%R) -> phase b = phase a.
Proof.
  intros (k & ->). unfold phase, tf_complex.
  destruct (Z.le_gt_cases 0 k) as [Hk|Hk].
  - rewrite <- (Z2Nat.id k Hk), <- INR_IZR_INZ.
    now rewrite cos_period, sin_period.
  - set (m := Z.to_nat (- k)).
    assert (E : (a = (a + 2 * IZR k * PI) + 2 * INR m * PI)%R).
    { unfold m. rewrite INR_IZR_INZ, Z2Nat.id by lia. rewrite opp_IZR. ring. }
    rewrite E at 3 4. now rewrite cos_period, sin_period.
Qed.

Lemma map_phase_period (u u' : list R) :
  Forall2 (fun a b => exists k : Z, b = (a + 2 * IZR k * PI)%R) u u' ->
  map (fun p => tf_complex (cos p) (sin p)) u'
  = map (fun p => tf_complex (cos p) (sin p)) u.
Proof.
  induction 1 as [|a b u u' H _ IH]; simpl; auto.
  f_equal; [|exact IH]. exact (phase_period H).
Qed.

(** X21.  Phases count modulo [2 pi]: changing any entries of the two
    phase vectors by integer multiples of [2 pi] does not change what the
    builder returns. *)
Theorem phase_shifts_periodic (u v u' v' : list R) :
  Forall2 (fun a b => exists k : Z, b = (a + 2 * IZR k * PI)%R) u u' ->
  Forall2 (fun a b => exists k : Z, b = (a + 2 * IZR k * PI)%R) v v' ->
  phase_shifts_to_tensor_product_space u' v'
  = phase_shifts_to_tensor_product_space u v.
Proof.
  intros Hu Hv. unfold phase_shifts_to_tensor_product_space.
  now rewrite (map_phase_period Hu), (map_phase_period Hv).
Qed.

Lemma pointwise_mul_cons a x b y :
  pointwise_mul (a :: x) (b :: y) = Cmul a b :: pointwise_mul x y.
Proof. reflexivity. Qed.

Lemma pointwise_mul_length x y :
  length x = length y -> length (pointwise_mul x y) = length x.
Proof.
  intros H. unfold pointwise_mul. rewrite length_map, length_combine. lia.
Qed.

Lemma pointwise_mul_zeros k : forall y,
  length y = k -> pointwise_mul (repeat C0 k) y = repeat C0 k.
Proof.
  induction k as [|k IH]; intros [|c y] H; try discriminate; auto.
  cbn [repeat]. rewrite pointwise_mul_cons, Cmul_0_l, IH; auto.
Qed.

Lemma pointwise_mul_app x x' y y' :
  length x = length x' ->
  pointwise_mul (x ++ y) (x' ++ y') = pointwise_mul x x' ++ pointwise_mul y y'.
Proof.
  revert x'. induction x as [|a x IH]; intros [|a' x'] H; try discriminate; auto.
  cbn [app]. rewrite !pointwise_mul_cons, IH; auto.
Qed.

Lemma pointwise_mul_vscale c c' x x' :
  pointwise_mul (vscale c x) (vscale c' x') = vscale (Cmul c c') (pointwise_mul x x').
Proof.
  revert x'. induction x as [|a x IH]; intros [|a' x']; auto.
  unfold vscale in *. cbn [map]. rewrite !pointwise_mul_cons, IH. cbn [map].
  f_equal. lca.
Qed.

Lemma pointwise_mul_kron_row a a' b b' :
  length a = length a' -> length b = length b' ->
  pointwise_mul (kron_row a b) (kron_row a' b')
  = kron_row (pointwise_mul a a') (pointwise_mul b b').
Proof.
  intros Ha Hb. revert a' Ha.
  induction a as [|c a IH]; intros [|c' a'] Ha; try discriminate; auto.
  rewrite pointwise_mul_cons, !kron_row_cons, pointwise_mul_app, IH.
  - now rewrite pointwise_mul_vscale.
  - simpl in Ha. lia.
  - unfold vscale. now rewrite !length_map.
Qed.

(** The product of two diagonal matrices is the diagonal matrix of the
    products of their entries. *)
Lemma matmul_tensor_diag a b :
  length a = length b ->
  matmul (tensor_diag a) (tensor_diag b) = tensor_diag (pointwise_mul a b).
Proof.
  intros H. unfold matmul.
  transitivity (map (fun r => pointwise_mul r b) (tensor_diag a)).
  { apply map_ext_in. intros r Hr. apply vecmat_tensor_diag.
    pose proof (tensor_diag_width a) as W. rewrite Forall_forall in W.
    rewrite (W r Hr). exact H. }
  revert b H. induction a as [|c a IH]; intros [|e b] H; try discriminate; auto.
  simpl in H. injection H as H.
  change (tensor_diag (c :: a))
    with ((c :: repeat C0 (length a)) :: map (cons C0) (tensor_diag a)).
  rewrite pointwise_mul_cons.
  change (tensor_diag (Cmul c e :: pointwise_mul a b))
    with ((Cmul c e :: repeat C0 (length (pointwise_mul a b)))
            :: map (cons C0) (tensor_diag (pointwise_mul a b))).
  cbn [map]. rewrite pointwise_mul_cons, pointwise_mul_zeros by auto.
  rewrite pointwise_mul_length by auto. f_equal.
  rewrite <- IH by auto. rewrite !map_map. apply map_ext. intros r.
  now rewrite pointwise_mul_cons, Cmul_0_l.
Qed.

Lemma phase_plus a b : phase (a + b) = Cmul (phase a) (phase b).
Proof. unfold phase, tf_complex. rewrite cos_plus, sin_plus. lca. Qed.

Lemma kron_rows_phases_length (u v : list R) :
  length (fold_right kron_row [C1]
            (map (fun p => [phase (fst p); phase (snd p)]) (combine u v)))
  = (2 ^ length (combine u v))%nat.
Proof.
  rewrite pow2_length_kron_rows; [now rewrite length_map|].
  apply Forall_forall. intros r Hr. apply in_map_iff in Hr.
  destruct Hr as (p & <- & _). reflexivity.
Qed.

Lemma kron_rows_phases_add : forall u v u' v' : list R,
  length u = length u' -> length v = length v' ->
  pointwise_mul
    (fold_right kron_row [C1]
       (map (fun p => [phase (fst p); phase (snd p)]) (combine u v)))
    (fold_right kron_row [C1]
       (map (fun p => [phase (fst p); phase (snd p)]) (combine u' v')))
  = fold_right kron_row [C1]
      (map (fun p => [phase (fst p); phase (snd p)])
         (combine (phases_add u u') (phases_add v v'))).
Proof.
  assert (H11 : pointwise_mul [C1] [C1] = [C1]).
  { unfold pointwise_mul. cbn. now rewrite Cmul_1_l. }
  induction u as [|a u IH]; intros v [|a' u'] v' Hu Hv; try discriminate.
  - exact H11.
  - destruct v as [|b v], v' as [|b' v']; try discriminate; [exact H11|].
    simpl in Hu, Hv. injection Hu as Hu. injection Hv as Hv.
    unfold phases_add. cbn [combine map fold_right fst snd].
    fold (phases_add u u'). fold (phases_add v v').
    rewrite pointwise_mul_kron_row.
    + rewrite IH by auto. rewrite !phase_plus. reflexivity.
    + reflexivity.
    + rewrite !kron_rows_phases_length, !length_combine. now rewrite Hu, Hv.
Qed.

Lemma phase_shifts_ok_inv (u v : list R) op :
  phase_shifts_to_tensor_product_space u v = Ok op ->
  u <> [] /\ length u = length v.
Proof.
  unfold phase_shifts_to_tensor_product_space, transpose_pair.
  rewrite !length_map.
  destruct (Nat.eqb_spec (length u) (length v)) as [E|E]; [|discriminate].
  destruct u as [|a u]; [destruct v; discriminate|].
  intros _. split; [discriminate|exact E].
Qed.

(** X22.  Two operators of the builder multiply to the operator of the
    summed phases: for phase vectors of one length, the product of the
    dense matrices built from [(u, v)] and from [(u', v')] is the dense
    matrix built from [(u + u', v + v')]. *)
Theorem phase_shifts_compose (u v u' v' : list R) op op' :
  length u = length u' -> length v = length v' ->
  phase_shifts_to_tensor_product_space u v = Ok op ->
  phase_shifts_to_tensor_product_space u' v' = Ok op' ->
  exists op'',
    phase_shifts_to_tensor_product_space (phases_add u u') (phases_add v v')
    = Ok op'' /\
    to_dense op'' = matmul (to_dense op) (to_dense op').
Proof.
  intros Hu Hv H H'.
  destruct (phase_shifts_ok_inv _ _ H) as [Hne Hl].
  assert (Hne' : u' <> []) by (destruct u, u'; try discriminate; congruence).
  assert (Hl' : length u' = length v') by lia.
  destruct (@phase_shifts_ok u v Hne Hl) as (o & Ho & Do).
  destruct (@phase_shifts_ok u' v' Hne' Hl') as (o' & Ho' & Do').
  assert (op = o) by congruence. assert (op' = o') by congruence. subst o o'.
  assert (La : length (phases_add u u') = length u).
  { unfold phases_add. rewrite length_map, length_combine. lia. }
  assert (Lb : length (phases_add v v') = length v).
  { unfold phases_add. rewrite length_map, length_combine. lia. }
  destruct (@phase_shifts_ok (phases_add u u') (phases_add v v')) as (o'' & Ho'' & Do'').
  { intros E. rewrite E in La. destruct u; [congruence|discriminate]. }
  { lia. }
  exists o''. split; [exact Ho''|].
  rewrite Do, Do', Do'', !phase_diagonal_tensor_diag, matmul_tensor_diag.
  - now rewrite kron_rows_phases_add.
  - rewrite !kron_rows_phases_length, !length_combine. now rewrite Hu, Hv.
Qed.

(** ** The circuit on batches and on superpositions *)

Lemma apply_matrices_app Ms : forall X Y,
  apply_matrices (X ++ Y) Ms = apply_matrices X Ms ++ apply_matrices Y Ms.
Proof.
  unfold apply_matrices.
  induction Ms as [|M Ms IH]; intros X Y; [reflexivity|].
  cbn [fold_left]. unfold matmul at 2. rewrite map_app. apply IH.
Qed.

Lemma apply_matrices_row Ms : forall x,
  apply_matrices [x] Ms = [fold_left vecmat Ms x].
Proof.
  unfold apply_matrices.
  induction Ms as [|M Ms IH]; intros x; [reflexivity|].
  cbn [fold_left]. apply IH.
Qed.

Lemma fold_vecmat_linear Ms : forall a b x y,
  fold_left vecmat Ms (vadd (vscale a x) (vscale b y))
  = vadd (vscale a (fold_left vecmat Ms x)) (vscale b (fold_left vecmat Ms y)).
Proof.
  induction Ms as [|M Ms IH]; intros a b x y; [reflexivity|].
  cbn [fold_left]. now rewrite vecmat_vadd, !vecmat_vscale, IH.
Qed.

(** X23.  The states of a batch go through the circuit one by one: the
    output for a batch made of two batches is the output for the first
    followed by the output for the second. *)
Theorem QPGA_call_batch (n d : Z) (co std : bool) (initializers : nat -> SQInit)
    (q : QPGA) (x y : cmatrix) :
  (1 <= n)%Z ->
  has_shape 2 2 BS_MATRIX = true ->
  has_shape 4 4 CPHASE = true ->
  has_shape 4 4 CPHASE_MOD = true ->
  QPGA_init n d true co std = Ok q ->
  has_width (dim n) x = true ->
  has_width (dim n) y = true ->
  exists q' out out_x out_y,
    QPGA_call initializers q (ComplexTensor (x ++ y)) = Ok (q', out) /\
    QPGA_call initializers q' (ComplexTensor x) = Ok (q', out_x) /\
    QPGA_call initializers q' (ComplexTensor y) = Ok (q', out_y) /\
    states_of out = states_of out_x ++ states_of out_y.
Proof.
  intros Hn HB H1 H2 Hq Hx Hy.
  assert (Hxy : has_width (dim n) (x ++ y) = true).
  { unfold has_width. now rewrite forallb_app, (Hx : forallb _ x = true),
      (Hy : forallb _ y = true). }
  pose proof (@QPGA_init_state n d true co std initializers q Hq) as S0.
  pose proof (built_circuit_state n d true co std initializers) as S1.
  do 4 eexists.
  split; [exact (@QPGA_call_ok n d true co std initializers q
                   (ComplexTensor (x ++ y)) Hn HB H1 H2 S0 Hxy)|].
  split; [exact (@QPGA_call_ok n d true co std initializers _
                   (ComplexTensor x) Hn HB H1 H2 S1 Hx)|].
  split; [exact (@QPGA_call_ok n d true co std initializers _
                   (ComplexTensor y) Hn HB H1 H2 S1 Hy)|].
  rewrite !states_of_encode_output. apply apply_matrices_app.
Qed.

(** X24.  The circuit is linear: on the superposition [a x + b y] of two
    states it returns the superposition, with the same coefficients, of
    what it returns on [x] and on [y]. *)
Theorem QPGA_call_linear (n d : Z) (co std : bool) (initializers : nat -> SQInit)
    (q : QPGA) (a b : C) (x y : cvector) :
  (1 <= n)%Z ->
  has_shape 2 2 BS_MATRIX = true ->
  has_shape 4 4 CPHASE = true ->
  has_shape 4 4 CPHASE_MOD = true ->
  QPGA_init n d true co std = Ok q ->
  length x = dim n ->
  length y = dim n ->
  exists q' out out_x out_y sx sy,
    QPGA_call initializers q (ComplexTensor [vadd (vscale a x) (vscale b y)])
    = Ok (q', out) /\
    QPGA_call initializers q' (ComplexTensor [x]) = Ok (q', out_x) /\
    QPGA_call initializers q' (ComplexTensor [y]) = Ok (q', out_y) /\
    states_of out_x = [sx] /\
    states_of out_y = [sy] /\
    states_of out = [vadd (vscale a sx) (vscale b sy)].
Proof.
  intros Hn HB H1 H2 Hq Hx Hy.
  assert (Wx : has_width (dim n) [x] = true).
  { cbn. now rewrite Hx, Nat.eqb_refl. }
  assert (Wy : has_width (dim n) [y] = true).
  { cbn. now rewrite Hy, Nat.eqb_refl. }
  assert (Wxy : has_width (dim n) [vadd (vscale a x) (vscale b y)] = true).
  { cbn [has_width forallb]. rewrite vadd_length, !vscale_length, Hx, Hy.
    now rewrite Nat.max_id, Nat.eqb_refl. }
  pose proof (@QPGA_init_state n d true co std initializers q Hq) as S0.
  pose proof (built_circuit_state n d true co std initializers) as S1.
  do 6 eexists.
  split; [exact (@QPGA_call_ok n d true co std initializers q
                   (ComplexTensor [vadd (vscale a x) (vscale b y)])
                   Hn HB H1 H2 S0 Wxy)|].
  split; [exact (@QPGA_call_ok n d true co std initializers _
                   (ComplexTensor [x]) Hn HB H1 H2 S1 Wx)|].
  split; [exact (@QPGA_call_ok n d true co std initializers _
                   (ComplexTensor [y]) Hn HB H1 H2 S1 Wy)|].
  rewrite !states_of_encode_output. cbn [states_of].
  rewrite !apply_matrices_row.
  split; [reflexivity|]. split; [reflexivity|].
  now rewrite fold_vecmat_linear.
Qed.

End Model.

(** * The model on concrete gate constants and inputs *)

Lemma inv_sqrt2_sqr : (/ sqrt 2 * / sqrt 2 = / 2)%R.
Proof.
  rewrite <- Rinv_mult. f_equal. apply sqrt_sqrt. lra.
Qed.

Lemma beam_splitter_unitary : unitary 2 beam_splitter.
Proof.
  split; [reflexivity|].
  pose proof inv_sqrt2_sqr as Hs.
  unfold beam_splitter. simpl. unfold inner. simpl.
  repeat split; try constructor; try constructor; csimpl; f_equal; nra.
Qed.

Lemma controlled_phase_unitary : unitary 4 controlled_phase.
Proof.
  apply (@unitary_tensor_diag [C1; C1; C1; (-1, 0)%R]).
  repeat constructor; csimpl; ring.
Qed.

Lemma controlled_phase_mod_unitary : unitary 4 controlled_phase_mod.
Proof.
  apply (@unitary_tensor_diag [C1; C1; (-1, 0)%R; C1]).
  repeat constructor; csimpl; ring.
Qed.

Lemma basis_row_normalized : Forall (fun s => norm s = 1%R) [[C1; C0; C0; C0]].
Proof.
  repeat constructor. unfold norm, norm2. simpl. csimpl.
  replace (1 * 1 + 0 * 0 + (0 * 0 + 0 * 0 + (0 * 0 + 0 * 0 + (0 * 0 + 0 * 0 + 0))))%R
    with 1%R by ring.
  apply sqrt_1.
Qed.

Ltac eval_layer :=
  cbv [apply_matrices single_qubit_factors fold_left matmul map vecmat vadd vscale
       phase_diagonal kronecker_product fold_right kron flat_map kron_row combine
       qubit_phase_matrix phase tf_complex zeros_like repeat length
       beam_splitter_power app beam_splitter C0 C1 Cadd Cmul fst snd].

(** One qubit, all phases 0, the state [|0>]: the layer returns [i |1>]. *)
Lemma single_qubit_layer_at_zero :
  apply_matrices [[C1; C0]]
    (single_qubit_factors beam_splitter 1 [0%R] [0%R] [0%R] [0%R])
  = [[(0, 0)%R; (0, 1)%R]].
Proof.
  unfold single_qubit_factors, beam_splitter_power.
  change (Z.to_nat 1) with 1%nat.
  eval_layer. rewrite cos_0, sin_0.
  pose proof inv_sqrt2_sqr as Hs.
  set (s := (/ sqrt 2)%R) in *.
  repeat f_equal; ring_simplify; try nra.
Qed.

(** The same with alpha = pi: the layer derived from these phases returns
    [- i |1>]. *)
Lemma single_qubit_layer_at_pi :
  apply_matrices [[C1; C0]]
    (single_qubit_factors beam_splitter 1 [PI] [0%R] [0%R] [0%R])
  = [[(0, 0)%R; (0, -1)%R]].
Proof.
  unfold single_qubit_factors, beam_splitter_power.
  change (Z.to_nat 1) with 1%nat.
  eval_layer. rewrite cos_0, sin_0, cos_PI, sin_PI.
  pose proof inv_sqrt2_sqr as Hs.
  set (s := (/ sqrt 2)%R) in *.
  repeat f_equal; ring_simplify; try nra.
Qed.

(** A layer on one qubit is built with all phases 0, and then alpha is
    assigned pi.  Before the assignment a forward pass on [|0>] returns
    [i |1>] under both execution modes.  After it, a forward pass returns
    [i |1>] again under eager execution and [- i |1>], the state that the
    matrices derived from the new phases give, under graph execution. *)
Lemma single_qubit_layer_alpha_assigned :
  let x := [[C1; C0]] in
  let attrs := initial_attrs beam_splitter 1 (constant_init 0) in
  exists attrs',
    SingleQubitOperationLayer_set_weights [[PI]; [0%R]; [0%R]; [0%R]] attrs
    = Ok attrs' /\
    alphas attrs' = [PI] /\ betas attrs' = [0%R] /\
    thetas attrs' = [0%R] /\ phis attrs' = [0%R] /\
    (forall mode,
       SingleQubitOperationLayer_forward mode attrs x = Ok [[(0, 0)%R; (0, 1)%R]]) /\
    SingleQubitOperationLayer_forward EagerExecution attrs' x
    = Ok [[(0, 0)%R; (0, 1)%R]] /\
    SingleQubitOperationLayer_forward GraphExecution attrs' x
    = Ok [[(0, 0)%R; (0, -1)%R]].
Proof.
  cbv zeta.
  assert (Hcall : SingleQubitOperationLayer_call
                    (initial_attrs beam_splitter 1 (constant_init 0)) [[C1; C0]]
                  = Ok [[(0, 0)%R; (0, 1)%R]]).
  { rewrite (@SingleQubitOperationLayer_call_ok 1
               (initial_attrs beam_splitter 1 (constant_init 0)) [[C1; C0]]
               ltac:(lia)
               (@initial_attrs_shaped beam_splitter 1 (constant_init 0)
                  ltac:(lia) eq_refl)
               eq_refl).
    f_equal. exact single_qubit_layer_at_zero. }
  eexists. split; [reflexivity|].
  destruct (@SingleQubitOperationLayer_forward_assigned beam_splitter 1
              (constant_init 0) [PI] [0%R] [0%R] [0%R] _ [[C1; C0]]
              ltac:(lia) eq_refl eq_refl eq_refl)
    as (Ea & Eb & Et & Ep & Heager & Hgraph).
  split; [exact Ea|]. split; [exact Eb|]. split; [exact Et|]. split; [exact Ep|].
  split; [|split].
  - intros mode.
    now rewrite (@SingleQubitOperationLayer_forward_built beam_splitter 1
                   (constant_init 0) mode [[C1; C0]] ltac:(lia)).
  - now rewrite Heager.
  - rewrite Hgraph. f_equal. exact single_qubit_layer_at_pi.
Qed.


(** C5 at the failing input.  A layer on one qubit is built with all
    phases 0 and run on [|0>]: it returns [i |1>].  Then alpha is assigned
    pi, and the layer is run on [|0>] again.  The claim asks for the state
    that the current phases give, [- i |1>].  Under eager execution the
    second pass returns [i |1>], as the first: the matrices of [build] are
    used and the new alpha is ignored.  Under graph execution the second
    pass returns [- i |1>]. *)
Theorem phases_assigned_after_build :
  let x := [[C1; C0]] in
  exists self attrs attrs',
    SingleQubitOperationLayer_init 1 = Ok self /\
    SingleQubitOperationLayer_build beam_splitter (constant_init 0) self x
    = Ok attrs /\
    (forall mode,
       SingleQubitOperationLayer_forward mode attrs x = Ok [[(0, 0)%R; (0, 1)%R]]) /\
    SingleQubitOperationLayer_set_weights [[PI]; [0%R]; [0%R]; [0%R]] attrs
    = Ok attrs' /\
    alphas attrs' = [PI] /\ betas attrs' = [0%R] /\
    thetas attrs' = [0%R] /\ phis attrs' = [0%R] /\
    apply_matrices x
      (single_qubit_factors beam_splitter 1 (alphas attrs') (betas attrs')
         (thetas attrs') (phis attrs'))
    = [[(0, 0)%R; (0, -1)%R]] /\
    SingleQubitOperationLayer_forward EagerExecution attrs' x
    = Ok [[(0, 0)%R; (0, 1)%R]] /\
    SingleQubitOperationLayer_forward GraphExecution attrs' x
    = Ok [[(0, 0)%R; (0, -1)%R]].
Proof.
  cbv zeta.
  destruct single_qubit_layer_alpha_assigned
    as (attrs' & Hset & Ea & Eb & Et & Ep & Hfirst & Heager & Hgraph).
  exists (unbuilt_single 1), (initial_attrs beam_splitter 1 (constant_init 0)), attrs'.
  split; [reflexivity|].
  split; [apply SingleQubitOperationLayer_build_ok; [lia|reflexivity]|].
  split; [exact Hfirst|]. split; [exact Hset|].
  split; [exact Ea|]. split; [exact Eb|]. split; [exact Et|]. split; [exact Ep|].
  rewrite Ea, Eb, Et, Ep.
  split; [exact single_qubit_layer_at_pi|]. split; [exact Heager|exact Hgraph].
Qed.

(** C6, counterexample.  The constructor returns a circuit for a negative
    depth (a circuit without layer pair), for no qubit and for a negative
    number of qubits (where [2 ** num_qubits] is a float). *)
Lemma QPGA_init_accepts_any_configuration :
  QPGA_init 2 (-1) false false true
  = Ok {| num_qubits := 2;
          input_dim := Py.Int 4;
          depth := -1;
          complex_inputs := false;
          complex_outputs := false;
          use_standard_cphase := true;
          input_layer := {| sq_num_qubits := 2;
                            sq_output_dim := Py.Int 4;
                            sq_built := None |};
          single_qubit_layers := [];
          cphase_layers := [] |}
  /\
  QPGA_init 0 0 false false true
  = Ok {| num_qubits := 0;
          input_dim := Py.Int 1;
          depth := 0;
          complex_inputs := false;
          complex_outputs := false;
          use_standard_cphase := true;
          input_layer := {| sq_num_qubits := 0;
                            sq_output_dim := Py.Int 1;
                            sq_built := None |};
          single_qubit_layers := [];
          cphase_layers := [] |}
  /\
  QPGA_init (-1) 1 false false true
  = Ok {| num_qubits := -1;
          input_dim := Py.FloatPow2 (-1);
          depth := 1;
          complex_inputs := false;
          complex_outputs := false;
          use_standard_cphase := true;
          input_layer := {| sq_num_qubits := -1;
                            sq_output_dim := Py.FloatPow2 (-1);
                            sq_built := None |};
          single_qubit_layers := [{| sq_num_qubits := -1;
                                     sq_output_dim := Py.FloatPow2 (-1);
                                     sq_built := None |}];
          cphase_layers := [{| cp_num_qubits := -1;
                               cp_parity := 0;
                               cp_use_standard_cphase := true;
                               cp_output_dim := Py.FloatPow2 (-1);
                               cp_built := None |}] |}.
Proof. repeat split. Qed.

(** ** The theorems at concrete inputs *)

(** C1 at a circuit on two qubits of depth one, complex input and output,
    on the state [|00>]. *)
Lemma QPGA_forward_witness :
  exists q q',
    QPGA_init 2 1 true true true = Ok q /\
    well_formed_input true (dim 2) (ComplexTensor [[C1; C0; C0; C0]]) = true /\
    QPGA_call beam_splitter controlled_phase controlled_phase_mod
      (fun _ => constant_init 0) q (ComplexTensor [[C1; C0; C0; C0]])
    = Ok (q',
          ComplexTensor
            (matmul [[C1; C0; C0; C0]]
               (matrix_product (dim 2)
                  (circuit_matrices beam_splitter controlled_phase
                     controlled_phase_mod 2 1 true (fun _ => constant_init 0))))).
Proof.
  eexists.
  destruct (@QPGA_forward beam_splitter controlled_phase controlled_phase_mod
              2 1 true true true (fun _ => constant_init 0) _
              (ComplexTensor [[C1; C0; C0; C0]])
              ltac:(lia) ltac:(lia) eq_refl eq_refl eq_refl eq_refl eq_refl)
    as (q' & H & _).
  exists q'. split; [reflexivity|]. split; [reflexivity|]. exact H.
Defined.


(** C3 at three qubits with the standard gate. *)
Lemma entangling_layer_blocks_witness :
  let x := [[C1; C0; C0; C0; C0; C0; C0; C0]] in
  has_width (dim 3) x = true /\
  (exists layer attrs,
     CPhaseLayer_init 3 0 true = Ok layer /\
     CPhaseLayer_build controlled_phase controlled_phase_mod layer x = Ok attrs /\
     transfer_matrix attrs = kronecker_product [controlled_phase; IDENTITY]) /\
  (exists layer attrs,
     CPhaseLayer_init 3 1 true = Ok layer /\
     CPhaseLayer_build controlled_phase controlled_phase_mod layer x = Ok attrs /\
     transfer_matrix attrs = kronecker_product [IDENTITY; controlled_phase]).
Proof.
  cbv zeta.
  destruct (@entangling_layer_blocks controlled_phase controlled_phase_mod 3 true
              [[C1; C0; C0; C0; C0; C0; C0; C0]] ltac:(lia) eq_refl)
    as ((l0 & a0 & I0 & B0 & _ & T0) & (l1 & a1 & I1 & B1 & _ & T1) & _).
  split; [reflexivity|]. split.
  - exists l0, a0. split; [exact I0|]. split; [exact B0|exact T0].
  - exists l1, a1. split; [exact I1|]. split; [exact B1|exact T1].
Defined.

(** C4 at two qubits, with a negative and a large phase. *)
Lemma phase_diagonal_builder_witness :
  exists op d,
    phase_shifts_to_tensor_product_space [0%R; (-7)%R] [PI; 1000%R] = Ok op /\
    to_dense op = tensor_diag d /\
    length d = 4%nat /\
    Forall (fun z => Cabs z = 1%R) d.
Proof.
  destruct (@phase_diagonal_builder 2 [0%R; (-7)%R] [PI; 1000%R]
              ltac:(lia) eq_refl eq_refl)
    as (op & d & H1 & _ & _ & H2 & H3 & H4 & _).
  exists op, d. repeat split; assumption.
Defined.

(** C6 (amended) at [num_qubits = -3] with depth 2, and at the largest
    [num_qubits] for which [2 ** num_qubits] overflows. *)
Lemma QPGA_init_no_validation_witness :
  (exists q,
     QPGA_init (-3) 2 false false true = Ok q /\
     num_qubits q = (-3)%Z /\
     length (cphase_layers q) = 2%nat) /\
  QPGA_init (- Py.float_limit) 2 false false true = Err OverflowError.
Proof.
  destruct (@QPGA_init_no_validation (-3) 2 false false true) as [H _].
  destruct (H eq_refl) as (q & l0 & Hq & _ & Hn & _ & _ & Hc & _).
  destruct (@QPGA_init_no_validation (- Py.float_limit) 2 false false true)
    as [_ H'].
  split.
  - exists q. split; [exact Hq|]. split; [exact Hn|].
    apply Forall2_length in Hc. now rewrite <- Hc.
  - apply H'. apply Z.le_refl.
Defined.

(** C7 at a circuit on two qubits of depth one with complex input and
    output, on the state [|00>]. *)
Lemma as_sequential_same_as_call_witness :
  exists q q' model,
    QPGA_init 2 1 true true true = Ok q /\
    as_sequential beam_splitter controlled_phase controlled_phase_mod
      (fun _ => constant_init 0) q = Ok (q', model) /\
    Sequential_call beam_splitter controlled_phase controlled_phase_mod
      (fun _ => constant_init 0) model q' (ComplexTensor [[C1; C0; C0; C0]])
    = QPGA_call beam_splitter controlled_phase controlled_phase_mod
        (fun _ => constant_init 0) q' (ComplexTensor [[C1; C0; C0; C0]]).
Proof.
  eexists. eexists. eexists. split; [reflexivity|].
  assert (H := @as_sequential_ok beam_splitter controlled_phase
                 controlled_phase_mod 2 1 true true true
                 (fun _ => constant_init 0) _
                 ltac:(lia) eq_refl eq_refl eq_refl
                 (@QPGA_init_state _ _ _ 2 1 true true true _ _ eq_refl)).
  split; [exact H|].
  exact (proj1 (@as_sequential_same_as_call beam_splitter controlled_phase
                  controlled_phase_mod (fun _ => constant_init 0) _ _ _ H
                  (fun _ => constant_init 0) (ComplexTensor [[C1; C0; C0; C0]]))).
Defined.

(** C8 at a circuit on two qubits of depth one, on the state [|00>]. *)
Lemma QPGA_preserves_norm_witness :
  exists q q' out,
    QPGA_init 2 1 true true true = Ok q /\
    Forall (fun s => norm s = 1%R) [[C1; C0; C0; C0]] /\
    QPGA_call beam_splitter controlled_phase controlled_phase_mod
      (fun _ => constant_init 0) q (ComplexTensor [[C1; C0; C0; C0]])
    = Ok (q', out) /\
    Forall (fun s => norm s = 1%R) (states_of out).
Proof.
  eexists.
  destruct (@QPGA_preserves_norm beam_splitter controlled_phase
              controlled_phase_mod 2 1 true true true (fun _ => constant_init 0) _
              (ComplexTensor [[C1; C0; C0; C0]])
              ltac:(lia) ltac:(lia)
              beam_splitter_unitary controlled_phase_unitary
              controlled_phase_mod_unitary eq_refl eq_refl basis_row_normalized)
    as (_ & q' & out & H & N & _).
  exists q', out. split; [reflexivity|].
  split; [exact basis_row_normalized|]. split; [exact H|exact N].
Defined.

(** C9 at the two basis states of one qubit. *)
Lemma antifidelity_spec_witness :
  well_formed_real 2 [basis_state 2 0] = true /\
  well_formed_real 2 [basis_state 2 1] = true /\
  exists v,
    antifidelity [basis_state 2 0] [basis_state 2 1] = Ok v /\
    v = map (fun tp => (1 - Cabs (overlap (fst tp) (snd tp)) ^ 2)%R)
            (combine (k_to_tf_complex [basis_state 2 0])
                     (k_to_tf_complex [basis_state 2 1])).
Proof.
  destruct (@antifidelity_spec 2 [basis_state 2 0] [basis_state 2 1]
              eq_refl eq_refl eq_refl)
    as ((v & H1 & H2 & _) & _).
  split; [reflexivity|]. split; [reflexivity|].
  exists v. split; assumption.
Defined.

(** C10 at one qubit, parity 0, on the state [|0>]. *)
Lemma entangling_layer_without_gate_witness :
  has_width (dim 1) [[C1; C0]] = true /\
  exists layer,
    CPhaseLayer_init 1 0 true = Ok layer /\
    CPhaseLayer_ops controlled_phase controlled_phase_mod layer = [IDENTITY] /\
    exists attrs,
      CPhaseLayer_build controlled_phase controlled_phase_mod layer [[C1; C0]]
      = Ok attrs /\
      transfer_matrix attrs = identity_matrix (dim 1) /\
      CPhaseLayer_call attrs [[C1; C0]] = Ok [[C1; C0]].
Proof.
  destruct (@entangling_layer_without_gate controlled_phase controlled_phase_mod
              1 0 true [[C1; C0]]
              (or_introl (conj eq_refl (or_introl eq_refl))) eq_refl)
    as (layer & Hl & Hops & attrs & Hb & Ht & Hc & _).
  split; [reflexivity|]. exists layer. split; [exact Hl|]. split; [exact Hops|].
  exists attrs. repeat split; assumption.
Defined.

(** ** The further properties at concrete inputs *)

Lemma basis_state_normalized i :
  (i < 2)%nat ->
  Forall (fun s => norm s = 1%R) (k_to_tf_complex [basis_state 2 i]).
Proof.
  intros Hi. destruct i as [|[|i]]; [| |lia];
    repeat constructor; unfold norm, norm2; cbn; csimpl;
    match goal with |- sqrt ?e = _ => replace e with 1%R by ring end;
    apply sqrt_1.
Qed.

(** The first forward pass of the circuit on two qubits of depth one with
    all phases 0, on the state [|00>]. *)
Lemma QPGA_call_at_basis_state :
  exists q q' out,
    QPGA_init 2 1 true true true = Ok q /\
    QPGA_call beam_splitter controlled_phase controlled_phase_mod
      (fun _ => constant_init 0) q (ComplexTensor [[C1; C0; C0; C0]])
    = Ok (q', out).
Proof.
  eexists. eexists. eexists. split; [reflexivity|].
  apply (@QPGA_call_ok beam_splitter controlled_phase controlled_phase_mod
           2 1 true true true (fun _ => constant_init 0) _
           (ComplexTensor [[C1; C0; C0; C0]])
           ltac:(lia) eq_refl eq_refl eq_refl
           (@QPGA_init_state _ _ _ 2 1 true true true _ _ eq_refl) eq_refl).
Defined.

(** X3 at a built layer on one qubit, on a batch of one state. *)
Lemma SingleQubitOperationLayer_output_shape_witness :
  let self := {| sq_num_qubits := 1;
                 sq_output_dim := Py.Int 2;
                 sq_built := Some (initial_attrs beam_splitter 1 (constant_init 0)) |} in
  shape_is [1; 2]%Z [[C1; C0]] = true /\
  has_width (dim 1) [[C1; C0]] = true /\
  exists out,
    SingleQubitOperationLayer_apply beam_splitter (constant_init 0) self [[C1; C0]]
    = Ok (self, out) /\
    shape_is (SingleQubitOperationLayer_compute_output_shape self [1; 2]%Z) out = true.
Proof.
  cbv zeta. split; [reflexivity|]. split; [reflexivity|].
  exact (@SingleQubitOperationLayer_output_shape beam_splitter 1 (constant_init 0)
           {| sq_num_qubits := 1;
              sq_output_dim := Py.Int 2;
              sq_built := Some (initial_attrs beam_splitter 1 (constant_init 0)) |}
           (initial_attrs beam_splitter 1 (constant_init 0))
           [1; 2]%Z [[C1; C0]] ltac:(lia) eq_refl
           (@initial_attrs_shaped beam_splitter 1 (constant_init 0)
              ltac:(lia) eq_refl)
           eq_refl eq_refl).
Defined.

(** X4 at a built layer on one qubit, on a batch of two states. *)
Lemma CPhaseLayer_output_shape_witness :
  let attrs := {| transfer_matrix_np := identity_matrix 2;
                  transfer_matrix := identity_matrix 2 |} in
  let self := {| cp_num_qubits := 1;
                 cp_parity := 0;
                 cp_use_standard_cphase := true;
                 cp_output_dim := Py.Int 2;
                 cp_built := Some attrs |} in
  let x := [[C1; C0]; [C0; C1]] in
  shape_is [2; 2]%Z x = true /\
  has_width (dim 1) x = true /\
  exists out,
    CPhaseLayer_apply controlled_phase controlled_phase_mod self x = Ok (self, out) /\
    shape_is (CPhaseLayer_compute_output_shape self [2; 2]%Z) out = true.
Proof.
  cbv zeta. split; [reflexivity|]. split; [reflexivity|].
  exact (@CPhaseLayer_output_shape controlled_phase controlled_phase_mod 1
           {| cp_num_qubits := 1;
              cp_parity := 0;
              cp_use_standard_cphase := true;
              cp_output_dim := Py.Int 2;
              cp_built := Some {| transfer_matrix_np := identity_matrix 2;
                                  transfer_matrix := identity_matrix 2 |} |}
           {| transfer_matrix_np := identity_matrix 2;
              transfer_matrix := identity_matrix 2 |}
           [2; 2]%Z [[C1; C0]; [C0; C1]] ltac:(lia) eq_refl
           (identity_matrix_has_shape 2) eq_refl eq_refl).
Defined.

(** X6 at three qubits and the parities 5 and -2. *)
Lemma CPhaseLayer_nonzero_parity_witness :
  exists layer5 layer_2 layer1,
    CPhaseLayer_init 3 5 true = Ok layer5 /\
    CPhaseLayer_init 3 (-2) true = Ok layer_2 /\
    CPhaseLayer_init 3 1 true = Ok layer1 /\
    CPhaseLayer_ops controlled_phase controlled_phase_mod layer5
    = CPhaseLayer_ops controlled_phase controlled_phase_mod layer1 /\
    CPhaseLayer_ops controlled_phase controlled_phase_mod layer_2
    = CPhaseLayer_ops controlled_phase controlled_phase_mod layer1.
Proof.
  do 3 eexists. split; [reflexivity|]. split; [reflexivity|].
  split; [reflexivity|]. split.
  - exact (proj1 (@CPhaseLayer_nonzero_parity controlled_phase controlled_phase_mod
                    3 5 true [] _ _ ltac:(lia) eq_refl eq_refl)).
  - exact (proj1 (@CPhaseLayer_nonzero_parity controlled_phase controlled_phase_mod
                    3 (-2) true [] _ _ ltac:(lia) eq_refl eq_refl)).
Defined.

(** X7 at a layer on one qubit and a row of three amplitudes. *)
Lemma SingleQubitOperationLayer_assertion_witness :
  has_width (dim 1) [[C1; C0; C0]] = false /\
  exists self,
    SingleQubitOperationLayer_init 1 = Ok self /\
    SingleQubitOperationLayer_apply beam_splitter (constant_init 0)
      self [[C1; C0; C0]] = Err AssertionError.
Proof.
  split; [reflexivity|].
  destruct (@SingleQubitOperationLayer_assertion beam_splitter 1
              (constant_init 0) [[C1; C0; C0]] ltac:(lia) eq_refl)
    as (self & Hs & _ & Ha).
  exists self. split; [exact Hs|exact Ha].
Defined.

(** X8 at a layer on two qubits and a row of two amplitudes. *)
Lemma CPhaseLayer_assertion_witness :
  has_width (dim 2) [[C1; C0]] = false /\
  exists self,
    CPhaseLayer_init 2 0 true = Ok self /\
    CPhaseLayer_apply controlled_phase controlled_phase_mod
      self [[C1; C0]] = Err AssertionError.
Proof.
  split; [reflexivity|].
  destruct (@CPhaseLayer_assertion controlled_phase controlled_phase_mod
              2 0 true [[C1; C0]] ltac:(lia) eq_refl)
    as (self & Hs & _ & Ha).
  exists self. split; [exact Hs|exact Ha].
Defined.

(** X9 at a circuit on two qubits given a state of one qubit. *)
Lemma QPGA_call_wrong_dimension_witness :
  exists q,
    QPGA_init 2 1 true true true = Ok q /\
    has_width (dim 2) (states_of (ComplexTensor [[C1; C0]])) = false /\
    QPGA_call beam_splitter controlled_phase controlled_phase_mod
      (fun _ => constant_init 0) q (ComplexTensor [[C1; C0]])
    = Err AssertionError.
Proof.
  eexists. split; [reflexivity|]. split; [reflexivity|].
  exact (@QPGA_call_wrong_dimension beam_splitter controlled_phase
           controlled_phase_mod 2 1 true true true (fun _ => constant_init 0) _
           (ComplexTensor [[C1; C0]]) ltac:(lia) eq_refl eq_refl eq_refl).
Defined.

(** X10 at the first forward pass of a circuit on two qubits of depth
    one. *)
Lemma QPGA_call_keeps_circuit_witness :
  exists q q' out,
    QPGA_init 2 1 true true true = Ok q /\
    QPGA_call beam_splitter controlled_phase controlled_phase_mod
      (fun _ => constant_init 0) q (ComplexTensor [[C1; C0; C0; C0]])
    = Ok (q', out) /\
    num_qubits q' = num_qubits q /\
    depth q' = depth q /\
    sq_built (input_layer q') <> None.
Proof.
  destruct QPGA_call_at_basis_state as (q & q' & out & Hq & H).
  exists q, q', out. split; [exact Hq|]. split; [exact H|].
  destruct (@QPGA_call_keeps_circuit beam_splitter controlled_phase
              controlled_phase_mod (fun _ => constant_init 0) q q'
              (ComplexTensor [[C1; C0; C0; C0]]) out H)
    as (H1 & _ & H3 & _ & _ & _ & _ & _ & _ & H10 & _).
  split; [exact H1|]. split; [exact H3|exact H10].
Defined.

(** X11 at the same forward pass, repeated with initializers that would
    draw 1 for every phase. *)
Lemma QPGA_call_settled_witness :
  exists q q' out,
    QPGA_init 2 1 true true true = Ok q /\
    QPGA_call beam_splitter controlled_phase controlled_phase_mod
      (fun _ => constant_init 0) q (ComplexTensor [[C1; C0; C0; C0]])
    = Ok (q', out) /\
    QPGA_call beam_splitter controlled_phase controlled_phase_mod
      (fun _ => constant_init 1) q' (ComplexTensor [[C1; C0; C0; C0]])
    = Ok (q', out).
Proof.
  destruct QPGA_call_at_basis_state as (q & q' & out & Hq & H).
  exists q, q', out. split; [exact Hq|]. split; [exact H|].
  exact (@QPGA_call_settled beam_splitter controlled_phase controlled_phase_mod
           (fun _ => constant_init 0) q q' (ComplexTensor [[C1; C0; C0; C0]]) out
           H (fun _ => constant_init 1)).
Defined.

(** X12 at a circuit constructed with no qubit. *)
Lemma QPGA_call_fails_without_qubits_witness :
  exists q e,
    QPGA_init 0 1 true true true = Ok q /\
    QPGA_call beam_splitter controlled_phase controlled_phase_mod
      (fun _ => constant_init 0) q (ComplexTensor [[C1]]) = Err e.
Proof.
  eexists.
  destruct (@QPGA_call_fails_without_qubits beam_splitter controlled_phase
              controlled_phase_mod 0 1 true true true (fun _ => constant_init 0) _
              (ComplexTensor [[C1]]) ltac:(lia) eq_refl) as (e & H).
  exists e. split; [reflexivity|exact H].
Defined.

(** X13 at a circuit on two qubits of depth two with real input and
    output. *)
Lemma as_sequential_layers_witness :
  exists q q' model,
    QPGA_init 2 2 false false true = Ok q /\
    as_sequential beam_splitter controlled_phase controlled_phase_mod
      (fun _ => constant_init 0) q = Ok (q', model) /\
    seq_layers model
    = [Input [Py.Int 2; Py.Int 4] float64; Lambda lambda_k_to_tf_complex;
       InputLayerRef;
       CPhaseLayerRef 0; SingleQubitLayerRef 0;
       CPhaseLayerRef 1; SingleQubitLayerRef 1;
       Lambda lambda_tf_to_k_complex].
Proof.
  eexists.
  destruct (@as_sequential_layers beam_splitter controlled_phase
              controlled_phase_mod 2 2 false false true
              (fun _ => constant_init 0) _
              ltac:(lia) eq_refl eq_refl eq_refl eq_refl)
    as (q' & model & H & _ & L & _).
  exists q', model. split; [reflexivity|]. split; [exact H|exact L].
Defined.

(** X25 at a circuit constructed with no qubit. *)
Lemma as_sequential_fails_without_qubits_witness :
  exists q e,
    QPGA_init 0 1 true true true = Ok q /\
    as_sequential beam_splitter controlled_phase controlled_phase_mod
      (fun _ => constant_init 0) q = Err e.
Proof.
  eexists.
  destruct (@as_sequential_fails_without_qubits beam_splitter controlled_phase
              controlled_phase_mod 0 1 true true true
              (fun _ => constant_init 0) _ ltac:(lia) eq_refl) as (e & H).
  exists e. split; [reflexivity|exact H].
Defined.

(** X14 at the two basis states of one qubit. *)
Lemma antifidelity_symmetric_witness :
  well_formed_real 2 [basis_state 2 0] = true /\
  well_formed_real 2 [basis_state 2 1] = true /\
  antifidelity [basis_state 2 1] [basis_state 2 0]
  = antifidelity [basis_state 2 0] [basis_state 2 1].
Proof.
  split; [reflexivity|]. split; [reflexivity|].
  exact (@antifidelity_symmetric 2 [basis_state 2 0] [basis_state 2 1]
           eq_refl eq_refl eq_refl).
Defined.

(** X15 at two states that are not normalized. *)
Lemma antifidelity_at_most_1_witness :
  let t := [[[3; 0]; [0; 4]]]%R in
  let p := [[[1; 1]; [1; 1]]]%R in
  well_formed_real 2 t = true /\
  well_formed_real 2 p = true /\
  exists v,
    antifidelity t p = Ok v /\ Forall (fun a => (a <= 1)%R) v.
Proof.
  cbv zeta. split; [reflexivity|]. split; [reflexivity|].
  destruct (@antifidelity_at_most_1 2 [[[3; 0]; [0; 4]]]%R [[[1; 1]; [1; 1]]]%R
              eq_refl eq_refl eq_refl) as (v & Hv & HF).
  exists v. split; [exact Hv|].
  clear Hv. revert HF.
  generalize (combine (k_to_tf_complex [[[3; 0]; [0; 4]]]%R)
                      (k_to_tf_complex [[[1; 1]; [1; 1]]]%R)).
  intros l HF. induction HF as [|tp a l v [Ha _] _ IH]; constructor; assumption.
Defined.

(** X16 at a basis state of one qubit against itself. *)
Lemma antifidelity_zero_iff_global_phase_witness :
  well_formed_real 2 [basis_state 2 0] = true /\
  Forall (fun s => norm s = 1%R) (k_to_tf_complex [basis_state 2 0]) /\
  exists v,
    antifidelity [basis_state 2 0] [basis_state 2 0] = Ok v /\
    Forall2
      (fun tp a =>
         a = 0%R <-> exists w, Cnorm2 w = 1%R /\ snd tp = vscale w (fst tp))
      (combine (k_to_tf_complex [basis_state 2 0])
               (k_to_tf_complex [basis_state 2 0])) v.
Proof.
  split; [reflexivity|].
  split; [exact (@basis_state_normalized 0 ltac:(lia))|].
  exact (@antifidelity_zero_iff_global_phase 2 [basis_state 2 0] [basis_state 2 0]
           eq_refl eq_refl eq_refl
           (@basis_state_normalized 0 ltac:(lia))
           (@basis_state_normalized 0 ltac:(lia))).
Defined.

Lemma minus_basis_state :
  Forall2 (fun b b' => exists w, Cnorm2 w = 1%R /\ b' = vscale w b)
    (k_to_tf_complex [basis_state 2 0])
    (k_to_tf_complex [[[-1; 0]; [0; 0]]]%R).
Proof.
  repeat constructor. exists (-1, 0)%R. split; [csimpl; ring|].
  cbn. unfold tf_complex. repeat f_equal; csimpl; f_equal; ring.
Qed.

(** X17 at a basis state of one qubit and its opposite. *)
Lemma antifidelity_global_phase_witness :
  well_formed_real 2 [basis_state 2 1] = true /\
  well_formed_real 2 [basis_state 2 0] = true /\
  well_formed_real 2 [[[-1; 0]; [0; 0]]]%R = true /\
  antifidelity [basis_state 2 1] [[[-1; 0]; [0; 0]]]%R
  = antifidelity [basis_state 2 1] [basis_state 2 0].
Proof.
  split; [reflexivity|]. split; [reflexivity|]. split; [reflexivity|].
  exact (@antifidelity_global_phase 2 [basis_state 2 1] [basis_state 2 0]
           [[[-1; 0]; [0; 0]]]%R eq_refl eq_refl eq_refl eq_refl
           minus_basis_state).
Defined.

(** X18 at a circuit on one qubit of depth one and the two basis
    states. *)
Lemma QPGA_keeps_antifidelity_witness :
  exists q q' out_true out_pred,
    QPGA_init 1 1 false false true = Ok q /\
    QPGA_call beam_splitter controlled_phase controlled_phase_mod
      (fun _ => constant_init 0) q (RealTensor [basis_state 2 0])
    = Ok (q', RealTensor out_true) /\
    QPGA_call beam_splitter controlled_phase controlled_phase_mod
      (fun _ => constant_init 0) q' (RealTensor [basis_state 2 1])
    = Ok (q', RealTensor out_pred) /\
    antifidelity out_true out_pred
    = antifidelity [basis_state 2 0] [basis_state 2 1].
Proof.
  eexists.
  destruct (@QPGA_keeps_antifidelity beam_splitter controlled_phase
              controlled_phase_mod 1 1 true (fun _ => constant_init 0) _
              [basis_state 2 0] [basis_state 2 1] ltac:(lia)
              beam_splitter_unitary controlled_phase_unitary
              controlled_phase_mod_unitary eq_refl eq_refl eq_refl eq_refl)
    as (q' & ot & op & H1 & H2 & H3).
  exists q', ot, op. split; [reflexivity|].
  split; [exact H1|]. split; [exact H2|exact H3].
Defined.

(** X19 at a circuit on two qubits with real input and complex output. *)
Lemma QPGA_output_well_formed_witness :
  exists q q' out,
    QPGA_init 2 1 false true true = Ok q /\
    well_formed_input false (dim 2) (RealTensor [basis_state 4 0; basis_state 4 3])
    = true /\
    QPGA_call beam_splitter controlled_phase controlled_phase_mod
      (fun _ => constant_init 0) q (RealTensor [basis_state 4 0; basis_state 4 3])
    = Ok (q', out) /\
    well_formed_input true (dim 2) out = true /\
    length (states_of out) = 2%nat.
Proof.
  eexists.
  destruct (@QPGA_output_well_formed beam_splitter controlled_phase
              controlled_phase_mod 2 1 false true true (fun _ => constant_init 0) _
              (RealTensor [basis_state 4 0; basis_state 4 3])
              ltac:(lia) eq_refl eq_refl eq_refl eq_refl eq_refl)
    as (q' & out & H1 & H2 & H3 & _).
  exists q', out. split; [reflexivity|]. split; [reflexivity|].
  split; [exact H1|]. split; [exact H2|exact H3].
Defined.

(** X20 at a layer on two qubits, on the state [|00>]. *)
Lemma single_qubit_layer_zero_phases_witness :
  let x := [[C1; C0; C0; C0]] in
  has_width (dim 2) x = true /\
  exists self attrs,
    SingleQubitOperationLayer_init 2 = Ok self /\
    SingleQubitOperationLayer_build beam_splitter (constant_init 0)
      self x = Ok attrs /\
    SingleQubitOperationLayer_call attrs x
    = Ok (matmul (matmul x (kronecker_product [beam_splitter; beam_splitter]))
            (kronecker_product [beam_splitter; beam_splitter])).
Proof.
  cbv zeta. split; [reflexivity|].
  destruct (@single_qubit_layer_zero_phases beam_splitter 2
              [[C1; C0; C0; C0]] [[C1; C0; C0; C0]]
              ltac:(lia) eq_refl eq_refl eq_refl)
    as (self & attrs & Hs & Hb & _ & _ & _ & Hc).
  exists self, attrs. split; [exact Hs|]. split; [exact Hb|exact Hc].
Defined.

(** X21 at two qubits, one phase moved by [2 pi] and one by [- 6 pi]. *)
Lemma phase_shifts_periodic_witness :
  phase_shifts_to_tensor_product_space
    [(0 + 2 * IZR 1 * PI)%R; 1%R] [(1 + 2 * IZR (-3) * PI)%R; (2 + 2 * IZR 0 * PI)%R]
  = phase_shifts_to_tensor_product_space [0%R; 1%R] [1%R; 2%R].
Proof.
  apply phase_shifts_periodic.
  - constructor; [exists 1%Z; reflexivity|].
    constructor; [exists 0%Z; simpl; ring|constructor].
  - constructor; [exists (-3)%Z; reflexivity|].
    constructor; [exists 0%Z; reflexivity|constructor].
Defined.

(** X22 at two qubits. *)
Lemma phase_shifts_compose_witness :
  exists op op' op'',
    phase_shifts_to_tensor_product_space [0%R; 1%R] [PI; 2%R] = Ok op /\
    phase_shifts_to_tensor_product_space [1%R; 1%R] [0%R; 3%R] = Ok op' /\
    phase_shifts_to_tensor_product_space
      (phases_add [0%R; 1%R] [1%R; 1%R]) (phases_add [PI; 2%R] [0%R; 3%R])
    = Ok op'' /\
    to_dense op'' = matmul (to_dense op) (to_dense op').
Proof.
  destruct (@phase_shifts_ok [0%R; 1%R] [PI; 2%R] ltac:(discriminate) eq_refl)
    as (op & Ho & _).
  destruct (@phase_shifts_ok [1%R; 1%R] [0%R; 3%R] ltac:(discriminate) eq_refl)
    as (op' & Ho' & _).
  destruct (@phase_shifts_compose [0%R; 1%R] [PI; 2%R] [1%R; 1%R] [0%R; 3%R]
              op op' eq_refl eq_refl Ho Ho') as (op'' & H & D).
  exists op, op', op''. repeat split; assumption.
Defined.

(** X23 at a circuit on one qubit of depth one and the batches [|0>] and
    [|1>]. *)
Lemma QPGA_call_batch_witness :
  exists q q' out out_x out_y,
    QPGA_init 1 1 true true true = Ok q /\
    QPGA_call beam_splitter controlled_phase controlled_phase_mod
      (fun _ => constant_init 0) q (ComplexTensor ([[C1; C0]] ++ [[C0; C1]]))
    = Ok (q', out) /\
    QPGA_call beam_splitter controlled_phase controlled_phase_mod
      (fun _ => constant_init 0) q' (ComplexTensor [[C1; C0]]) = Ok (q', out_x) /\
    QPGA_call beam_splitter controlled_phase controlled_phase_mod
      (fun _ => constant_init 0) q' (ComplexTensor [[C0; C1]]) = Ok (q', out_y) /\
    states_of out = states_of out_x ++ states_of out_y.
Proof.
  eexists.
  destruct (@QPGA_call_batch beam_splitter controlled_phase controlled_phase_mod
              1 1 true true (fun _ => constant_init 0) _ [[C1; C0]] [[C0; C1]]
              ltac:(lia) eq_refl eq_refl eq_refl eq_refl eq_refl eq_refl)
    as (q' & out & ox & oy & H1 & H2 & H3 & H4).
  exists q', out, ox, oy. split; [reflexivity|].
  split; [exact H1|]. split; [exact H2|]. split; [exact H3|exact H4].
Defined.

(** X24 at a circuit on one qubit of depth one and the superposition
    [3 |0> + i |1>]. *)
Lemma QPGA_call_linear_witness :
  let a := (3, 0)%R in
  let b := (0, 1)%R in
  exists q q' out out_x out_y sx sy,
    QPGA_init 1 1 true true true = Ok q /\
    QPGA_call beam_splitter controlled_phase controlled_phase_mod
      (fun _ => constant_init 0) q
      (ComplexTensor [vadd (vscale a [C1; C0]) (vscale b [C0; C1])])
    = Ok (q', out) /\
    QPGA_call beam_splitter controlled_phase controlled_phase_mod
      (fun _ => constant_init 0) q' (ComplexTensor [[C1; C0]]) = Ok (q', out_x) /\
    QPGA_call beam_splitter controlled_phase controlled_phase_mod
      (fun _ => constant_init 0) q' (ComplexTensor [[C0; C1]]) = Ok (q', out_y) /\
    states_of out_x = [sx] /\
    states_of out_y = [sy] /\
    states_of out = [vadd (vscale a sx) (vscale b sy)].
Proof.
  cbv zeta. eexists.
  destruct (@QPGA_call_linear beam_splitter controlled_phase controlled_phase_mod
              1 1 true true (fun _ => constant_init 0) _ (3, 0)%R (0, 1)%R
              [C1; C0] [C0; C1]
              ltac:(lia) eq_refl eq_refl eq_refl eq_refl eq_refl eq_refl)
    as (q' & out & ox & oy & sx & sy & H1 & H2 & H3 & H4 & H5 & H6).
  exists q', out, ox, oy, sx, sy. split; [reflexivity|].
  repeat (split; [assumption|]). assumption.
Defined.
